(** * The real-time engine of server.js: session bridge, connection
      manager, TTL caches and the four in-memory games

    A shallow embedding of the handlers of [server.js] that the
    specification's core is about, with the properties the specification
    states about them.

    Conventions of the embedding.
    - JS numbers that the code uses as integers are [Z]; [NaN] and
      [undefined] are [None] of an option type. A number that a request
      supplies and the code does not validate ([playerCount]) is a
      [Js.Number]: [NaN] or a rational.
    - JS strings are [string]: sequences of 8-bit code units, which is what
      an HTTP header carries.
    - A JS object is a record with the fields its object literals write,
      plus the fields some handler reads ([socketId], [sessionId]); a field
      no literal writes is [None], JS's [undefined].
    - [Math.random] is a list of raw draws handed to the handler;
      [Math.floor(Math.random() * n)] is the next draw modulo [n].
    - A handler is a function from the world to its answer, the new world
      and the events it emitted; a [TypeError] thrown in an HTTP handler
      is an answer of its own (Express answers 500), one thrown in a
      socket.io listener ends the process. *)

From Stdlib Require Import ZArith QArith Qround String Ascii List Bool Lia Permutation.
From Stdlib Require Import DecimalString.
From stdpp Require Import base option list gmap strings.

Import ListNotations.
Local Open Scope string_scope.
Local Open Scope list_scope.
Local Open Scope Z_scope.

(** ** JavaScript primitives used by the handlers *)

Module Js.

(** A JS number where the code computes with one that the body of a
    request supplies as it is: [None] is [NaN], which [Math.max] makes of
    a missing field, an object or a string that is no numeral; [Some q] is a
    finite number, every finite double being a rational. An infinite
    number is not represented: the code only clamps it, and clamps it like
    any finite number beyond the bound. *)
Definition Number : Type := option Q.

Definition num (z : Z) : Number := Some (inject_Z z).

(** [Math.max(a, b)] and [Math.min(a, b)]: [NaN] when an argument is. *)
Definition math_max (a b : Number) : Number :=
  match a, b with
  | Some x, Some y => Some (if Qle_bool x y then y else x)
  | _, _ => None
  end.

Definition math_min (a b : Number) : Number :=
  match a, b with
  | Some x, Some y => Some (if Qle_bool x y then x else y)
  | _, _ => None
  end.

(** [a < b] and [a >= b]: false when an argument is [NaN]. *)
Definition lt (a b : Number) : bool :=
  match a, b with
  | Some x, Some y => negb (Qle_bool y x)
  | _, _ => false
  end.

Definition ge (a b : Number) : bool :=
  match a, b with
  | Some x, Some y => Qle_bool y x
  | _, _ => false
  end.

(** [a - b]. *)
Definition minus (a b : Number) : Number :=
  match a, b with
  | Some x, Some y => Some (x - y)%Q
  | _, _ => None
  end.

(** How often the body of [for (let i = 0; i < n; i++)] runs: once for
    every natural number below [n]. *)
Definition iterations (n : Number) : nat :=
  match n with
  | Some q => Z.to_nat (Qceiling q)
  | None => 0%nat
  end.

(** [array[i]] for a numeric [i]: [undefined] outside the array. *)
Definition nth {A} (l : list A) (i : Z) : option A :=
  if i <? 0 then None else l !! Z.to_nat i.

(** [array.length] as a JS number. *)
Definition len {A} (l : list A) : Z := Z.of_nat (length l).

(** [array.pop()]: the last element and the array without it. *)
Definition pop {A} (l : list A) : option (A * list A) :=
  match rev l with
  | [] => None
  | x :: r => Some (x, rev r)
  end.

(** [array.splice(i, 1)] as a statement: the array afterwards. *)
Definition splice1 {A} (l : list A) (i : Z) : list A :=
  let start := if i <? 0 then Z.max (len l + i) 0 else Z.min i (len l) in
  delete (Z.to_nat start) l.

(** [[a[i], a[j]] = [a[j], a[i]]] for indices of the array. *)
Definition swap {A} (l : list A) (i j : nat) : list A :=
  match l !! i, l !! j with
  | Some x, Some y => <[j := x]> (<[i := y]> l)
  | _, _ => l
  end.

(** [n.toString()] for an integer [n]. *)
Definition toString (n : Z) : string := NilZero.string_of_int (Z.to_int n).

(** [a || b] on strings: the empty string is falsy. *)
Definition or_else (a : option string) (b : string) : string :=
  match a with
  | Some s => if String.eqb s "" then b else s
  | None => b
  end.

(** [x === y] where [x] may be [undefined] and [y] is a string. *)
Definition eq_undef (x : option string) (y : string) : bool :=
  match x with
  | Some s => String.eqb s y
  | None => false
  end.

(** [array.includes(x)] on an array of strings, [x] possibly [undefined]. *)
Definition includes (l : list string) (x : option string) : bool :=
  existsb (fun p => match x with Some s => String.eqb p s | None => false end) l.

(** [s.includes(sub)] on strings. *)
Fixpoint str_includes (sub s : string) : bool :=
  String.prefix sub s ||
  match s with
  | EmptyString => false
  | String _ s' => str_includes sub s'
  end.

(** [s.split(sep)] for a one-character separator: never empty. *)
Fixpoint split (sep : ascii) (s : string) : list string :=
  match s with
  | EmptyString => [EmptyString]
  | String c s' =>
      if Ascii.eqb c sep then EmptyString :: split sep s'
      else match split sep s' with
           | [] => [String c EmptyString]
           | w :: ws => String c w :: ws
           end
  end.

(** White space of [String.prototype.trim] among 8-bit code units. *)
Definition is_space (c : ascii) : bool :=
  let n := nat_of_ascii c in
  ((9 <=? n) && (n <=? 13) || (n =? 32) || (n =? 160))%nat.

Fixpoint trim_left (s : string) : string :=
  match s with
  | String c s' => if is_space c then trim_left s' else s
  | EmptyString => EmptyString
  end.

Definition str_rev (s : string) : string :=
  string_of_list_ascii (rev (list_ascii_of_string s)).

Definition trim (s : string) : string :=
  str_rev (trim_left (str_rev (trim_left s))).

(** [c.toUpperCase()] on ASCII letters; other code units are kept. *)
Definition upper_ascii (c : ascii) : ascii :=
  let n := nat_of_ascii c in
  if ((97 <=? n) && (n <=? 122))%nat then ascii_of_nat (n - 32) else c.

Fixpoint toUpperCase (s : string) : string :=
  match s with
  | EmptyString => EmptyString
  | String c s' => String (upper_ascii c) (toUpperCase s')
  end.

(** [Math.floor(Math.random() * n)]: the next raw draw modulo [n]. *)
Definition random_below (n : nat) (rs : list nat) : nat := (hd 0%nat rs) mod n.

(** [(a + b) % n] of JS: the remainder has the sign of the dividend. *)
Definition rem (a n : Z) : Z := Z.rem a n.

End Js.

(** ** Match status, shared by the four variants *)

Inductive Status := waiting | playing | finished | draw | abandoned.

#[global] Instance Status_eq_dec : EqDecision Status.
Proof. solve_decision. Defined.

(** What a handler does with the match it found. [Threw] is a [TypeError]
    that escaped before the handler wrote anything; [Crashed g] is one that
    escaped after it had written, [g] being the match at that point; Express
    answers both with a 500 and nothing is emitted. [Accepted g event] carries
    the match as written and the name of the event emitted to the gaming
    room. *)
Inductive Outcome (G : Type) :=
  | Rejected (code : Z) (message : string)
  | Threw
  | Crashed (g : G)
  | Accepted (g : G) (event : string).
Arguments Rejected {G} code message.
Arguments Threw {G}.
Arguments Crashed {G} g.
Arguments Accepted {G} g event.

(** ** The card game *)

Module Uno.

Record Card := mkCard { color : string; value : string; type : string }.

Record Player := mkPlayer {
  name : string;
  hand : list Card;
  saidUNO : bool;
  socketId : option string
}.

Record Game := mkGame {
  id : string;
  players : list Player;
  maxPlayers : Z;
  deck : list Card;
  discardPile : list Card;
  currentPlayerIndex : Z;
  currentColor : string;
  currentNumber : string;
  direction : Z;
  status : Status;
  winner : option string;
  createdAt : Z
}.

Definition set_hand (p : Player) (h : list Card) : Player :=
  mkPlayer (name p) h (saidUNO p) (socketId p).

Definition set_players (g : Game) (ps : list Player) : Game :=
  mkGame (id g) ps (maxPlayers g) (deck g) (discardPile g)
    (currentPlayerIndex g) (currentColor g) (currentNumber g) (direction g)
    (status g) (winner g) (createdAt g).

Definition set_deck (g : Game) (d : list Card) : Game :=
  mkGame (id g) (players g) (maxPlayers g) d (discardPile g)
    (currentPlayerIndex g) (currentColor g) (currentNumber g) (direction g)
    (status g) (winner g) (createdAt g).

Definition set_discardPile (g : Game) (d : list Card) : Game :=
  mkGame (id g) (players g) (maxPlayers g) (deck g) d
    (currentPlayerIndex g) (currentColor g) (currentNumber g) (direction g)
    (status g) (winner g) (createdAt g).

Definition set_currentPlayerIndex (g : Game) (i : Z) : Game :=
  mkGame (id g) (players g) (maxPlayers g) (deck g) (discardPile g)
    i (currentColor g) (currentNumber g) (direction g)
    (status g) (winner g) (createdAt g).

Definition set_current (g : Game) (c n : string) : Game :=
  mkGame (id g) (players g) (maxPlayers g) (deck g) (discardPile g)
    (currentPlayerIndex g) c n (direction g)
    (status g) (winner g) (createdAt g).

Definition set_direction (g : Game) (d : Z) : Game :=
  mkGame (id g) (players g) (maxPlayers g) (deck g) (discardPile g)
    (currentPlayerIndex g) (currentColor g) (currentNumber g) d
    (status g) (winner g) (createdAt g).

Definition set_status (g : Game) (s : Status) : Game :=
  mkGame (id g) (players g) (maxPlayers g) (deck g) (discardPile g)
    (currentPlayerIndex g) (currentColor g) (currentNumber g) (direction g)
    s (winner g) (createdAt g).

Definition set_winner (g : Game) (w : option string) : Game :=
  mkGame (id g) (players g) (maxPlayers g) (deck g) (discardPile g)
    (currentPlayerIndex g) (currentColor g) (currentNumber g) (direction g)
    (status g) w (createdAt g).

Definition colors : list string := ["red"; "blue"; "green"; "yellow"].
Definition specials : list string := ["skip"; "reverse"; "draw2"].

(** [createUNODeck]: the three loops, in order. *)
Definition createUNODeck : list Card :=
  flat_map (fun c =>
      mkCard c "0" "number" ::
      flat_map (fun i => [mkCard c (Js.toString i) "number";
                          mkCard c (Js.toString i) "number"])
               [1; 2; 3; 4; 5; 6; 7; 8; 9]) colors
  ++ flat_map (fun c =>
      flat_map (fun s => [mkCard c s "special"; mkCard c s "special"]) specials)
      colors
  ++ flat_map (fun _ : Z => [mkCard "wild" "wild" "wild"; mkCard "wild" "wild4" "wild"])
      [0; 1; 2; 3].

(** [shuffleArray]: [i] runs from [length - 1] down to [1]. *)
Fixpoint shuffle_from {A} (i : nat) (rs : list nat) (array : list A) : list A :=
  match i with
  | O => array
  | S i' => shuffle_from i' (tl rs) (Js.swap array i (Js.random_below (i + 1) rs))
  end.

Definition shuffleArray {A} (rs : list nat) (array : list A) : list A :=
  shuffle_from (length array - 1) rs array.

(** [n] times [hand.push(deck.pop())]; [None] when the deck runs dry. *)
Fixpoint draw_n (n : nat) (d h : list Card) : option (list Card * list Card) :=
  match n with
  | O => Some (h, d)
  | S n' =>
      match Js.pop d with
      | None => None
      | Some (c, d') => draw_n n' d' (h ++ [c])
      end
  end.

(** [for (i = 0; i < n && deck.length > 0; i++) hand.push(deck.pop())]. *)
Fixpoint draw_while (n : nat) (d h : list Card) : list Card * list Card :=
  match n with
  | O => (h, d)
  | S n' =>
      match Js.pop d with
      | None => (h, d)
      | Some (c, d') => draw_while n' d' (h ++ [c])
      end
  end.

(** The [forEach] that deals seven cards to each player. *)
Fixpoint deal (ps : list Player) (d : list Card) : option (list Player * list Card) :=
  match ps with
  | [] => Some ([], d)
  | p :: ps' =>
      match draw_n 7 d [] with
      | None => None
      | Some (h, d') =>
          match deal ps' d' with
          | None => None
          | Some (qs, d'') => Some (set_hand p h :: qs, d'')
          end
      end
  end.

Definition is_wild (c : Card) : bool := String.eqb (type c) "wild".

(** [do { firstCard = deck.pop() } while (firstCard.type === 'wild')],
    on the deck read from its end; [None] is the [TypeError] of an
    exhausted deck. The second component is what is left, end first. *)
Fixpoint seed (rdeck : list Card) : option (Card * list Card) :=
  match rdeck with
  | [] => None
  | c :: r => if is_wild c then seed r else Some (c, r)
  end.

(** The wild cards that loop pops, and drops, before it keeps a card. *)
Fixpoint leading_wilds (rdeck : list Card) : list Card :=
  match rdeck with
  | [] => []
  | c :: r => if is_wild c then c :: leading_wilds r else []
  end.

Definition place_first (d : list Card) : option (Card * list Card) :=
  match seed (rev d) with
  | None => None
  | Some (c, r) => Some (c, rev r)
  end.

(** [initializeUNOGame]. *)
Definition initializeUNOGame (rs : list nat) (g : Game) : option Game :=
  match deal (players g) (shuffleArray rs createUNODeck) with
  | None => None
  | Some (ps, d) =>
      match place_first d with
      | None => None
      | Some (firstCard, d') =>
          Some (mkGame (id g) ps (maxPlayers g) d' [firstCard] 0
                  (color firstCard) (value firstCard) 1
                  (status g) (winner g) (createdAt g))
      end
  end.

(** The cards a deal with the draws [rs] drops while seeding the discard
    pile. *)
Definition dropped_wilds (rs : list nat) (ps : list Player) : list Card :=
  match deal ps (shuffleArray rs createUNODeck) with
  | Some (_, d) => leading_wilds (rev d)
  | None => []
  end.

(** [canPlayUNOCard]. *)
Definition canPlayUNOCard (card : Card) (currentColor currentNumber : string) : bool :=
  if is_wild card then true
  else String.eqb (color card) currentColor || String.eqb (value card) currentNumber.

Definition step_index (g : Game) (from : Z) : Z :=
  Js.rem (from + direction g + Js.len (players g)) (Js.len (players g)).

(** The forced draw of [draw2] and [wild4]: the player at [nextPlayerIndex]
    draws while the deck lasts. The loop body is not entered on an empty
    deck; once entered, [None] is the [TypeError] of a missing player. *)
Definition forced_draw (n : nat) (g : Game) (next : Z) : option Game :=
  if Js.len (deck g) >? 0 then
    match Js.nth (players g) next with
    | None => None
    | Some p =>
        let '(h, d) := draw_while n (deck g) (hand p) in
        Some (set_deck (set_players g (<[Z.to_nat next := set_hand p h]> (players g))) d)
    end
  else Some g.

(** [processUNOCardEffect]; [None] is a [TypeError]. *)
Definition processUNOCardEffect (g : Game) (card : Card) : option Game :=
  let nextPlayerIndex := step_index g (currentPlayerIndex g) in
  if String.eqb (value card) "skip" then
    Some (set_currentPlayerIndex g (step_index g nextPlayerIndex))
  else if String.eqb (value card) "reverse" then
    let g1 := set_direction g (direction g * -1) in
    if Js.len (players g1) =? 2
    then Some (set_currentPlayerIndex g1 (step_index g1 (currentPlayerIndex g1)))
    else Some g1
  else if String.eqb (value card) "draw2" then
    match forced_draw 2 g nextPlayerIndex with
    | None => None
    | Some g1 => Some (set_currentPlayerIndex g1 (step_index g1 nextPlayerIndex))
    end
  else if String.eqb (value card) "wild4" then
    match forced_draw 4 g nextPlayerIndex with
    | None => None
    | Some g1 => Some (set_currentPlayerIndex g1 (step_index g1 nextPlayerIndex))
    end
  else Some g.

(** [reshuffleUNODeck]. *)
Definition reshuffleUNODeck (rs : list nat) (g : Game) : Game :=
  if Js.len (discardPile g) <=? 1 then g
  else match Js.pop (discardPile g) with
       | None => g
       | Some (topCard, rest) =>
           set_deck (set_discardPile g [topCard]) (shuffleArray rs rest)
       end.

(** The new match of [POST /api/uno/create]. *)
Definition newGame (username : string) (now : Z) : Game :=
  mkGame ("uno_" +:+ Js.toString now) [mkPlayer username [] false None] 4
    [] [] 0 "" "" 1 waiting None now.

(** [POST /api/uno/join/:gameId] on the match found. [initializeUNOGame]
    can only throw with fifteen players or more, after it has dealt;
    [Crashed] then carries the match as it entered the function. The
    endpoint admits no fifth player. *)
Definition join (rs : list nat) (username : string) (g : Game) : Outcome Game :=
  if Js.len (players g) >=? maxPlayers g then Rejected 400 "Game is full"
  else if existsb (fun p => String.eqb (name p) username) (players g)
  then Rejected 400 "Already in this game"
  else
    let g1 := set_players g (players g ++ [mkPlayer username [] false None]) in
    if Js.len (players g1) >=? 2 then
      let g2 := set_status g1 playing in
      match initializeUNOGame rs g2 with
      | None => Crashed g2
      | Some g3 => Accepted g3 "uno-game-updated"
      end
    else Accepted g1 "uno-game-updated".

(** [POST /api/uno/play-card] on the match found. [currentPlayer] is the
    player object read at entry: after the effect of the card its hand is
    read again, at the index it was found at. *)
Definition play_card (username : string) (cardIndex : Z) (chosenColor : option string)
    (g : Game) : Outcome Game :=
  match Js.nth (players g) (currentPlayerIndex g) with
  | None => Threw
  | Some currentPlayer =>
      if negb (String.eqb (name currentPlayer) username)
      then Rejected 400 "Not your turn"
      else if cardIndex >=? Js.len (hand currentPlayer)
      then Rejected 400 "Invalid card index"
      else
        match Js.nth (hand currentPlayer) cardIndex with
        | None => Threw
        | Some card =>
            if negb (canPlayUNOCard card (currentColor g) (currentNumber g))
            then Rejected 400 "Cannot play this card"
            else
              let me := Z.to_nat (currentPlayerIndex g) in
              let hand' := Js.splice1 (hand currentPlayer) cardIndex in
              let g1 := set_players g (<[me := set_hand currentPlayer hand']> (players g)) in
              let g2 := set_discardPile g1 (discardPile g1 ++ [card]) in
              let g3 := set_current g2
                          (if is_wild card then Js.or_else chosenColor "red" else color card)
                          (value card) in
              match processUNOCardEffect g3 card with
              | None => Crashed g3
              | Some g4 =>
                  let g5 :=
                    match Js.nth (players g4) (currentPlayerIndex g) with
                    | Some p =>
                        if Js.len (hand p) =? 0
                        then set_winner (set_status g4 finished) (Some (name currentPlayer))
                        else set_currentPlayerIndex g4 (step_index g4 (currentPlayerIndex g4))
                    | None => g4
                    end in
                  Accepted g5 "uno-card-played"
              end
        end
  end.

(** [POST /api/uno/draw-card] on the match found. *)
Definition draw_card (rs : list nat) (username : string) (g : Game) : Outcome Game :=
  match Js.nth (players g) (currentPlayerIndex g) with
  | None => Threw
  | Some currentPlayer =>
      if negb (String.eqb (name currentPlayer) username)
      then Rejected 400 "Not your turn"
      else
        let g1 := if Js.len (deck g) =? 0 then reshuffleUNODeck rs g else g in
        let g2 :=
          match Js.pop (deck g1) with
          | Some (c, d') =>
              let me := Z.to_nat (currentPlayerIndex g1) in
              let g' := set_deck
                          (set_players g1
                             (<[me := set_hand currentPlayer (hand currentPlayer ++ [c])]>
                                (players g1))) d' in
              set_currentPlayerIndex g' (step_index g' (currentPlayerIndex g'))
          | None => g1
          end in
        Accepted g2 "uno-card-drawn"
  end.

(** [Σ hand.length]. *)
Definition in_hands (ps : list Player) : Z :=
  fold_right (fun p acc => Js.len (hand p) + acc) 0 ps.

(** [deck.length + discardPile.length + Σ hand.length]. *)
Definition total (g : Game) : Z :=
  Js.len (deck g) + Js.len (discardPile g) + in_hands (players g).

(** How many cards of a deck match a color, value and type. *)
Definition count (c v t : string) (d : list Card) : nat :=
  length (List.filter
            (fun x => String.eqb (color x) c && String.eqb (value x) v
                      && String.eqb (type x) t) d).

End Uno.

(** ** The 3x3 grid game *)

Module Ttt.

Record Player := mkPlayer {
  name : string;
  symbol : string;
  socketId : option string
}.

Record Game := mkGame {
  id : string;
  players : list Player;
  board : list string;
  currentPlayer : string;
  status : Status;
  winner : option string;
  createdAt : Z
}.

Definition winPatterns : list (Z * Z * Z) :=
  [(0, 1, 2); (3, 4, 5); (6, 7, 8);
   (0, 3, 6); (1, 4, 7); (2, 5, 8);
   (0, 4, 8); (2, 4, 6)].

(** [board[a] && board[a] === board[b] && board[a] === board[c]]. *)
Definition line_won (board : list string) (p : Z * Z * Z) : option string :=
  let '(a, b, c) := p in
  match Js.nth board a with
  | Some x =>
      if negb (String.eqb x "")
         && Js.eq_undef (Js.nth board b) x && Js.eq_undef (Js.nth board c) x
      then Some x else None
  | None => None
  end.

Fixpoint first_won (board : list string) (ps : list (Z * Z * Z)) : option string :=
  match ps with
  | [] => None
  | p :: ps' =>
      match line_won board p with
      | Some x => Some x
      | None => first_won board ps'
      end
  end.

(** [checkTicTacToeWinner]; [None] is [null]. *)
Definition checkTicTacToeWinner (board : list string) : option string :=
  first_won board winPatterns.

(** The new match of [POST /api/tictactoe/create]. *)
Definition newGame (username : string) (now : Z) : Game :=
  mkGame ("ttt_" +:+ Js.toString now) [mkPlayer username "X" None]
    (repeat "" 9) "X" waiting None now.

(** [POST /api/tictactoe/join/:gameId] on the match found. *)
Definition join (username : string) (g : Game) : Outcome Game :=
  if Js.len (players g) >=? 2 then Rejected 400 "Game is full"
  else if existsb (fun p => String.eqb (name p) username) (players g)
  then Rejected 400 "Already in this game"
  else
    Accepted (mkGame (id g) (players g ++ [mkPlayer username "O" None]) (board g)
                (currentPlayer g) playing (winner g) (createdAt g))
             "tictactoe-game-updated".

(** [POST /api/tictactoe/move] on the match found. *)
Definition move (username : string) (position : Z) (g : Game) : Outcome Game :=
  match find (fun p => String.eqb (name p) username) (players g) with
  | None => Rejected 403 "Not a player in this game"
  | Some player =>
      if negb (String.eqb (currentPlayer g) (symbol player))
      then Rejected 400 "Not your turn"
      else if negb (Js.eq_undef (Js.nth (board g) position) "")
      then Rejected 400 "Position already taken"
      else
        let board' := <[Z.to_nat position := symbol player]> (board g) in
        match checkTicTacToeWinner board' with
        | Some w =>
            Accepted (mkGame (id g) (players g) board' (currentPlayer g)
                        finished (Some w) (createdAt g))
                     "tictactoe-move-made"
        | None =>
            if forallb (fun cell => negb (String.eqb cell "")) board'
            then Accepted (mkGame (id g) (players g) board' (currentPlayer g)
                             draw (winner g) (createdAt g))
                          "tictactoe-move-made"
            else Accepted (mkGame (id g) (players g) board'
                             (if String.eqb (currentPlayer g) "X" then "O" else "X")
                             (status g) (winner g) (createdAt g))
                          "tictactoe-move-made"
        end
  end.

End Ttt.

(** ** Chess *)

Module Chess.

Record Move := mkMove { from : string; to : string; player : string; timestamp : Z }.

Record Game := mkGame {
  id : string;
  players : list string;
  board : list (list (option string));
  turn : string;
  status : Status;
  moves : list Move;
  winner : option string;
  createdAt : Z
}.

Definition initializeChessBoard : list (list (option string)) :=
  [ map Some ["r"; "n"; "b"; "q"; "k"; "b"; "n"; "r"];
    repeat (Some "p") 8;
    repeat None 8; repeat None 8; repeat None 8; repeat None 8;
    repeat (Some "P") 8;
    map Some ["R"; "N"; "B"; "Q"; "K"; "B"; "N"; "R"] ].

(** [parseInt(s[1])]: a decimal digit or [NaN]. *)
Definition parseInt_at1 (s : string) : option Z :=
  match String.get 1 s with
  | Some c =>
      let n := nat_of_ascii c in
      if ((48 <=? n) && (n <=? 57))%nat then Some (Z.of_nat n - 48) else None
  | None => None
  end.

(** [s.charCodeAt(0) - 97]; [NaN] on the empty string. *)
Definition col_of (s : string) : option Z :=
  match s with
  | String c _ => Some (Z.of_nat (nat_of_ascii c) - 97)
  | EmptyString => None
  end.

(** [x < 0 || x > 7]: false on [NaN]. *)
Definition off_board (x : option Z) : bool :=
  match x with
  | Some n => (n <? 0) || (n >? 7)
  | None => false
  end.

(** [a[i]] for a number [i] that may be [NaN]. *)
Definition at_num {A} (l : list A) (i : option Z) : option A :=
  match i with
  | Some n => Js.nth l n
  | None => None
  end.

(** [isValidMove]; [None] is the [TypeError] of indexing a missing row. *)
Definition isValidMove (board : list (list (option string))) (from to playerColor : string)
    : option bool :=
  let fromRow := parseInt_at1 from in
  let fromCol := col_of from in
  let toRow := parseInt_at1 to in
  let toCol := col_of to in
  if off_board fromRow || off_board fromCol || off_board toRow || off_board toCol
  then Some false
  else
    match at_num board (option_map (fun r => 7 - r) fromRow) with
    | None => None
    | Some row =>
        match at_num row fromCol with
        | Some (Some piece) =>
            if String.eqb piece "" then Some false
            else
              let pieceColor :=
                if String.eqb piece (Js.toUpperCase piece) then "white" else "black" in
              Some (String.eqb pieceColor playerColor)
        | _ => Some false
        end
    end.

(** [row[c] = v]: an index of the row is written; [NaN] names a property
    that is no cell of the row. *)
Definition write_cell {A} (row : list A) (c : option Z) (v : A) : list A :=
  match c with
  | Some n => if (0 <=? n) && (n <? Js.len row) then <[Z.to_nat n := v]> row else row
  | None => row
  end.

Definition write_board {A} (board : list (list A)) (r : Z) (c : option Z) (v : A)
    : list (list A) :=
  match Js.nth board r with
  | Some row => <[Z.to_nat r := write_cell row c v]> board
  | None => board
  end.

(** [makeMove]; [None] is the [TypeError] of writing into a missing row,
    raised by the first assignment. *)
Definition makeMove (board : list (list (option string))) (from to : string)
    : option (list (list (option string))) :=
  let fromRow := option_map (fun r => 7 - r) (parseInt_at1 from) in
  let fromCol := col_of from in
  let toRow := option_map (fun r => 7 - r) (parseInt_at1 to) in
  let toCol := col_of to in
  match toRow, fromRow with
  | Some tr, Some fr =>
      match Js.nth board tr, Js.nth board fr with
      | Some _, Some frow =>
          let piece := match at_num frow fromCol with Some p => p | None => None end in
          let board1 := write_board board tr toCol piece in
          Some (write_board board1 fr fromCol None)
      | _, _ => None
      end
  | _, _ => None
  end.

(** [isCheckmate] and [isStalemate]: the stubs of the source. *)
Definition isCheckmate (board : list (list (option string))) (color : string) : bool := false.
Definition isStalemate (board : list (list (option string))) (color : string) : bool := false.

(** The new match of [POST /api/chess/create]. *)
Definition newGame (username : string) (now : Z) : Game :=
  mkGame (Js.toString now) [username] initializeChessBoard "white" waiting [] None now.

(** [POST /api/chess/join/:gameId] on the match found. *)
Definition join (username : string) (g : Game) : Outcome Game :=
  if Js.len (players g) >=? 2 then Rejected 400 "Game is full"
  else if Js.includes (players g) (Some username)
  then Rejected 400 "Already in this game"
  else Accepted (mkGame (id g) (players g ++ [username]) (board g) (turn g)
                   playing (moves g) (winner g) (createdAt g))
                "game-updated".

(** [POST /api/chess/move] on the match found. *)
Definition move (username from to : string) (now : Z) (g : Game) : Outcome Game :=
  if negb (Js.includes (players g) (Some username))
  then Rejected 403 "Not a player in this game"
  else
    let playerColor :=
      if Js.eq_undef (Js.nth (players g) 0) username then "white" else "black" in
    if negb (String.eqb (turn g) playerColor) then Rejected 400 "Not your turn"
    else
      match isValidMove (board g) from to playerColor with
      | None => Threw
      | Some false => Rejected 400 "Invalid move"
      | Some true =>
          match makeMove (board g) from to with
          | None => Threw
          | Some board' =>
              let moves' := moves g ++ [mkMove from to username now] in
              let turn' := if String.eqb (turn g) "white" then "black" else "white" in
              let g1 := mkGame (id g) (players g) board' turn' (status g) moves'
                          (winner g) (createdAt g) in
              let g2 :=
                if isCheckmate (board g1) (turn g1)
                then mkGame (id g1) (players g1) (board g1) (turn g1) finished (moves g1)
                       (Some playerColor) (createdAt g1)
                else if isStalemate (board g1) (turn g1)
                then mkGame (id g1) (players g1) (board g1) (turn g1) draw (moves g1)
                       (winner g1) (createdAt g1)
                else g1 in
              Accepted g2 "move-made"
          end
      end.

End Chess.

(** ** The race game *)

Module Ludo.

Record Piece := mkPiece { position : Z; id : Z }.

Record Player := mkPlayer {
  name : string;
  isComputer : bool;
  difficulty : option string;
  pieces : list Piece;
  piecesInGoal : Z;
  socketId : option string
}.

Record Game := mkGame {
  gid : string;
  players : list Player;
  maxPlayers : Js.Number;
  status : Status;
  currentPlayerIndex : Z;
  diceRolled : bool;
  lastDiceRoll : option Z;
  board : option (list (option Z));
  gameMode : option string;
  winner : option string;
  createdAt : Z
}.

Definition homePieces : list Piece :=
  [mkPiece (-1) 0; mkPiece (-1) 1; mkPiece (-1) 2; mkPiece (-1) 3].

Definition set_players (g : Game) (ps : list Player) : Game :=
  mkGame (gid g) ps (maxPlayers g) (status g) (currentPlayerIndex g) (diceRolled g)
    (lastDiceRoll g) (board g) (gameMode g) (winner g) (createdAt g).

Definition set_status (g : Game) (s : Status) : Game :=
  mkGame (gid g) (players g) (maxPlayers g) s (currentPlayerIndex g) (diceRolled g)
    (lastDiceRoll g) (board g) (gameMode g) (winner g) (createdAt g).

Definition set_winner (g : Game) (w : option string) : Game :=
  mkGame (gid g) (players g) (maxPlayers g) (status g) (currentPlayerIndex g) (diceRolled g)
    (lastDiceRoll g) (board g) (gameMode g) w (createdAt g).

Definition set_dice (g : Game) (rolled : bool) (last : option Z) : Game :=
  mkGame (gid g) (players g) (maxPlayers g) (status g) (currentPlayerIndex g) rolled
    last (board g) (gameMode g) (winner g) (createdAt g).

Definition set_currentPlayerIndex (g : Game) (i : Z) : Game :=
  mkGame (gid g) (players g) (maxPlayers g) (status g) i (diceRolled g)
    (lastDiceRoll g) (board g) (gameMode g) (winner g) (createdAt g).

Definition next_index (g : Game) : Z :=
  Js.rem (currentPlayerIndex g + 1) (Js.len (players g)).

Definition initializeLudoBoard : list (option Z) := repeat None 52.

(** The new match of [POST /api/ludo/create]. *)
Definition newGame (username : string) (now : Z) : Game :=
  mkGame ("ludo_" +:+ Js.toString now) [mkPlayer username false None homePieces 0 None]
    (Js.num 4) waiting 0 false None None None None now.

(** [POST /api/ludo/join/:gameId] on the match found. *)
Definition join (username : string) (g : Game) : Outcome Game :=
  if Js.ge (Js.num (Js.len (players g))) (maxPlayers g) then Rejected 400 "Game is full"
  else if existsb (fun p => String.eqb (name p) username) (players g)
  then Rejected 400 "Already in this game"
  else Accepted (set_players g (players g ++ [mkPlayer username false None homePieces 0 None]))
                "ludo-game-updated".

Definition difficulties : list string := ["Easy"; "Medium"; "Hard"].

(** [d.charAt(0).toUpperCase() + d.slice(1)]. *)
Definition capitalize (d : string) : string :=
  match d with
  | String c rest => String (Js.upper_ascii c) rest
  | EmptyString => EmptyString
  end.

(** The computer player pushed at iteration [i] of the loop in start. *)
Definition computer (gameMode difficulty : option string) (i : nat) : Player :=
  let single := Js.eq_undef gameMode "single" in
  let wanted := Js.or_else difficulty "medium" in
  let shown :=
    if single then capitalize wanted
    else match difficulties !! (i mod 3)%nat with Some d => d | None => "" end in
  mkPlayer
    (if single then "Computer (" +:+ shown +:+ ")"
     else "Computer " +:+ Js.toString (Z.of_nat i + 1))
    true
    (Some (if single then wanted else "medium"))
    homePieces 0 None.

(** [POST /api/ludo/start/:gameId] on the match found. [playerCount] is
    the field of the body as [Math.max] converts it: the handler does not
    validate it, so it need be neither an integer nor a number at all. *)
Definition start (playerCount : Js.Number) (addComputer : bool)
    (gameMode difficulty : option string) (g : Game) : Outcome Game :=
  let maxPlayers' := Js.math_min (Js.math_max playerCount (Js.num 2)) (Js.num 8) in
  let gameMode' := Js.or_else gameMode "multi" in
  let players' :=
    if addComputer && Js.lt (Js.num (Js.len (players g))) maxPlayers' then
      let neededComputers := Js.minus maxPlayers' (Js.num (Js.len (players g))) in
      players g ++ map (computer gameMode difficulty) (seq 0 (Js.iterations neededComputers))
    else players g in
  Accepted (mkGame (gid g) players' maxPlayers' playing (currentPlayerIndex g)
              (diceRolled g) (lastDiceRoll g) (Some initializeLudoBoard)
              (Some gameMode') (winner g) (createdAt g))
           "ludo-game-started".

(** [POST /api/ludo/roll/:gameId] on the match found; the second component
    is the die, which the deferred task of the handler captures. *)
Definition roll (rs : list nat) (username : string) (g : Game) : Outcome Game * Z :=
  let diceRoll := Z.of_nat (Js.random_below 6 rs) + 1 in
  match Js.nth (players g) (currentPlayerIndex g) with
  | None => (Threw, diceRoll)
  | Some currentPlayer =>
      if negb (String.eqb (name currentPlayer) username)
      then (Rejected 400 "Not your turn", diceRoll)
      else if diceRolled g then (Rejected 400 "Dice already rolled", diceRoll)
      else (Accepted (set_dice g true (Some diceRoll)) "ludo-dice-rolled", diceRoll)
  end.

(** [getValidMoves], each move as (pieceIndex, from, to); [None] is the
    [TypeError] of a missing player. *)
Definition getValidMoves (g : Game) (playerIndex diceRoll : Z) : option (list (Z * Z * Z)) :=
  match Js.nth (players g) playerIndex with
  | None => None
  | Some player =>
      Some (flat_map (fun '(pieceIndex, piece) =>
              if (position piece =? -1) && (diceRoll =? 6)
              then [(Z.of_nat pieceIndex, -1, 0)]
              else if (position piece >=? 0) && (position piece <? 51)
              then let newPosition := position piece + diceRoll in
                   if newPosition <=? 56
                   then [(Z.of_nat pieceIndex, position piece, newPosition)] else []
              else [])
            (imap (fun i x => (i, x)) (pieces player)))
  end.

(** The task deferred by roll; it holds the player who rolled and the die.
    [getValidMoves] can only throw when the turn index names no player;
    the match is then left as it is. *)
Definition auto_advance (rolledIndex diceRoll : Z) (g : Game) : Game :=
  match Js.nth (players g) rolledIndex, getValidMoves g (currentPlayerIndex g) diceRoll with
  | Some currentPlayer, Some validMoves =>
      if isComputer currentPlayer || (Js.len validMoves =? 0)
      then set_dice (set_currentPlayerIndex g (next_index g)) false None
      else g
  | Some currentPlayer, None =>
      if isComputer currentPlayer
      then set_dice (set_currentPlayerIndex g (next_index g)) false None
      else g
  | None, _ => g
  end.

(** The [ludo-move] channel message on the match found. A refusal is
    silent: the code and message of [Rejected] are not sent. *)
Definition socket_move (username : string) (pieceIndex diceRoll : Z) (g : Game)
    : Outcome Game :=
  if negb (bool_decide (status g = playing)) then Rejected 0 "ignored"
  else
    match Js.nth (players g) (currentPlayerIndex g) with
    | None => Threw
    | Some currentPlayer =>
        if negb (String.eqb (name currentPlayer) username)
        then Rejected 0 "unauthorized"
        else
          match Js.nth (pieces currentPlayer) pieceIndex with
          | None => Threw
          | Some piece =>
              let '(piece', goals) :=
                if (position piece =? -1) && (diceRoll =? 6)
                then (mkPiece 0 (id piece), piecesInGoal currentPlayer)
                else if position piece >=? 0
                then let p := Z.min (position piece + diceRoll) 56 in
                     (mkPiece p (id piece),
                      if p =? 56 then piecesInGoal currentPlayer + 1
                      else piecesInGoal currentPlayer)
                else (piece, piecesInGoal currentPlayer) in
              let me := Z.to_nat (currentPlayerIndex g) in
              let player' :=
                mkPlayer (name currentPlayer) (isComputer currentPlayer)
                  (difficulty currentPlayer)
                  (<[Z.to_nat pieceIndex := piece']> (pieces currentPlayer))
                  goals (socketId currentPlayer) in
              let g1 := set_players g (<[me := player']> (players g)) in
              let g2 := if goals =? 4
                        then set_winner (set_status g1 finished) (Some (name currentPlayer))
                        else g1 in
              let g3 := if negb (diceRoll =? 6)
                        then set_currentPlayerIndex g2 (next_index g2) else g2 in
              Accepted (set_dice g3 false None) "ludo-move-made"
          end
    end.

End Ludo.

(** ** The world: containers, counters and pending deferred tasks *)

Record User := mkUser { username : string; role : string }.

(** A channel connection after admission. [sessionId] is read by the
    disconnect handler and written nowhere. *)
Record Socket := mkSocket {
  socket_id : string;
  referer : option string;
  socket_username : string;
  socket_role : string;
  sessionId : option string
}.

Inductive AnyGame :=
  | GChess (g : Chess.Game)
  | GLudo (g : Ludo.Game)
  | GTtt (g : Ttt.Game)
  | GUno (g : Uno.Game).

(** [io.to(room).emit(event, { gameId, game })]. *)
Record Broadcast := mkBroadcast {
  room : string;
  event : string;
  gameId : string;
  game : AnyGame
}.

(** The callbacks handed to [setTimeout]. *)
Inductive Task :=
  | DeleteChess (gameId : string)
  | DeleteLudo (gameId : string)
  | DeleteTtt (gameId : string)
  | DeleteUno (gameId : string)
  | LudoAuto (gameId : string) (rolledIndex diceRoll : Z).

Record World := mkWorld {
  chessGames : gmap string Chess.Game;
  ludoGames : gmap string Ludo.Game;
  ticTacToeGames : gmap string Ttt.Game;
  unoGames : gmap string Uno.Game;
  timers : list (Z * Task);
  activeConnections : Z;
  homepageConnections : Z;
  authenticatedConnections : Z
}.

Definition empty_world : World := mkWorld ∅ ∅ ∅ ∅ [] 0 0 0.

Definition maxConnections : Z := 300.

Definition set_chessGames (w : World) (m : gmap string Chess.Game) : World :=
  mkWorld m (ludoGames w) (ticTacToeGames w) (unoGames w) (timers w)
    (activeConnections w) (homepageConnections w) (authenticatedConnections w).

Definition set_ludoGames (w : World) (m : gmap string Ludo.Game) : World :=
  mkWorld (chessGames w) m (ticTacToeGames w) (unoGames w) (timers w)
    (activeConnections w) (homepageConnections w) (authenticatedConnections w).

Definition set_ticTacToeGames (w : World) (m : gmap string Ttt.Game) : World :=
  mkWorld (chessGames w) (ludoGames w) m (unoGames w) (timers w)
    (activeConnections w) (homepageConnections w) (authenticatedConnections w).

Definition set_unoGames (w : World) (m : gmap string Uno.Game) : World :=
  mkWorld (chessGames w) (ludoGames w) (ticTacToeGames w) m (timers w)
    (activeConnections w) (homepageConnections w) (authenticatedConnections w).

Definition set_timers (w : World) (ts : list (Z * Task)) : World :=
  mkWorld (chessGames w) (ludoGames w) (ticTacToeGames w) (unoGames w) ts
    (activeConnections w) (homepageConnections w) (authenticatedConnections w).

Definition set_counters (w : World) (a h c : Z) : World :=
  mkWorld (chessGames w) (ludoGames w) (ticTacToeGames w) (unoGames w) (timers w) a h c.

(** A match is mutated in place; the container keeps holding it. *)
Definition put_chess (gameId : string) (g : Chess.Game) (w : World) : World :=
  set_chessGames w (<[gameId := g]> (chessGames w)).
Definition put_ludo (gameId : string) (g : Ludo.Game) (w : World) : World :=
  set_ludoGames w (<[gameId := g]> (ludoGames w)).
Definition put_ttt (gameId : string) (g : Ttt.Game) (w : World) : World :=
  set_ticTacToeGames w (<[gameId := g]> (ticTacToeGames w)).
Definition put_uno (gameId : string) (g : Uno.Game) (w : World) : World :=
  set_unoGames w (<[gameId := g]> (unoGames w)).

(** What the caller of a request gets back. *)
Inductive Response :=
  | Success (body : AnyGame)
  | Failure (code : Z) (message : string)
  | ServerError.

Record Result := mkResult {
  response : Response;
  world : World;
  emitted : list Broadcast
}.

(** [requireAuth] followed by the role test every gaming endpoint opens with. *)
Definition gated (session_user : option User) (w : World) (k : User -> Result) : Result :=
  match session_user with
  | None => mkResult (Failure 401 "Session expired or not authenticated") w []
  | Some u =>
      if negb (String.eqb (role u) "gamer")
      then mkResult (Failure 403 "Gaming access required") w []
      else k u
  end.

(** The tail every endpoint that found its match shares: answer, keep the
    mutated match, emit to the gaming room. *)
Definition respond {G} (wrap : G -> AnyGame) (put : string -> G -> World -> World)
    (w : World) (gameId : string) (o : Outcome G) : Result :=
  match o with
  | Rejected code message => mkResult (Failure code message) w []
  | Threw => mkResult ServerError w []
  | Crashed g => mkResult ServerError (put gameId g w) []
  | Accepted g ev =>
      mkResult (Success (wrap g)) (put gameId g w)
        [mkBroadcast "gaming-room" ev gameId (wrap g)]
  end.

Definition not_found (w : World) : Result := mkResult (Failure 404 "Game not found") w [].

(** *** Chess endpoints *)

Definition chess_create (su : option User) (now : Z) (w : World) : Result :=
  gated su w (fun u =>
    let g := Chess.newGame (username u) now in
    mkResult (Success (GChess g)) (put_chess (Chess.id g) g w) []).

Definition chess_join (su : option User) (gameId : string) (w : World) : Result :=
  gated su w (fun u =>
    match chessGames w !! gameId with
    | None => not_found w
    | Some g => respond GChess put_chess w gameId (Chess.join (username u) g)
    end).

Definition chess_move (su : option User) (gameId from to : string) (now : Z) (w : World)
    : Result :=
  gated su w (fun u =>
    match chessGames w !! gameId with
    | None => not_found w
    | Some g => respond GChess put_chess w gameId (Chess.move (username u) from to now g)
    end).

(** *** Race endpoints and channel message *)

Definition ludo_create (su : option User) (now : Z) (w : World) : Result :=
  gated su w (fun u =>
    let g := Ludo.newGame (username u) now in
    mkResult (Success (GLudo g)) (put_ludo (Ludo.gid g) g w) []).

Definition ludo_join (su : option User) (gameId : string) (w : World) : Result :=
  gated su w (fun u =>
    match ludoGames w !! gameId with
    | None => not_found w
    | Some g => respond GLudo put_ludo w gameId (Ludo.join (username u) g)
    end).

Definition ludo_start (su : option User) (gameId : string) (playerCount : Js.Number)
    (addComputer : bool) (gameMode difficulty : option string) (w : World) : Result :=
  gated su w (fun u =>
    match ludoGames w !! gameId with
    | None => not_found w
    | Some g =>
        respond GLudo put_ludo w gameId (Ludo.start playerCount addComputer gameMode difficulty g)
    end).

(** An accepted roll also defers [auto_advance] by one second. *)
Definition ludo_roll (su : option User) (gameId : string) (rs : list nat) (w : World)
    : Result :=
  gated su w (fun u =>
    match ludoGames w !! gameId with
    | None => not_found w
    | Some g =>
        let '(o, diceRoll) := Ludo.roll rs (username u) g in
        let w1 :=
          match o with
          | Accepted _ _ =>
              set_timers w (timers w ++ [(1000, LudoAuto gameId (Ludo.currentPlayerIndex g) diceRoll)])
          | _ => w
          end in
        respond GLudo put_ludo w1 gameId o
    end).

(** The [ludo-move] listener. A [TypeError] raised in a socket.io listener
    is caught by nobody: the listener is not wrapped in a [try] and the
    process registers no [uncaughtException] handler, so the process exits.
    [None] is that exit. *)
Definition ludo_move (s : Socket) (gameId : string) (pieceIndex diceRoll : Z) (w : World)
    : option (World * list Broadcast) :=
  match ludoGames w !! gameId with
  | None => Some (w, [])
  | Some g =>
      match Ludo.socket_move (socket_username s) pieceIndex diceRoll g with
      | Threw | Crashed _ => None
      | o =>
          let r := respond GLudo put_ludo w gameId o in
          Some (world r, emitted r)
      end
  end.

(** *** Grid endpoints *)

Definition tictactoe_create (su : option User) (now : Z) (w : World) : Result :=
  gated su w (fun u =>
    let g := Ttt.newGame (username u) now in
    mkResult (Success (GTtt g)) (put_ttt (Ttt.id g) g w) []).

Definition tictactoe_join (su : option User) (gameId : string) (w : World) : Result :=
  gated su w (fun u =>
    match ticTacToeGames w !! gameId with
    | None => not_found w
    | Some g => respond GTtt put_ttt w gameId (Ttt.join (username u) g)
    end).

Definition tictactoe_move (su : option User) (gameId : string) (position : Z) (w : World)
    : Result :=
  gated su w (fun u =>
    match ticTacToeGames w !! gameId with
    | None => not_found w
    | Some g => respond GTtt put_ttt w gameId (Ttt.move (username u) position g)
    end).

(** *** Card endpoints *)

Definition uno_create (su : option User) (now : Z) (w : World) : Result :=
  gated su w (fun u =>
    let g := Uno.newGame (username u) now in
    mkResult (Success (GUno g)) (put_uno (Uno.id g) g w) []).

Definition uno_join (su : option User) (gameId : string) (rs : list nat) (w : World)
    : Result :=
  gated su w (fun u =>
    match unoGames w !! gameId with
    | None => not_found w
    | Some g => respond GUno put_uno w gameId (Uno.join rs (username u) g)
    end).

Definition uno_play_card (su : option User) (gameId : string) (cardIndex : Z)
    (chosenColor : option string) (w : World) : Result :=
  gated su w (fun u =>
    match unoGames w !! gameId with
    | None => not_found w
    | Some g =>
        respond GUno put_uno w gameId (Uno.play_card (username u) cardIndex chosenColor g)
    end).

Definition uno_draw_card (su : option User) (gameId : string) (rs : list nat) (w : World)
    : Result :=
  gated su w (fun u =>
    match unoGames w !! gameId with
    | None => not_found w
    | Some g => respond GUno put_uno w gameId (Uno.draw_card rs (username u) g)
    end).

(** ** Connection and capacity manager *)

(** [socket.handshake.headers.referer?.includes('homepage.html')]. *)
Definition isHomepageUser (s : Socket) : bool :=
  match referer s with
  | Some r => Js.str_includes "homepage.html" r
  | None => false
  end.

(** What the connection handler does to the new socket. *)
Inductive SocketEffect :=
  | EmitServerOverload (message : string) (retryAfter : Z)
  | Disconnect.

Record Connected := mkConnected {
  conn_world : World;
  conn_effects : list SocketEffect;
  conn_registered : bool
}.

(** [io.on("connection", ...)] up to the registration of the socket's own
    handlers, which the early return of the overload branch skips. *)
Definition on_connection (s : Socket) (w : World) : Connected :=
  let w1 := set_counters w (activeConnections w + 1) (homepageConnections w)
              (authenticatedConnections w) in
  let w2 :=
    if isHomepageUser s
    then set_counters w1 (activeConnections w1) (homepageConnections w1 + 1)
           (authenticatedConnections w1)
    else set_counters w1 (activeConnections w1) (homepageConnections w1)
           (authenticatedConnections w1 + 1) in
  if activeConnections w2 >? maxConnections then
    let w3 := set_counters w2 (activeConnections w2 - 1) (homepageConnections w2)
                (authenticatedConnections w2) in
    let w4 :=
      if isHomepageUser s
      then set_counters w3 (activeConnections w3) (homepageConnections w3 - 1)
             (authenticatedConnections w3)
      else set_counters w3 (activeConnections w3) (homepageConnections w3)
             (authenticatedConnections w3 - 1) in
    mkConnected w4
      [EmitServerOverload "Server at capacity, please try again in a few moments" 30000;
       Disconnect]
      false
  else mkConnected w2 [] true.

(** ** Abandonment on disconnect, deferred deletion and the periodic sweep *)

(** One [for] loop of the disconnect handler: every match the test selects
    gets [status = 'abandoned'] and a deletion deferred by 300000 ms. *)
Definition abandon_where {G} (hit : G -> bool) (abandon : G -> G) (task : string -> Task)
    (m : gmap string G) : gmap string G * list (Z * Task) :=
  ((fun g => if hit g then abandon g else g) <$> m,
   omap (fun '(gameId, g) => if hit g then Some (300000, task gameId) else None)
        (map_to_list m)).

Definition chess_abandon (g : Chess.Game) : Chess.Game :=
  Chess.mkGame (Chess.id g) (Chess.players g) (Chess.board g) (Chess.turn g) abandoned
    (Chess.moves g) (Chess.winner g) (Chess.createdAt g).

Definition ttt_abandon (g : Ttt.Game) : Ttt.Game :=
  Ttt.mkGame (Ttt.id g) (Ttt.players g) (Ttt.board g) (Ttt.currentPlayer g) abandoned
    (Ttt.winner g) (Ttt.createdAt g).

(** [socket.on("disconnect", ...)]. *)
Definition on_disconnect (s : Socket) (w : World) : World :=
  let w1 := set_counters w (activeConnections w - 1) (homepageConnections w)
              (authenticatedConnections w) in
  let w2 :=
    if isHomepageUser s
    then set_counters w1 (activeConnections w1) (homepageConnections w1 - 1)
           (authenticatedConnections w1)
    else set_counters w1 (activeConnections w1) (homepageConnections w1)
           (authenticatedConnections w1 - 1) in
  if negb (isHomepageUser s) then
    let '(chess, t1) :=
      abandon_where (fun g => Js.includes (Chess.players g) (sessionId s))
        chess_abandon DeleteChess (chessGames w2) in
    let '(ludo, t2) :=
      abandon_where
        (fun g => existsb (fun p => Js.eq_undef (Ludo.socketId p) (socket_id s)) (Ludo.players g))
        (fun g => Ludo.set_status g abandoned) DeleteLudo (ludoGames w2) in
    let '(ttt, t3) :=
      abandon_where
        (fun g => existsb (fun p => Js.eq_undef (Ttt.socketId p) (socket_id s)) (Ttt.players g))
        ttt_abandon DeleteTtt (ticTacToeGames w2) in
    let '(uno, t4) :=
      abandon_where
        (fun g => existsb (fun p => Js.eq_undef (Uno.socketId p) (socket_id s)) (Uno.players g))
        (fun g => Uno.set_status g abandoned) DeleteUno (unoGames w2) in
    mkWorld chess ludo ttt uno (timers w2 ++ t1 ++ t2 ++ t3 ++ t4)
      (activeConnections w2) (homepageConnections w2) (authenticatedConnections w2)
  else w2.

(** The body of a deferred callback. [LudoAuto] finds its match through the
    container, where the closure of the source holds the object itself. *)
Definition run_task (t : Task) (w : World) : World :=
  match t with
  | DeleteChess gameId => set_chessGames w (delete gameId (chessGames w))
  | DeleteLudo gameId => set_ludoGames w (delete gameId (ludoGames w))
  | DeleteTtt gameId => set_ticTacToeGames w (delete gameId (ticTacToeGames w))
  | DeleteUno gameId => set_unoGames w (delete gameId (unoGames w))
  | LudoAuto gameId rolledIndex diceRoll =>
      match ludoGames w !! gameId with
      | Some g => put_ludo gameId (Ludo.auto_advance rolledIndex diceRoll g) w
      | None => w
      end
  end.

(** The [k]-th pending callback fires. *)
Definition fire (k : nat) (w : World) : World :=
  match timers w !! k with
  | Some (_, t) => run_task t (set_timers w (delete k (timers w)))
  | None => w
  end.

(** The games half of the [setInterval] callback; [createdAt] is kept in
    milliseconds, what [new Date(game.createdAt).getTime()] reads back. *)
Definition sweep_games (now : Z) (w : World) : World :=
  let fiveMinutesAgo := now - 300000 in
  mkWorld
    (filter (fun kv => ¬ (Chess.status kv.2 = abandoned ∧ Chess.createdAt kv.2 < fiveMinutesAgo))
       (chessGames w))
    (filter (fun kv => ¬ (Ludo.status kv.2 = abandoned ∧ Ludo.createdAt kv.2 < fiveMinutesAgo))
       (ludoGames w))
    (filter (fun kv => ¬ (Ttt.status kv.2 = abandoned ∧ Ttt.createdAt kv.2 < fiveMinutesAgo))
       (ticTacToeGames w))
    (filter (fun kv => ¬ (Uno.status kv.2 = abandoned ∧ Uno.createdAt kv.2 < fiveMinutesAgo))
       (unoGames w))
    (timers w) (activeConnections w) (homepageConnections w) (authenticatedConnections w).

(** ** Session bridge *)

Module Bridge.

(** What [sessionStore.get(sid, callback)] hands to its callback. *)
Inductive Lookup :=
  | StoreError
  | NoSession
  | Session (user : option User).

(** How the middleware ends: [next()], [next(new Error(reason))], or an
    exception that leaves it without calling [next]. *)
Inductive Admission :=
  | Granted (username role : string)
  | Refused (reason : string)
  | Raised.

(** [cookies[name] = value] on the plain object [cookies], held as the map
    of its own properties: the name [__proto__] reaches the setter of
    [Object.prototype], which ignores a string, so that nothing is stored. *)
Definition set_property (cookies : gmap string string) (name value : string)
    : gmap string string :=
  if String.eqb name "__proto__" then cookies else <[name := value]> cookies.

(** The "simple cookie parser" of the middleware. *)
Definition parse_cookies (cookieHeader : string) : gmap string string :=
  fold_left
    (fun cookies c =>
       match Js.split "=" c with
       | k :: v :: _ => set_property cookies (Js.trim k) v
       | _ => cookies
       end)
    (Js.split ";" cookieHeader) ∅.

(** [sidCookie.substring(2).split('.')[0]]. *)
Definition session_id (sidCookie : string) : string :=
  match Js.split "." (String.substring 2 (String.length sidCookie - 2) sidCookie) with
  | x :: _ => x
  | [] => ""
  end.

Section Middleware.

(** The built-in of the runtime; [None] is a thrown [URIError]. *)
Variable decodeURIComponent : string -> option string.
(** The session store as the middleware sees it. *)
Variable sessionStore_get : string -> Lookup.

(** [io.use((socket, next) => ...)]. *)
Definition middleware (cookieHeader : option string) : Admission :=
  match cookieHeader with
  | None => Refused "Authentication required: No cookies found"
  | Some header =>
      if String.eqb header ""
      then Refused "Authentication required: No cookies found"
      else
        match parse_cookies header !! "sid" with
        | None => Refused "Authentication required: Session cookie missing"
        | Some raw =>
            if String.eqb raw ""
            then Refused "Authentication required: Session cookie missing"
            else
              match decodeURIComponent raw with
              | None => Raised
              | Some sidCookie =>
                  if negb (String.prefix "s:" sidCookie)
                  then Refused "Authentication required: Invalid session cookie format"
                  else
                    let sid := session_id sidCookie in
                    if String.eqb sid ""
                    then Refused "Authentication required: Invalid session ID"
                    else
                      match sessionStore_get sid with
                      | Session (Some u) => Granted (username u) (role u)
                      | _ => Refused "Authentication required: Session not found or expired"
                      end
              end
        end
  end.

End Middleware.

(** The socket an admission leaves behind: [username] and [role] are the
    only fields the middleware writes. *)
Definition attach (socket_id : string) (referer : option string) (username role : string)
    : Socket :=
  mkSocket socket_id referer username role None.

(** A decoder for the examples: [%XX] escapes below [%80] are decoded,
    any other [%] is a [URIError]. *)
Definition hex_digit (c : ascii) : option nat :=
  let n := nat_of_ascii c in
  if ((48 <=? n) && (n <=? 57))%nat then Some (n - 48)%nat
  else if ((65 <=? n) && (n <=? 70))%nat then Some (n - 55)%nat
  else if ((97 <=? n) && (n <=? 102))%nat then Some (n - 87)%nat
  else None.

Fixpoint decode_ascii (s : string) : option string :=
  match s with
  | EmptyString => Some EmptyString
  | String "%" (String h (String l rest)) =>
      match hex_digit h, hex_digit l with
      | Some a, Some b =>
          if (a <? 8)%nat
          then option_map (String (ascii_of_nat (16 * a + b))) (decode_ascii rest)
          else None
      | _, _ => None
      end
  | String "%" _ => None
  | String c rest => option_map (String c) (decode_ascii rest)
  end.

End Bridge.

(** ** The two TTL caches *)

Module Cache.

Section WithData.

(** What the endpoints cache: rows read from the database. *)
Context {V : Type}.

Record Entry := mkEntry { data : V; timestamp : Z }.

(** A JS [Map] keeps its keys in insertion order. *)
Definition JsMap := list (string * Entry).

Fixpoint map_get (m : JsMap) (key : string) : option Entry :=
  match m with
  | [] => None
  | (k, e) :: m' => if String.eqb k key then Some e else map_get m' key
  end.

(** [Map.prototype.set]: a known key keeps its place. *)
Fixpoint map_set (m : JsMap) (key : string) (e : Entry) : JsMap :=
  match m with
  | [] => [(key, e)]
  | (k, e0) :: m' =>
      if String.eqb k key then (k, e) :: m' else (k, e0) :: map_set m' key e
  end.

Definition map_delete (m : JsMap) (key : string) : JsMap :=
  List.filter (fun kv => negb (String.eqb (fst kv) key)) m.

(** [m.delete(m.keys().next().value)]. *)
Definition delete_first (m : JsMap) : JsMap :=
  match m with
  | [] => []
  | (k, _) :: _ => map_delete m k
  end.

Record Caches := mkCaches { dataCache : JsMap; homepageCache : JsMap }.

Definition CACHE_DURATION : Z := 60000.
Definition HOMEPAGE_CACHE_DURATION : Z := 30000.

Definition read (ttl now : Z) (m : JsMap) (key : string) : option V :=
  match map_get m key with
  | Some cached => if now - timestamp cached <? ttl then Some (data cached) else None
  | None => None
  end.

(** [getCachedData]; [None] is [null]. The caches are returned as the
    function leaves them. *)
Definition getCachedData (now : Z) (key : string) (c : Caches) : option V * Caches :=
  (read CACHE_DURATION now (dataCache c) key, c).

(** [getHomepageCachedData]. *)
Definition getHomepageCachedData (now : Z) (key : string) (c : Caches)
    : option V * Caches :=
  (read HOMEPAGE_CACHE_DURATION now (homepageCache c) key, c).

Definition write (bound now : Z) (m : JsMap) (key : string) (d : V) : JsMap :=
  let m' := map_set m key (mkEntry d now) in
  if Js.len m' >? bound then delete_first m' else m'.

(** [setCachedData]. *)
Definition setCachedData (now : Z) (key : string) (d : V) (c : Caches) : Caches :=
  mkCaches (write 50 now (dataCache c) key d) (homepageCache c).

(** [setHomepageCachedData]. *)
Definition setHomepageCachedData (now : Z) (key : string) (d : V) (c : Caches) : Caches :=
  mkCaches (dataCache c) (write 20 now (homepageCache c) key d).

(** The cache half of [broadcastDataChange]. *)
Definition broadcastDataChange (type financialYear : string) (c : Caches) : Caches :=
  mkCaches
    (map_delete (map_delete (dataCache c) (type +:+ "-" +:+ financialYear))
       ("dashboard-overview-" +:+ financialYear))
    (map_delete (homepageCache c) ("public-" +:+ type +:+ "-" +:+ financialYear)).

(** The cache half of the [setInterval] callback. *)
Definition sweep_caches (now : Z) (c : Caches) : Caches :=
  mkCaches
    (List.filter (fun kv => negb (timestamp (snd kv) <? now - CACHE_DURATION)) (dataCache c))
    (List.filter (fun kv => negb (timestamp (snd kv) <? now - HOMEPAGE_CACHE_DURATION))
       (homepageCache c)).

(** The caches the server can hold: empty at start, then written only by
    the functions above. *)
Inductive reachable : Caches -> Prop :=
  | reach_start : reachable (mkCaches [] [])
  | reach_set now key d c : reachable c -> reachable (setCachedData now key d c)
  | reach_set_homepage now key d c :
      reachable c -> reachable (setHomepageCachedData now key d c)
  | reach_broadcast type fy c : reachable c -> reachable (broadcastDataChange type fy c)
  | reach_sweep now c : reachable c -> reachable (sweep_caches now c).

End WithData.

Arguments Entry : clear implicits.
Arguments JsMap : clear implicits.
Arguments Caches : clear implicits.

End Cache.

(** ** What can happen to the world *)

Inductive Event :=
  | ChessCreate (su : option User) (now : Z)
  | ChessJoin (su : option User) (gameId : string)
  | ChessMove (su : option User) (gameId from to : string) (now : Z)
  | LudoCreate (su : option User) (now : Z)
  | LudoJoin (su : option User) (gameId : string)
  | LudoStart (su : option User) (gameId : string) (playerCount : Js.Number)
      (addComputer : bool)
      (gameMode difficulty : option string)
  | LudoRoll (su : option User) (gameId : string) (rs : list nat)
  | LudoMove (socket_id : string) (referer : option string) (username role : string)
      (gameId : string) (pieceIndex diceRoll : Z)
  | TttCreate (su : option User) (now : Z)
  | TttJoin (su : option User) (gameId : string)
  | TttMove (su : option User) (gameId : string) (position : Z)
  | UnoCreate (su : option User) (now : Z)
  | UnoJoin (su : option User) (gameId : string) (rs : list nat)
  | UnoPlayCard (su : option User) (gameId : string) (cardIndex : Z)
      (chosenColor : option string)
  | UnoDrawCard (su : option User) (gameId : string) (rs : list nat)
  | Connect (socket_id : string) (referer : option string) (username role : string)
  | Disconnected (socket_id : string) (referer : option string) (username role : string)
  | TimerFires (k : nat)
  | Sweep (now : Z).

(** The world after an event. Sockets are those the session bridge admits.
    When a listener ends the process, everything held in memory is lost:
    the world after is the empty one, which is also what a restarted
    process begins with. *)
Definition apply (e : Event) (w : World) : World :=
  match e with
  | ChessCreate su now => world (chess_create su now w)
  | ChessJoin su gameId => world (chess_join su gameId w)
  | ChessMove su gameId from to now => world (chess_move su gameId from to now w)
  | LudoCreate su now => world (ludo_create su now w)
  | LudoJoin su gameId => world (ludo_join su gameId w)
  | LudoStart su gameId playerCount addComputer gameMode difficulty =>
      world (ludo_start su gameId playerCount addComputer gameMode difficulty w)
  | LudoRoll su gameId rs => world (ludo_roll su gameId rs w)
  | LudoMove sid ref u r gameId pieceIndex diceRoll =>
      match ludo_move (Bridge.attach sid ref u r) gameId pieceIndex diceRoll w with
      | Some (w', _) => w'
      | None => empty_world
      end
  | TttCreate su now => world (tictactoe_create su now w)
  | TttJoin su gameId => world (tictactoe_join su gameId w)
  | TttMove su gameId position => world (tictactoe_move su gameId position w)
  | UnoCreate su now => world (uno_create su now w)
  | UnoJoin su gameId rs => world (uno_join su gameId rs w)
  | UnoPlayCard su gameId cardIndex chosenColor =>
      world (uno_play_card su gameId cardIndex chosenColor w)
  | UnoDrawCard su gameId rs => world (uno_draw_card su gameId rs w)
  | Connect sid ref u r => conn_world (on_connection (Bridge.attach sid ref u r) w)
  | Disconnected sid ref u r => on_disconnect (Bridge.attach sid ref u r) w
  | TimerFires k => fire k w
  | Sweep now => sweep_games now w
  end.

Definition run (es : list Event) (w : World) : World :=
  fold_left (fun w e => apply e w) es w.

Inductive reachable : World -> Prop :=
  | reach_empty : reachable empty_world
  | reach_step e w : reachable w -> reachable (apply e w).

(** ** What the properties are stated with *)

(** The four containers. *)
Inductive Variant := VChess | VLudo | VTtt | VUno.

(** The variant whose create endpoint the event is. *)
Definition creates (e : Event) : option Variant :=
  match e with
  | ChessCreate _ _ => Some VChess
  | LudoCreate _ _ => Some VLudo
  | TttCreate _ _ => Some VTtt
  | UnoCreate _ _ => Some VUno
  | _ => None
  end.

(** The two endpoints that write [status = 'playing'] without reading the
    status: race start and card join. *)
Definition restarts (e : Event) : option Variant :=
  match e with
  | LudoStart _ _ _ _ _ _ => Some VLudo
  | UnoJoin _ _ _ => Some VUno
  | _ => None
  end.

(** The match a request is about: the variant of its endpoint and the id
    it names, which for a create is the id built from the time of the
    request. The channel events, the deferred tasks and the sweep name no
    match. *)
Definition target (e : Event) : option (Variant * string) :=
  match e with
  | ChessCreate _ now => Some (VChess, Js.toString now)
  | ChessJoin _ gameId | ChessMove _ gameId _ _ _ => Some (VChess, gameId)
  | LudoCreate _ now => Some (VLudo, "ludo_" +:+ Js.toString now)
  | LudoJoin _ gameId | LudoStart _ gameId _ _ _ _ | LudoRoll _ gameId _
  | LudoMove _ _ _ _ gameId _ _ => Some (VLudo, gameId)
  | TttCreate _ now => Some (VTtt, "ttt_" +:+ Js.toString now)
  | TttJoin _ gameId | TttMove _ gameId _ => Some (VTtt, gameId)
  | UnoCreate _ now => Some (VUno, "uno_" +:+ Js.toString now)
  | UnoJoin _ gameId _ | UnoPlayCard _ gameId _ _ | UnoDrawCard _ gameId _ =>
      Some (VUno, gameId)
  | Connect _ _ _ _ | Disconnected _ _ _ _ | TimerFires _ | Sweep _ => None
  end.

(** The status of the match stored under an id of a variant, if one is. *)
Definition status_at (v : Variant) (id : string) (w : World) : option Status :=
  match v with
  | VChess => Chess.status <$> chessGames w !! id
  | VLudo => Ludo.status <$> ludoGames w !! id
  | VTtt => Ttt.status <$> ticTacToeGames w !! id
  | VUno => Uno.status <$> unoGames w !! id
  end.

(** The events that build or deal a card match. *)
Definition deals (e : Event) : bool :=
  match e with
  | UnoCreate _ _ | UnoJoin _ _ _ => true
  | _ => false
  end.

(** The status graph of the specification: a status stays, or moves along
    waiting -> playing -> finished | draw | abandoned, waiting -> abandoned,
    or back from abandoned to playing. *)
Definition graph (s s' : Status) : Prop :=
  s' = s
  \/ (s = waiting /\ (s' = playing \/ s' = abandoned))
  \/ (s = playing /\ (s' = finished \/ s' = draw \/ s' = abandoned))
  \/ (s = abandoned /\ s' = playing).

(** What an event may do to the status stored under one id of a variant:
    follow the graph, store a new match in waiting (create), or write
    playing whatever was there (race start, card join). *)
Definition moves_on (e : Event) (v : Variant) (s s' : Status) : Prop :=
  graph s s' \/ (creates e = Some v /\ s' = waiting) \/ (restarts e = Some v /\ s' = playing).

(** How many wild cards a pile holds. *)
Definition wilds (d : list Uno.Card) : nat := length (List.filter Uno.is_wild d).

(** Invariant of a card match. *)
Definition uno_ok (g : Uno.Game) : Prop :=
  0 <= Uno.currentPlayerIndex g < Js.len (Uno.players g)
  /\ (Uno.direction g = 1 \/ Uno.direction g = -1)
  /\ Uno.maxPlayers g = 4
  /\ Js.len (Uno.players g) <= 4
  /\ Forall (eq None) (map Uno.socketId (Uno.players g))
  /\ match Uno.status g with
     | waiting => Uno.deck g = [] /\ Uno.discardPile g = [] /\ Uno.in_hands (Uno.players g) = 0
     | playing | finished => 100 <= Uno.total g <= 108
     | _ => False
     end.

(** The same card match up to cards moving from the deck to hands and the
    turn moving. *)
Definition uno_frame (g g' : Uno.Game) : Prop :=
  Uno.status g' = Uno.status g
  /\ Uno.maxPlayers g' = Uno.maxPlayers g
  /\ Js.len (Uno.players g') = Js.len (Uno.players g)
  /\ map Uno.socketId (Uno.players g') = map Uno.socketId (Uno.players g)
  /\ Uno.discardPile g' = Uno.discardPile g
  /\ Uno.total g' = Uno.total g
  /\ (Uno.direction g' = 1 \/ Uno.direction g' = -1)
  /\ 0 <= Uno.currentPlayerIndex g' < Js.len (Uno.players g').

(** Invariant of a grid match. *)
Definition ttt_ok (g : Ttt.Game) : Prop :=
  Forall (eq None) (map Ttt.socketId (Ttt.players g))
  /\ match Ttt.status g with
     | waiting =>
         (exists p, Ttt.players g = [p] /\ Ttt.symbol p = "X")
         /\ ((Ttt.currentPlayer g = "X" /\ Ttt.board g = repeat "" 9)
             \/ Ttt.currentPlayer g = "O")
     | playing => 2 <= Js.len (Ttt.players g)
     | finished =>
         2 <= Js.len (Ttt.players g) /\ Ttt.checkTicTacToeWinner (Ttt.board g) <> None
     | draw =>
         2 <= Js.len (Ttt.players g)
         /\ forallb (fun cell => negb (String.eqb cell "")) (Ttt.board g) = true
     | abandoned => False
     end.

(** Invariant of a chess match. *)
Definition chess_ok (g : Chess.Game) : Prop :=
  (Chess.status g = waiting /\ Js.len (Chess.players g) = 1)
  \/ (Chess.status g = playing /\ 2 <= Js.len (Chess.players g)).

(** Invariant of a race match. *)
Definition ludo_ok (g : Ludo.Game) : Prop :=
  Forall (eq None) (map Ludo.socketId (Ludo.players g))
  /\ (Ludo.status g = waiting \/ Ludo.status g = playing \/ Ludo.status g = finished).

Definition world_ok (w : World) : Prop :=
  map_Forall (fun _ g => chess_ok g) (chessGames w)
  /\ map_Forall (fun _ g => ludo_ok g) (ludoGames w)
  /\ map_Forall (fun _ g => ttt_ok g) (ticTacToeGames w)
  /\ map_Forall (fun _ g => uno_ok g) (unoGames w).

(** What one event does, seen from the world before it. *)
Definition step_ok (e : Event) (w w' : World) : Prop :=
  world_ok w'
  /\ (forall id g g', chessGames w !! id = Some g -> chessGames w' !! id = Some g' ->
        moves_on e VChess (Chess.status g) (Chess.status g'))
  /\ (forall id g g', ludoGames w !! id = Some g -> ludoGames w' !! id = Some g' ->
        moves_on e VLudo (Ludo.status g) (Ludo.status g'))
  /\ (forall id g g', ticTacToeGames w !! id = Some g -> ticTacToeGames w' !! id = Some g' ->
        moves_on e VTtt (Ttt.status g) (Ttt.status g'))
  /\ (forall id g g', unoGames w !! id = Some g -> unoGames w' !! id = Some g' ->
        moves_on e VUno (Uno.status g) (Uno.status g')
        /\ (deals e = false -> Uno.total g' = Uno.total g)).

(** An action endpoint answered as it should: a refusal leaves the world
    as it was and emits nothing; a success emits one event, to the gaming
    room, carrying the match as the container now holds it. *)
Definition answered_cleanly (w : World) (gameId : string)
    (stored : World -> option AnyGame) (r : Result) : Prop :=
  match response r with
  | Success body =>
      (exists ev, emitted r = [mkBroadcast "gaming-room" ev gameId body])
      /\ stored (world r) = Some body
  | Failure _ _ | ServerError => world r = w /\ emitted r = []
  end.

(** A request turned down with a code and a message: the world is left as
    it was and nothing is emitted. *)
Definition turned_down (w : World) (code : Z) (message : string) (r : Result) : Prop :=
  r = mkResult (Failure code message) w [].

(** The color chess move plays for a user: white for the one in the first
    seat, black for anyone else. *)
Definition plays (g : Chess.Game) (username : string) : string :=
  match Chess.players g with
  | first :: _ => if decide (first = username) then "white" else "black"
  | [] => "black"
  end.

(** *** Players, draws and traces of the examples *)

Definition alice : option User := Some (mkUser "alice" "gamer").
Definition bob : option User := Some (mkUser "bob" "gamer").

(** Draws under which [shuffleArray] swaps every card with itself. *)
Definition still_draws : list nat := rev (seq 1 107).

(** Draws whose first swap brings the last card, a wild, to index 93. *)
Definition wild_on_top_draws : list nat := 93%nat :: rev (seq 1 106).

(** Alice opens a card match, Bob joins and the cards are dealt. *)
Definition dealt (rs : list nat) : World :=
  run [UnoCreate alice 1000; UnoJoin bob "uno_1000" rs] empty_world.

(** Then both draw in turn until the deck is empty; it is Bob's turn. *)
Definition deck_drawn_out : World :=
  run (flat_map (fun _ => [UnoDrawCard alice "uno_1000" []; UnoDrawCard bob "uno_1000" []])
         (seq 0 46)
       ++ [UnoDrawCard alice "uno_1000" []])
      (dealt still_draws).

(** Alice opens a race match, Bob joins, the match is started, and Alice,
    who keeps the turn with every 6, brings her four pieces from home to the
    goal: eleven moves of 6 for each piece. *)
Definition race_won : World :=
  run ([LudoCreate alice 1000; LudoJoin bob "ludo_1000";
        LudoStart alice "ludo_1000" (Js.num 2) false None None]
       ++ flat_map
            (fun pieceIndex =>
               repeat (LudoMove "sock-1" None "alice" "gamer" "ludo_1000" pieceIndex 6) 11)
            [0; 1; 2; 3])
      empty_world.

(** Alice opens one match of each variant; Bob joins the grid and card
    matches; Alice's channel connection is up. *)
Definition alice_everywhere : World :=
  run [ChessCreate alice 1000; LudoCreate alice 1000; TttCreate alice 1000;
       UnoCreate alice 1000; TttJoin bob "ttt_1000"; UnoJoin bob "uno_1000" still_draws;
       Connect "sock-1" None "alice" "gamer"]
      empty_world.

(** The match stored under an id, for the examples. *)
Definition the_ludo (w : World) (id : string) : Ludo.Game :=
  default (Ludo.newGame "" 0) (ludoGames w !! id).
Definition the_ttt (w : World) (id : string) : Ttt.Game :=
  default (Ttt.newGame "" 0) (ticTacToeGames w !! id).
Definition the_uno (w : World) (id : string) : Uno.Game :=
  default (Uno.newGame "" 0) (unoGames w !! id).

(** A card match in play whose deck is used up. *)
Definition on_empty_deck : Uno.Game :=
  Uno.mkGame "uno_1000"
    [Uno.mkPlayer "alice" [Uno.mkCard "red" "draw2" "special"; Uno.mkCard "blue" "7" "number"]
       false None;
     Uno.mkPlayer "bob" [Uno.mkCard "green" "1" "number"] false None]
    4 []
    [Uno.mkCard "red" "3" "number"; Uno.mkCard "red" "5" "number";
     Uno.mkCard "red" "9" "number"]
    0 "red" "9" 1 playing None 1000.

(** The same with nothing under the top card of the discard pile. *)
Definition on_bare_table : Uno.Game :=
  Uno.set_discardPile on_empty_deck [Uno.mkCard "red" "9" "number"].

(** A server at its ceiling. *)
Definition crowded : World := mkWorld ∅ ∅ ∅ ∅ [] 300 150 150.

(** The reasons the session bridge refuses a connection with. *)
Definition refusals : list string :=
  ["Authentication required: No cookies found";
   "Authentication required: Session cookie missing";
   "Authentication required: Invalid session cookie format";
   "Authentication required: Invalid session ID";
   "Authentication required: Session not found or expired"].

(** * What the further properties are stated with *)

(** ** Where a stored match comes from *)

(** After one event, the match stored under an id is the one that was
    there, a new one, or what an endpoint made of the one that was there. *)
Definition chess_origin (w : World) (id : string) (g' : Chess.Game) : Prop :=
  chessGames w !! id = Some g'
  \/ (exists u now, g' = Chess.newGame u now)
  \/ (exists g u ev, chessGames w !! id = Some g /\ Chess.join u g = Accepted g' ev)
  \/ (exists g u from to now ev,
        chessGames w !! id = Some g /\ Chess.move u from to now g = Accepted g' ev).

Definition ludo_origin (w : World) (id : string) (g' : Ludo.Game) : Prop :=
  ludoGames w !! id = Some g'
  \/ (exists u now, g' = Ludo.newGame u now)
  \/ (exists g u ev, ludoGames w !! id = Some g /\ Ludo.join u g = Accepted g' ev)
  \/ (exists g playerCount addComputer gameMode difficulty ev,
        ludoGames w !! id = Some g
        /\ Ludo.start playerCount addComputer gameMode difficulty g = Accepted g' ev)
  \/ (exists g rs u ev, ludoGames w !! id = Some g /\ fst (Ludo.roll rs u g) = Accepted g' ev)
  \/ (exists g u pieceIndex diceRoll ev,
        ludoGames w !! id = Some g
        /\ Ludo.socket_move u pieceIndex diceRoll g = Accepted g' ev)
  \/ (exists g rolledIndex diceRoll,
        ludoGames w !! id = Some g /\ g' = Ludo.auto_advance rolledIndex diceRoll g).

Definition ttt_origin (w : World) (id : string) (g' : Ttt.Game) : Prop :=
  ticTacToeGames w !! id = Some g'
  \/ (exists u now, g' = Ttt.newGame u now)
  \/ (exists g u ev, ticTacToeGames w !! id = Some g /\ Ttt.join u g = Accepted g' ev)
  \/ (exists g u position ev,
        ticTacToeGames w !! id = Some g /\ Ttt.move u position g = Accepted g' ev).

Definition uno_origin (w : World) (id : string) (g' : Uno.Game) : Prop :=
  unoGames w !! id = Some g'
  \/ (exists u now, g' = Uno.newGame u now)
  \/ (exists g rs u ev, unoGames w !! id = Some g /\ Uno.join rs u g = Accepted g' ev)
  \/ (exists g u cardIndex chosenColor ev,
        unoGames w !! id = Some g
        /\ Uno.play_card u cardIndex chosenColor g = Accepted g' ev)
  \/ (exists g rs u ev, unoGames w !! id = Some g /\ Uno.draw_card rs u g = Accepted g' ev).

Definition origins (w w' : World) : Prop :=
  (forall id g', chessGames w' !! id = Some g' -> chess_origin w id g')
  /\ (forall id g', ludoGames w' !! id = Some g' -> ludo_origin w id g')
  /\ (forall id g', ticTacToeGames w' !! id = Some g' -> ttt_origin w id g')
  /\ (forall id g', unoGames w' !! id = Some g' -> uno_origin w id g').

(** The match an endpoint wrote, [dflt] when it refused or threw. *)
Definition written {G} (dflt : G) (o : Outcome G) : G :=
  match o with
  | Accepted g _ => g
  | _ => dflt
  end.

(** ** The cards of a card match *)

(** Every card a card match holds: the deck, the discard pile, then the
    hands in seat order. *)
Definition cards_in_play (g : Uno.Game) : list Uno.Card :=
  Uno.deck g ++ Uno.discardPile g ++ flat_map Uno.hand (Uno.players g).

(** The color and number in force are those of the top of the discard
    pile, a wild card leaving the color to the player's choice. *)
Definition top_in_force (g : Uno.Game) : Prop :=
  match last (Uno.discardPile g) with
  | Some top =>
      Uno.currentNumber g = Uno.value top
      /\ (Uno.is_wild top = false -> Uno.currentColor g = Uno.color top)
  | None => Uno.status g = waiting
  end.

(** The card match of [dealt still_draws]: Alice holds seven wild cards,
    Bob one wild card and the yellow special cards; a green draw2 is up. *)
Definition opening : Uno.Game := the_uno (dealt still_draws) "uno_1000".

(** Alice opens with a wild4 and calls yellow; Bob draws four cards. *)
Definition wild4_played : World :=
  run [UnoPlayCard alice "uno_1000" 0 (Some "yellow")] (dealt still_draws).

(** ** The grid *)

(** How many cells of a board hold the mark [s]. *)
Definition marks (s : string) (board : list string) : nat :=
  length (List.filter (String.eqb s) board).

(** What the status of a grid match says about its players and its board. *)
Definition grid_sound (g : Ttt.Game) : Prop :=
  (map Ttt.symbol (Ttt.players g) = ["X"] \/ map Ttt.symbol (Ttt.players g) = ["X"; "O"])
  /\ NoDup (map Ttt.name (Ttt.players g))
  /\ length (Ttt.board g) = 9%nat
  /\ Forall (fun cell => cell = "" \/ cell = "X" \/ cell = "O") (Ttt.board g)
  /\ (Ttt.currentPlayer g = "X" \/ Ttt.currentPlayer g = "O")
  /\ match Ttt.status g with
     | waiting | playing =>
         Ttt.checkTicTacToeWinner (Ttt.board g) = None
         /\ In "" (Ttt.board g)
         /\ marks "X" (Ttt.board g)
            = (marks "O" (Ttt.board g)
               + if String.eqb (Ttt.currentPlayer g) "O" then 1 else 0)%nat
     | finished =>
         Ttt.winner g = Some (Ttt.currentPlayer g)
         /\ Ttt.checkTicTacToeWinner (Ttt.board g) = Some (Ttt.currentPlayer g)
         /\ forall p x, In p Ttt.winPatterns -> Ttt.line_won (Ttt.board g) p = Some x ->
                        x = Ttt.currentPlayer g
     | draw =>
         Ttt.checkTicTacToeWinner (Ttt.board g) = None /\ ~ In "" (Ttt.board g)
     | abandoned => False
     end.

(** Alice opens a grid match, Bob joins, and they fill the board without a
    line: X O X / X O O / O X X. *)
Definition grid_drawn : World :=
  run [TttCreate alice 1000; TttJoin bob "ttt_1000";
       TttMove alice "ttt_1000" 0; TttMove bob "ttt_1000" 1;
       TttMove alice "ttt_1000" 2; TttMove bob "ttt_1000" 4;
       TttMove alice "ttt_1000" 3; TttMove bob "ttt_1000" 5;
       TttMove alice "ttt_1000" 7; TttMove bob "ttt_1000" 6;
       TttMove alice "ttt_1000" 8] empty_world.

(** ** The chess board *)

(** [board[r][c]]: the piece on a square; [None] when the square is empty
    or there is no such square. *)
Definition square (board : list (list (option string))) (r c : Z) : option string :=
  match Js.nth board r with
  | Some row => match Js.nth row c with Some p => p | None => None end
  | None => None
  end.

(** Eight rows of eight squares. *)
Definition eight_by_eight (board : list (list (option string))) : Prop :=
  length board = 8%nat /\ Forall (fun row => length row = 8%nat) board.

(** What holds of a chess match at any time. *)
Definition chess_sound (g : Chess.Game) : Prop :=
  eight_by_eight (Chess.board g)
  /\ NoDup (Chess.players g)
  /\ (Chess.status g = waiting /\ length (Chess.players g) = 1%nat
      \/ Chess.status g = playing /\ length (Chess.players g) = 2%nat)
  /\ Chess.winner g = None
  /\ Chess.turn g = (if Nat.even (length (Chess.moves g)) then "white" else "black")
  /\ forall k m, Chess.moves g !! k = Some m ->
                 Chess.players g !! (k mod 2)%nat = Some (Chess.player m).

(** Alice opens a chess match, Bob joins, and each moves a pawn. *)
Definition chess_opened : World :=
  run [ChessCreate alice 1000; ChessJoin bob "1000";
       ChessMove alice "1000" "e1" "e3" 2000; ChessMove bob "1000" "e6" "e4" 3000]
      empty_world.

Definition the_chess (w : World) (id : string) : Chess.Game :=
  default (Chess.newGame "" 0) (chessGames w !! id).

(** ** The race *)

(** What holds of a race match at any time. The number of players has no
    upper bound and [maxPlayers] need not be a number: start stores
    whatever [Math.min(Math.max(playerCount, 2), 8)] is, and join compares
    with it. *)
Definition race_sound (g : Ludo.Game) : Prop :=
  1 <= Js.len (Ludo.players g)
  /\ 0 <= Ludo.currentPlayerIndex g < Js.len (Ludo.players g)
  /\ (forall q, Ludo.maxPlayers g = Some q -> (inject_Z 2 <= q <= inject_Z 8)%Q)
  /\ Forall (fun p => map Ludo.id (Ludo.pieces p) = [0; 1; 2; 3]
                      /\ Forall (fun piece => Ludo.position piece <= 56) (Ludo.pieces p)
                      /\ 0 <= Ludo.piecesInGoal p)
       (Ludo.players g)
  /\ (if Ludo.diceRolled g
      then exists d, Ludo.lastDiceRoll g = Some d /\ 1 <= d <= 6
      else Ludo.lastDiceRoll g = None).

(** A race match in play: Alice has brought her first piece to the goal
    and has the turn. *)
Definition one_piece_home : Ludo.Game :=
  Ludo.mkGame "ludo_1000"
    [Ludo.mkPlayer "alice" false None
       [Ludo.mkPiece 56 0; Ludo.mkPiece (-1) 1; Ludo.mkPiece (-1) 2; Ludo.mkPiece (-1) 3]
       1 None;
     Ludo.mkPlayer "bob" false None Ludo.homePieces 0 None]
    (Js.num 2) playing 0 false None (Some Ludo.initializeLudoBoard) (Some "multi") None
    1000.

(** Alice opens a race match, Bob joins, the match is started and Alice
    rolls. *)
Definition race_rolled : World :=
  run [LudoCreate alice 1000; LudoJoin bob "ludo_1000";
       LudoStart alice "ludo_1000" (Js.num 2) false None None; LudoRoll alice "ludo_1000" [4%nat]]
      empty_world.

(** Alice opens a race match and starts it with no [playerCount] in the
    body; then eight more gamers join. *)
Definition race_without_bound : World :=
  run (LudoCreate alice 1000 :: LudoStart alice "ludo_1000" None false None None
       :: map (fun n => LudoJoin (Some (mkUser n "gamer")) "ludo_1000")
            ["bob"; "carol"; "dave"; "erin"; "frank"; "grace"; "heidi"; "ivan"])
      empty_world.

(** ** The world as a whole *)

(** The connection counters add up and respect the ceiling. *)
Definition counters_sound (w : World) : Prop :=
  activeConnections w = homepageConnections w + authenticatedConnections w
  /\ activeConnections w <= maxConnections.



(** The event is a [ludo-move] message whose listener throws: nothing
    catches the exception, the process exits and with it every match in
    memory is gone. *)
Definition ends_process (e : Event) (w : World) : bool :=
  match e with
  | LudoMove socketId referer username role gameId pieceIndex diceRoll =>
      match ludo_move (Bridge.attach socketId referer username role)
              gameId pieceIndex diceRoll w with
      | None => true
      | Some _ => false
      end
  | _ => false
  end.


(** What [requireAuth] and the role test answer to a caller the gaming
    endpoints turn away; [None] for a gamer. *)
Definition denial (su : option User) : option Response :=
  match su with
  | None => Some (Failure 401 "Session expired or not authenticated")
  | Some u =>
      if String.eqb (role u) "gamer" then None
      else Some (Failure 403 "Gaming access required")
  end.

(** Carol is logged in, but not as a gamer. *)
Definition carol : option User := Some (mkUser "carol" "admin").

(** ** Cookies *)

(** The string holds no occurrence of the character. *)
Fixpoint free_of (c : ascii) (s : string) : bool :=
  match s with
  | EmptyString => true
  | String x s' => negb (Ascii.eqb x c) && free_of c s'
  end.

(** A cookie header as a client writes it: [name=value] pairs separated
    by semicolons. *)
Fixpoint cookie_header (kvs : list (string * string)) : string :=
  match kvs with
  | [] => ""
  | [(k, v)] => k +:+ "=" +:+ v
  | (k, v) :: rest => k +:+ "=" +:+ v +:+ ";" +:+ cookie_header rest
  end.

(** A name or value that can stand in such a header. *)
Definition plain (s : string) : bool := free_of ";" s && free_of "=" s.

(** * Properties *)

(** ** Arrays *)

Lemma pop_None {A} (l : list A) : Js.pop l = None -> l = [].
Proof.
  unfold Js.pop. destruct (rev l) eqn:E; [|discriminate].
  intros _. apply (f_equal (@rev A)) in E. rewrite rev_involutive in E. exact E.
Qed.

Lemma pop_Some {A} (l l' : list A) x : Js.pop l = Some (x, l') -> l = l' ++ [x].
Proof.
  unfold Js.pop. destruct (rev l) eqn:E; [discriminate|].
  intros [= <- <-]. apply (f_equal (@rev A)) in E. rewrite rev_involutive in E.
  exact E.
Qed.

Lemma pop_snoc {A} (l : list A) x : Js.pop (l ++ [x]) = Some (x, l).
Proof. unfold Js.pop. rewrite rev_app_distr. simpl. by rewrite rev_involutive. Qed.

Lemma pop_cases {A} (l : list A) :
  (l = [] /\ Js.pop l = None) \/ (exists l' x, l = l' ++ [x] /\ Js.pop l = Some (x, l')).
Proof.
  destruct (Js.pop l) as [[x l']|] eqn:E.
  - right. exists l', x. split; [by apply pop_Some|done].
  - left. split; [by apply pop_None|done].
Qed.

Lemma cons_insert_perm {A} (t : list A) j x y :
  t !! j = Some y -> y :: <[j := x]> t ≡ₚ x :: t.
Proof.
  revert j. induction t as [|a t IH]; intros [|j] H; simplify_eq/=.
  - apply perm_swap.
  - rewrite (perm_swap a y). rewrite (IH _ H). apply perm_swap.
Qed.

Lemma swap_lt_perm {A} (l : list A) i j x y :
  (i < j)%nat -> l !! i = Some x -> l !! j = Some y -> <[j := x]> (<[i := y]> l) ≡ₚ l.
Proof.
  revert i j. induction l as [|a l IH]; intros [|i] [|j] Hlt Hi Hj; simplify_eq/=; try lia.
  - by apply cons_insert_perm.
  - f_equiv. apply IH; [lia|done..].
Qed.

Lemma swap_perm {A} (l : list A) i j : Js.swap l i j ≡ₚ l.
Proof.
  unfold Js.swap. destruct (l !! i) as [x|] eqn:Hi; [|done].
  destruct (l !! j) as [y|] eqn:Hj; [|done].
  destruct (lt_eq_lt_dec i j) as [[Hlt | ->] | Hlt].
  - by apply swap_lt_perm.
  - simplify_eq. rewrite list_insert_insert_eq. by rewrite list_insert_id.
  - rewrite list_insert_insert_ne by lia. by apply swap_lt_perm.
Qed.

Lemma shuffle_from_perm {A} i rs (l : list A) : Uno.shuffle_from i rs l ≡ₚ l.
Proof.
  revert rs l. induction i as [|i IH]; intros rs l; simpl; [done|].
  rewrite IH. apply swap_perm.
Qed.

Lemma shuffleArray_perm {A} rs (l : list A) : Uno.shuffleArray rs l ≡ₚ l.
Proof. apply shuffle_from_perm. Qed.

(** Dealing and seeding *)

Lemma draw_n_spec n d h h' d' :
  Uno.draw_n n d h = Some (h', d') ->
  exists t, length t = n /\ d = d' ++ rev t /\ h' = h ++ t.
Proof.
  revert d h. induction n as [|n IH]; intros d h H; simpl in H.
  - simplify_eq. exists []. by rewrite !app_nil_r.
  - destruct (Js.pop d) as [[c d1]|] eqn:E; [|done].
    apply pop_Some in E. destruct (IH _ _ H) as (t & Hl & Hd & Hh).
    exists (c :: t). simpl. rewrite Hl. split; [done|]. split.
    + rewrite E, Hd. by rewrite <- !app_assoc.
    + rewrite Hh. by rewrite <- app_assoc.
Qed.

Lemma draw_n_enough n d h : (n <= length d)%nat -> is_Some (Uno.draw_n n d h).
Proof.
  revert d h. induction n as [|n IH]; intros d h Hle; simpl; [by eexists|].
  destruct (pop_cases d) as [[-> _]|(d1 & x & -> & ->)]; [simpl in Hle; lia|].
  apply IH. rewrite length_app in Hle. simpl in Hle. lia.
Qed.

Lemma deal_spec ps d qs d' :
  Uno.deal ps d = Some (qs, d') ->
  exists t, length t = (7 * length ps)%nat /\ d = d' ++ t
            /\ Uno.in_hands qs = 7 * Js.len ps
            /\ map Uno.name qs = map Uno.name ps
            /\ map Uno.socketId qs = map Uno.socketId ps.
Proof.
  revert d qs d'. induction ps as [|p ps IH]; intros d qs d' H; cbn [Uno.deal] in H.
  - simplify_eq. exists []. by rewrite app_nil_r.
  - destruct (Uno.draw_n 7 d []) as [[h d1]|] eqn:E; [|done].
    destruct (Uno.deal ps d1) as [[qs1 d2]|] eqn:E2; [|done]. simplify_eq.
    apply draw_n_spec in E as (t & Hl & -> & ->).
    destruct (IH _ _ _ E2) as (t2 & Hl2 & -> & Hh & Hn & Hs).
    exists (t2 ++ rev t). rewrite length_app, length_rev, Hl, Hl2.
    split; [simpl; lia|]. split; [by rewrite <- app_assoc|].
    simpl. rewrite Hh, Hn, Hs. unfold Js.len. simpl. rewrite Hl.
    split; [lia|done].
Qed.

Lemma deal_enough ps d : (7 * length ps <= length d)%nat -> is_Some (Uno.deal ps d).
Proof.
  revert d. induction ps as [|p ps IH]; intros d Hle; cbn [Uno.deal]; [by eexists|].
  destruct (draw_n_enough 7 d []) as [[h d1] E]; [simpl in Hle; lia|]. rewrite E.
  destruct (draw_n_spec _ _ _ _ _ E) as (t & Hl & Hd & _).
  destruct (IH d1) as [[qs d2] E2].
  { rewrite Hd, length_app, length_rev, Hl in Hle. simpl in Hle. lia. }
  rewrite E2. by eexists.
Qed.

Lemma wilds_app d1 d2 : wilds (d1 ++ d2) = (wilds d1 + wilds d2)%nat.
Proof. unfold wilds. by rewrite List.filter_app, length_app. Qed.

Lemma wilds_perm d1 d2 : d1 ≡ₚ d2 -> wilds d1 = wilds d2.
Proof.
  unfold wilds. induction 1; simpl; try congruence.
  - destruct (Uno.is_wild x); simpl; congruence.
  - destruct (Uno.is_wild x), (Uno.is_wild y); simpl; congruence.
Qed.

Lemma seed_spec r c r' :
  Uno.seed r = Some (c, r') ->
  r = Uno.leading_wilds r ++ c :: r' /\ Uno.is_wild c = false.
Proof.
  induction r as [|a r IH]; simpl; [done|].
  destruct (Uno.is_wild a) eqn:E; intros H.
  - destruct (IH H) as [Hr Hc]. split; [|done]. simpl. by rewrite <- Hr.
  - simplify_eq. done.
Qed.

Lemma seed_enough r : (wilds r < length r)%nat -> is_Some (Uno.seed r).
Proof.
  unfold wilds. induction r as [|a r IH]; simpl; [lia|].
  destruct (Uno.is_wild a) eqn:E; simpl; intros H; [apply IH; lia|by eexists].
Qed.

Lemma leading_wilds_le r : (length (Uno.leading_wilds r) <= wilds r)%nat.
Proof.
  unfold wilds. induction r as [|a r IH]; simpl; [lia|].
  destruct (Uno.is_wild a); simpl; lia.
Qed.

Lemma leading_wilds_wild r : Forall (fun c => Uno.is_wild c = true) (Uno.leading_wilds r).
Proof.
  induction r as [|a r IH]; simpl; [constructor|].
  destruct (Uno.is_wild a) eqn:E; by constructor.
Qed.

Lemma initialize_spec rs g :
  (length (Uno.players g) <= 14)%nat ->
  exists g', Uno.initializeUNOGame rs g = Some g'
    /\ Uno.total g' + Js.len (Uno.dropped_wilds rs (Uno.players g)) = 108
    /\ Js.len (Uno.dropped_wilds rs (Uno.players g)) <= 8
    /\ Uno.status g' = Uno.status g /\ Uno.maxPlayers g' = Uno.maxPlayers g
    /\ Uno.currentPlayerIndex g' = 0 /\ Uno.direction g' = 1
    /\ map Uno.name (Uno.players g') = map Uno.name (Uno.players g)
    /\ map Uno.socketId (Uno.players g') = map Uno.socketId (Uno.players g).
Proof.
  intros Hn. unfold Uno.initializeUNOGame, Uno.dropped_wilds.
  pose proof (shuffleArray_perm rs Uno.createUNODeck) as Hp.
  pose proof (Permutation_length Hp) as Hlen.
  pose proof (wilds_perm _ _ Hp) as Hw.
  change (length Uno.createUNODeck) with 108%nat in Hlen.
  change (wilds Uno.createUNODeck) with 8%nat in Hw.
  destruct (deal_enough (Uno.players g) (Uno.shuffleArray rs Uno.createUNODeck))
    as [[qs d] E]; [lia|]. rewrite E.
  destruct (deal_spec _ _ _ _ E) as (t & Hl & Hd & Hh & Hnm & Hs).
  rewrite Hd, length_app in Hlen. rewrite Hd, wilds_app in Hw.
  unfold Uno.place_first.
  assert (Hwr : wilds (rev d) = wilds d) by (apply wilds_perm; symmetry; apply Permutation_rev).
  destruct (seed_enough (rev d)) as [[c r] Es]; [rewrite length_rev; lia|]. rewrite Es.
  destruct (seed_spec _ _ _ Es) as [Hr Hc].
  pose proof (leading_wilds_le (rev d)) as Hlw.
  eexists. split; [done|]. unfold Uno.total, Js.len in *. simpl.
  apply (f_equal (@length _)) in Hr. rewrite length_rev, length_app in Hr. simpl in Hr.
  rewrite length_rev, Hh. repeat split; try done; lia.
Qed.

(** Card-game invariant *)

Lemma nth_Some {A} (l : list A) i x :
  Js.nth l i = Some x -> 0 <= i < Js.len l /\ l !! Z.to_nat i = Some x.
Proof.
  unfold Js.nth, Js.len. destruct (Z.ltb_spec i 0); [done|]. intros Hx. split; [|done].
  apply lookup_lt_Some in Hx. lia.
Qed.

Lemma nth_in_range {A} (l : list A) i :
  0 <= i < Js.len l -> exists x, Js.nth l i = Some x.
Proof.
  unfold Js.nth, Js.len. intros Hx. destruct (Z.ltb_spec i 0); [lia|].
  apply lookup_lt_is_Some_2. lia.
Qed.

Lemma nth_negative {A} (l : list A) i : i < 0 -> Js.nth l i = None.
Proof. unfold Js.nth. intros Hx. destruct (Z.ltb_spec i 0); [done|lia]. Qed.

Lemma in_hands_nonneg ps : 0 <= Uno.in_hands ps.
Proof. induction ps; simpl; unfold Js.len in *; lia. Qed.

Lemma in_hands_insert ps i p p' :
  ps !! i = Some p ->
  Uno.in_hands (<[i := p']> ps)
  = Uno.in_hands ps - Js.len (Uno.hand p) + Js.len (Uno.hand p').
Proof.
  revert i. induction ps as [|a ps IH]; intros [|i] H; simplify_eq/=; [lia|].
  rewrite (IH _ H). lia.
Qed.

Lemma in_hands_zero ps i p : Uno.in_hands ps = 0 -> ps !! i = Some p -> Uno.hand p = [].
Proof.
  revert i. induction ps as [|a ps IH]; intros [|i] Hz H; simplify_eq/=.
  - pose proof (in_hands_nonneg ps). destruct (Uno.hand p); [done|].
    unfold Js.len in Hz. simpl in Hz. lia.
  - pose proof (in_hands_nonneg ps). apply (IH i); [|done]. unfold Js.len in Hz. lia.
Qed.

Lemma in_hands_app ps qs : Uno.in_hands (ps ++ qs) = Uno.in_hands ps + Uno.in_hands qs.
Proof. induction ps; simpl; lia. Qed.

Lemma sockets_insert ps i p h :
  ps !! i = Some p ->
  map Uno.socketId (<[i := Uno.set_hand p h]> ps) = map Uno.socketId ps.
Proof.
  intros H. change (map Uno.socketId) with (fmap (M:=list) Uno.socketId).
  rewrite list_fmap_insert. apply list_insert_id. by rewrite list_lookup_fmap, H.
Qed.

Lemma splice1_len {A} (l : list A) i x :
  Js.nth l i = Some x -> Js.len (Js.splice1 l i) = Js.len l - 1.
Proof.
  intros H. apply nth_Some in H as [Hr Hl]. unfold Js.splice1.
  destruct (Z.ltb_spec i 0); [lia|]. rewrite Z.min_l by lia.
  unfold Js.len in *. rewrite length_delete by (by eexists). 
  apply lookup_lt_Some in Hl. lia.
Qed.

Lemma draw_while_len n d h h' d' :
  Uno.draw_while n d h = (h', d') ->
  Js.len h' + Js.len d' = Js.len h + Js.len d
  /\ (d = [] -> h' = h /\ d' = []).
Proof.
  revert d h. induction n as [|n IH]; intros d h H; simpl in H.
  - by simplify_eq.
  - destruct (pop_cases d) as [[-> E]|(d1 & x & -> & E)]; rewrite E in H.
    + by simplify_eq.
    + destruct (IH _ _ H) as [IH1 _]. split.
      * unfold Js.len in *. rewrite !length_app in *. simpl in *. lia.
      * intros Hd. by destruct d1.
Qed.

Lemma step_index_range g i :
  0 <= i < Js.len (Uno.players g) ->
  (Uno.direction g = 1 \/ Uno.direction g = -1) ->
  0 <= Uno.step_index g i < Js.len (Uno.players g).
Proof.
  intros Hi Hd. unfold Uno.step_index, Js.rem. apply Z.rem_bound_pos; lia.
Qed.

Lemma forced_draw_spec n g next :
  0 <= next < Js.len (Uno.players g) ->
  exists g', Uno.forced_draw n g next = Some g'
    /\ Uno.status g' = Uno.status g
    /\ Uno.maxPlayers g' = Uno.maxPlayers g
    /\ Js.len (Uno.players g') = Js.len (Uno.players g)
    /\ map Uno.socketId (Uno.players g') = map Uno.socketId (Uno.players g)
    /\ Uno.discardPile g' = Uno.discardPile g
    /\ Uno.total g' = Uno.total g
    /\ Uno.direction g' = Uno.direction g
    /\ Uno.currentPlayerIndex g' = Uno.currentPlayerIndex g
    /\ (Uno.deck g = [] -> g' = g).
Proof.
  intros Hn. unfold Uno.forced_draw.
  destruct (Z.gtb_spec (Js.len (Uno.deck g)) 0) as [Hd|Hd].
  - destruct (nth_in_range _ _ Hn) as [p Hp]. rewrite Hp.
    apply nth_Some in Hp as [_ Hp].
    destruct (Uno.draw_while n (Uno.deck g) (Uno.hand p)) as [h d] eqn:E.
    apply draw_while_len in E as [E _].
    eexists. split; [done|]. unfold Uno.total. simpl.
    rewrite (in_hands_insert _ _ _ _ Hp), (sockets_insert _ _ _ _ Hp). simpl.
    unfold Js.len in *. rewrite length_insert.
    repeat split; try done; try lia.
    intros Hnil. rewrite Hnil in Hd. simpl in Hd. lia.
  - eexists. split; [done|]. repeat split; done.
Qed.

Lemma effect_spec g card :
  0 <= Uno.currentPlayerIndex g < Js.len (Uno.players g) ->
  (Uno.direction g = 1 \/ Uno.direction g = -1) ->
  exists g', Uno.processUNOCardEffect g card = Some g' /\ uno_frame g g'.
Proof.
  intros Hi Hd. unfold Uno.processUNOCardEffect.
  pose proof (step_index_range g _ Hi Hd) as Hnext.
  pose proof (step_index_range g _ Hnext Hd) as Hnext2.
  destruct (String.eqb (Uno.value card) "skip").
  { eexists. split; [done|]. unfold uno_frame, Uno.total; simpl. repeat split; try done; lia. }
  destruct (String.eqb (Uno.value card) "reverse").
  { set (g1 := Uno.set_direction g (Uno.direction g * -1)).
    assert (Hd1 : Uno.direction g1 = 1 \/ Uno.direction g1 = -1) by (simpl; lia).
    pose proof (step_index_range g1 (Uno.currentPlayerIndex g1) Hi Hd1) as Hn1.
    destruct (Js.len (Uno.players g1) =? 2).
    - eexists. split; [done|]. unfold uno_frame, Uno.total; simpl.
      change (Uno.currentPlayerIndex g1) with (Uno.currentPlayerIndex g) in Hn1.
      change (Uno.players g1) with (Uno.players g) in Hn1.
      repeat split; try done; try lia.
    - eexists. split; [done|]. unfold uno_frame, Uno.total; simpl. repeat split; try done; try lia. }
  destruct (String.eqb (Uno.value card) "draw2").
  { destruct (forced_draw_spec 2 g _ Hnext) as (g1 & -> & Hs & Hm & Hl & Hk & Hdp & Ht & Hdir & Hc & _).
    eexists. split; [done|].
    assert (Hr : 0 <= Uno.step_index g1 (Uno.step_index g (Uno.currentPlayerIndex g))
                 < Js.len (Uno.players g1)).
    { apply step_index_range; [lia|]. by rewrite Hdir. }
    unfold uno_frame, Uno.total in *; simpl. rewrite Hdir. repeat split; try done; try lia. }
  destruct (String.eqb (Uno.value card) "wild4").
  { destruct (forced_draw_spec 4 g _ Hnext) as (g1 & -> & Hs & Hm & Hl & Hk & Hdp & Ht & Hdir & Hc & _).
    eexists. split; [done|].
    assert (Hr : 0 <= Uno.step_index g1 (Uno.step_index g (Uno.currentPlayerIndex g))
                 < Js.len (Uno.players g1)).
    { apply step_index_range; [lia|]. by rewrite Hdir. }
    unfold uno_frame, Uno.total in *; simpl. rewrite Hdir. repeat split; try done; try lia. }
  eexists. split; [done|]. unfold uno_frame. repeat split; try done; lia.
Qed.

Lemma play_card_spec u idx ch g :
  uno_ok g ->
  match Uno.play_card u idx ch g with
  | Accepted g' _ =>
      uno_ok g' /\ Uno.total g' = Uno.total g /\ Uno.status g <> waiting
      /\ (Uno.status g' = Uno.status g \/ Uno.status g' = finished)
  | Crashed _ => False
  | _ => True
  end.
Proof.
  intros (Hi & Hd & Hm & Hn & Hs & Hst). unfold Uno.play_card.
  destruct (nth_in_range _ _ Hi) as [p Hp]. rewrite Hp.
  destruct (negb (String.eqb (Uno.name p) u)); [done|].
  destruct (Z.geb_spec idx (Js.len (Uno.hand p))) as [|Hidx]; [done|].
  destruct (Js.nth (Uno.hand p) idx) as [card|] eqn:Hc; [|done].
  destruct (negb (Uno.canPlayUNOCard card (Uno.currentColor g) (Uno.currentNumber g))); [done|].
  pose proof (splice1_len _ _ _ Hc) as Hsp.
  apply nth_Some in Hp as [_ Hp].
  set (g3 := Uno.set_current _ _ _).
  assert (Hi3 : 0 <= Uno.currentPlayerIndex g3 < Js.len (Uno.players g3)).
  { subst g3. simpl. unfold Js.len in *. by rewrite length_insert. }
  assert (Ht3 : Uno.total g3 = Uno.total g).
  { subst g3. unfold Uno.total. simpl. rewrite (in_hands_insert _ _ _ _ Hp). simpl.
    unfold Js.len in *. rewrite length_app. simpl. lia. }
  assert (Hk3 : map Uno.socketId (Uno.players g3) = map Uno.socketId (Uno.players g)).
  { subst g3. simpl. by apply sockets_insert. }
  assert (Hl3 : Js.len (Uno.players g3) = Js.len (Uno.players g)).
  { subst g3. simpl. unfold Js.len. by rewrite length_insert. }
  destruct (effect_spec g3 card Hi3 Hd) as (g4 & -> & Hs4 & Hm4 & Hl4 & Hk4 & _ & Ht4 & Hd4 & Hi4).
  assert (Hnw : Uno.status g <> waiting).
  { intros Hw. rewrite Hw in Hst. destruct Hst as (_ & _ & Hz).
    rewrite (in_hands_zero _ _ _ Hz Hp) in Hc. apply nth_Some in Hc as [Hr _].
    unfold Js.len in Hr. simpl in Hr. lia. }
  assert (Hfin : forall g5, Uno.total g5 = Uno.total g4 ->
            Uno.maxPlayers g5 = Uno.maxPlayers g4 -> Uno.players g5 = Uno.players g4 ->
            Uno.direction g5 = Uno.direction g4 ->
            0 <= Uno.currentPlayerIndex g5 < Js.len (Uno.players g4) ->
            (Uno.status g5 = Uno.status g \/ Uno.status g5 = finished) ->
            uno_ok g5 /\ Uno.total g5 = Uno.total g /\ Uno.status g <> waiting
            /\ (Uno.status g5 = Uno.status g \/ Uno.status g5 = finished)).
  { intros g5 Ht5 Hm5 Hp5 Hd5 Hi5 Hs5. split; [|split; [lia|done]].
    unfold uno_ok. rewrite Hp5, Hm5, Hd5. repeat split; try done; try lia.
    - by rewrite Hm4.
    - by rewrite Hk4, Hk3.
    - destruct Hs5 as [-> | ->].
      + destruct (Uno.status g); try done. all: lia.
      + destruct (Uno.status g); try done. all: lia. }
  destruct (Js.nth (Uno.players g4) (Uno.currentPlayerIndex g)) as [p4|].
  - destruct (Js.len (Uno.hand p4) =? 0).
    + apply Hfin; simpl; try done. by right.
    + apply Hfin; simpl; try done.
      * exact (step_index_range g4 _ Hi4 Hd4).
      * left. by rewrite Hs4.
  - apply Hfin; try done. left. by rewrite Hs4.
Qed.

Lemma reshuffle_spec rs g :
  Uno.deck g = [] ->
  let g1 := Uno.reshuffleUNODeck rs g in
  Uno.total g1 = Uno.total g /\ Uno.players g1 = Uno.players g
  /\ Uno.status g1 = Uno.status g /\ Uno.maxPlayers g1 = Uno.maxPlayers g
  /\ Uno.direction g1 = Uno.direction g
  /\ Uno.currentPlayerIndex g1 = Uno.currentPlayerIndex g
  /\ (Js.len (Uno.discardPile g) <= 1 -> g1 = g)
  /\ (1 < Js.len (Uno.discardPile g) ->
      exists top rest, Uno.discardPile g = rest ++ [top]
        /\ Uno.discardPile g1 = [top] /\ Uno.deck g1 = Uno.shuffleArray rs rest).
Proof.
  intros Hdk. unfold Uno.reshuffleUNODeck.
  destruct (Z.leb_spec (Js.len (Uno.discardPile g)) 1) as [Hle|Hgt].
  { simpl. repeat split; try done. lia. }
  destruct (pop_cases (Uno.discardPile g)) as [[E _]|(rest & top & E & ->)].
  { rewrite E in Hgt. unfold Js.len in Hgt. simpl in Hgt. lia. }
  simpl. unfold Uno.total. simpl. rewrite Hdk, E.
  pose proof (Permutation_length (shuffleArray_perm rs rest)) as Hl.
  unfold Js.len. rewrite length_app, Hl. simpl.
  rewrite E in Hgt. unfold Js.len in Hgt. rewrite length_app in Hgt. simpl in Hgt.
  repeat split; try done; try lia. intros _. by exists top, rest.
Qed.

Lemma draw_card_spec rs u g :
  uno_ok g ->
  match Uno.draw_card rs u g with
  | Accepted g' _ =>
      uno_ok g' /\ Uno.total g' = Uno.total g /\ Uno.status g' = Uno.status g
  | Crashed _ => False
  | _ => True
  end.
Proof.
  intros (Hi & Hd & Hm & Hn & Hs & Hst). unfold Uno.draw_card.
  destruct (nth_in_range _ _ Hi) as [p Hp]. rewrite Hp.
  destruct (negb (String.eqb (Uno.name p) u)); [done|].
  apply nth_Some in Hp as [_ Hp].
  set (g1 := if Js.len (Uno.deck g) =? 0 then _ else _).
  assert (H1 : Uno.total g1 = Uno.total g /\ Uno.players g1 = Uno.players g
               /\ Uno.status g1 = Uno.status g /\ Uno.maxPlayers g1 = Uno.maxPlayers g
               /\ Uno.direction g1 = Uno.direction g
               /\ Uno.currentPlayerIndex g1 = Uno.currentPlayerIndex g
               /\ (Uno.status g = waiting -> g1 = g)).
  { subst g1. destruct (Z.eqb_spec (Js.len (Uno.deck g)) 0) as [Hz|Hz].
    - assert (Hdk : Uno.deck g = []) by (destruct (Uno.deck g); [done|unfold Js.len in Hz; simpl in Hz; lia]).
      destruct (reshuffle_spec rs g Hdk) as (? & ? & ? & ? & ? & ? & Hsame & _).
      repeat split; try done. intros Hw. apply Hsame. rewrite Hw in Hst.
      destruct Hst as (_ & -> & _). unfold Js.len. simpl. lia.
    - repeat split; done. }
  destruct H1 as (Ht1 & Hp1 & Hs1 & Hm1 & Hd1 & Hi1 & Hw1).
  destruct (pop_cases (Uno.deck g1)) as [[Hnil ->]|(d' & c & Hdk & ->)].
  - split; [|by split]. unfold uno_ok. rewrite Hp1, Hs1, Hm1, Hd1, Hi1, Ht1.
    repeat split; try done; try lia.
    destruct (Uno.status g) eqn:Es; try done. by rewrite (Hw1 eq_refl).
  - assert (Hnw : Uno.status g <> waiting).
    { intros Hw. rewrite (Hw1 Hw) in Hdk. rewrite Hw in Hst. destruct Hst as (E & _).
      rewrite E in Hdk. by destruct d'. }
    rewrite Hp1, Hi1.
    set (g' := Uno.set_deck _ _).
    assert (Ht' : Uno.total g' = Uno.total g).
    { subst g'. unfold Uno.total in *. simpl. rewrite (in_hands_insert _ _ _ _ Hp). simpl.
      rewrite Hdk, Hp1 in Ht1. unfold Js.len in *. rewrite !length_app in *. simpl in *. lia. }
    assert (Hl' : Js.len (Uno.players g') = Js.len (Uno.players g)).
    { subst g'. simpl. unfold Js.len. by rewrite length_insert. }
    assert (Hr : 0 <= Uno.step_index g' (Uno.currentPlayerIndex g') < Js.len (Uno.players g')).
    { apply step_index_range; subst g'; simpl; [|by rewrite Hd1].
      rewrite Hi1. unfold Js.len in *. by rewrite length_insert. }
    split; [|split; [done|by simpl]].
    unfold uno_ok. simpl. change (Uno.players g') with
      (<[Z.to_nat (Uno.currentPlayerIndex g) := Uno.set_hand p (Uno.hand p ++ [c])]> (Uno.players g)) in *.
    rewrite (sockets_insert _ _ _ _ Hp), Hm1, Hd1, Hs1.
    repeat split; try done; try lia.
    + change (Uno.currentPlayerIndex g') with (Uno.currentPlayerIndex g1) in Hr. lia.
    + change (Uno.currentPlayerIndex g') with (Uno.currentPlayerIndex g1) in Hr. lia.
    + change (Uno.total (Uno.set_currentPlayerIndex g' (Uno.step_index g' (Uno.currentPlayerIndex g1))))
        with (Uno.total g'). rewrite Ht'.
      destruct (Uno.status g); try done.
Qed.

Lemma join_spec rs u g :
  uno_ok g ->
  match Uno.join rs u g with
  | Accepted g' _ =>
      uno_ok g' /\ Uno.status g' = playing
      /\ exists p, Uno.total g' + Js.len (Uno.dropped_wilds rs (Uno.players g ++ [p])) = 108
  | Crashed _ => False
  | _ => True
  end.
Proof.
  intros (Hi & Hd & Hm & Hn & Hs & Hst). unfold Uno.join.
  destruct (Z.geb_spec (Js.len (Uno.players g)) (Uno.maxPlayers g)) as [|Hfull]; [done|].
  destruct (existsb _ _); [done|].
  set (newp := Uno.mkPlayer u [] false None).
  set (g1 := Uno.set_players g _).
  assert (Hl1 : Js.len (Uno.players g1) = Js.len (Uno.players g) + 1).
  { subst g1. simpl. unfold Js.len. rewrite length_app. simpl. lia. }
  destruct (Z.geb_spec (Js.len (Uno.players g1)) 2) as [_|Hlt]; [|lia].
  destruct (initialize_spec rs (Uno.set_status g1 playing))
    as (g3 & -> & Ht & Hdr & Hs3 & Hm3 & Hi3 & Hd3 & Hn3 & Hk3).
  { simpl. unfold Js.len in *. rewrite length_app in *. simpl in *. lia. }
  simpl in *. split; [|split; [done|by exists newp]].
  assert (Hl3 : Js.len (Uno.players g3) = Js.len (Uno.players g) + 1).
  { unfold Js.len. rewrite <- (length_map Uno.name (Uno.players g3)), Hn3, length_map.
    rewrite length_app. simpl. lia. }
  unfold uno_ok. rewrite Hi3, Hd3, Hm3, Hs3, Hk3, Hl3, map_app. simpl.
  pose proof (Zle_0_nat (length (Uno.dropped_wilds rs (Uno.players g ++ [newp])))).
  repeat split; try done; try (unfold Js.len in *; lia).
  apply Forall_app. split; [done|]. by constructor.
Qed.

Lemma nth_insert_ne {A} (l : list A) i j v :
  0 <= j -> i <> j -> Js.nth (<[Z.to_nat j := v]> l) i = Js.nth l i.
Proof.
  intros Hj Hne. unfold Js.nth. destruct (Z.ltb_spec i 0); [done|].
  apply list_lookup_insert_ne. lia.
Qed.

Lemma eq_undef_true x y : Js.eq_undef x y = true -> x = Some y.
Proof.
  destruct x as [s|]; simpl; [|done]. intros Hx. by apply String.eqb_eq in Hx as ->.
Qed.

Lemma line_won_insert board p pos s x :
  Js.nth board pos = Some "" ->
  Ttt.line_won board p = Some x ->
  Ttt.line_won (<[Z.to_nat pos := s]> board) p = Some x.
Proof.
  intros Hpos. destruct p as [[a b] c]. unfold Ttt.line_won.
  destruct (Js.nth board a) as [xa|] eqn:Ha; [|done].
  destruct (negb (String.eqb xa "")) eqn:Hne; [|done].
  destruct (Js.eq_undef (Js.nth board b) xa) eqn:Hb; [|done].
  destruct (Js.eq_undef (Js.nth board c) xa) eqn:Hc; [|done].
  simpl. intros [= <-].
  apply negb_true_iff, String.eqb_neq in Hne.
  apply eq_undef_true in Hb, Hc.
  pose proof (nth_Some _ _ _ Hpos) as [[Hp0 _] _].
  rewrite !nth_insert_ne; try done; try congruence.
  rewrite Ha, Hb, Hc. simpl. by rewrite String.eqb_refl, (proj2 (String.eqb_neq _ _) Hne).
Qed.

Lemma first_won_insert board ps pos s :
  Js.nth board pos = Some "" ->
  Ttt.first_won board ps <> None ->
  Ttt.first_won (<[Z.to_nat pos := s]> board) ps <> None.
Proof.
  intros Hpos. induction ps as [|p ps IH]; simpl; [done|].
  destruct (Ttt.line_won board p) as [x|] eqn:E.
  - intros _. by rewrite (line_won_insert _ _ _ _ _ Hpos E).
  - intros Hw. destruct (Ttt.line_won (<[Z.to_nat pos := s]> board) p); [done|]. by apply IH.
Qed.

Lemma full_board_taken board pos :
  forallb (fun cell => negb (String.eqb cell "")) board = true ->
  Js.eq_undef (Js.nth board pos) "" = false.
Proof.
  intros Hf. destruct (Js.nth board pos) as [x|] eqn:E; [|done]. simpl.
  apply nth_Some in E as [_ E]. rewrite forallb_forall in Hf.
  apply negb_true_iff. apply Hf. apply list_elem_of_In. by eapply list_elem_of_lookup_2.
Qed.

Lemma first_mark pos s :
  s <> "" ->
  Js.nth (repeat "" 9) pos = Some "" ->
  Ttt.checkTicTacToeWinner (<[Z.to_nat pos := s]> (repeat "" 9)) = None
  /\ forallb (fun cell => negb (String.eqb cell "")) (<[Z.to_nat pos := s]> (repeat "" 9)) = false.
Proof.
  intros Hs Hpos. apply nth_Some in Hpos as [Hr _]. unfold Js.len in Hr. simpl in Hr.
  assert (Hc : pos = 0 \/ pos = 1 \/ pos = 2 \/ pos = 3 \/ pos = 4 \/ pos = 5
               \/ pos = 6 \/ pos = 7 \/ pos = 8) by lia.
  destruct s as [|ch s]; [done|].
  repeat (destruct Hc as [-> | Hc]); try subst pos; vm_compute; done.
Qed.

Lemma ttt_move_spec u pos g :
  ttt_ok g ->
  match Ttt.move u pos g with
  | Accepted g' _ => ttt_ok g' /\ graph (Ttt.status g) (Ttt.status g')
  | Crashed _ => False
  | _ => True
  end.
Proof.
  intros [Hs Hst]. unfold Ttt.move.
  destruct (find _ _) as [player|] eqn:Hf; [|done].
  destruct (negb (String.eqb (Ttt.currentPlayer g) (Ttt.symbol player))) eqn:Hturn; [done|].
  destruct (negb (Js.eq_undef (Js.nth (Ttt.board g) pos) "")) eqn:Hfree; [done|].
  apply negb_false_iff in Hturn, Hfree. apply String.eqb_eq in Hturn.
  apply eq_undef_true in Hfree.
  destruct (Ttt.status g) eqn:Es.
  - (* waiting *)
    destruct Hst as [(p & Hp & Hx) Hb]. rewrite Hp in Hf. simpl in Hf.
    destruct (String.eqb (Ttt.name p) u); [|done]. simplify_eq.
    destruct Hb as [[Hc Hb]|Hc]; [|congruence].
    rewrite Hb in *. rewrite Hx.
    destruct (first_mark pos "X") as [-> ->]; [done|done|].
    rewrite Hc. simpl. split; [|by left]. unfold ttt_ok. simpl.
    split; [done|]. split; [by exists player|by right].
  - (* playing *)
    destruct (Ttt.checkTicTacToeWinner _) as [w|] eqn:Ew.
    + split; [|right; right; left; split; [done|by left]].
      unfold ttt_ok. simpl. rewrite Ew. done.
    + destruct (forallb _ _) eqn:Efull.
      * split; [|right; right; left; split; [done|right; by left]].
        unfold ttt_ok. simpl. done.
      * split; [|by left]. unfold ttt_ok. simpl. done.
  - (* finished *)
    destruct Hst as [Hl Hw].
    pose proof (first_won_insert _ _ _ (Ttt.symbol player) Hfree Hw) as Hw'.
    unfold Ttt.checkTicTacToeWinner.
    destruct (Ttt.first_won _ Ttt.winPatterns) as [w|] eqn:Ew; [|done].
    split; [|by left]. unfold ttt_ok, Ttt.checkTicTacToeWinner. cbn [Ttt.status Ttt.players Ttt.board].
    by rewrite Ew.
  - (* draw *)
    destruct Hst as [_ Hfull]. pose proof (full_board_taken _ pos Hfull) as Ht.
    by rewrite Hfree in Ht.
  - done.
Qed.

Lemma ttt_join_spec u g :
  ttt_ok g ->
  match Ttt.join u g with
  | Accepted g' _ => ttt_ok g' /\ graph (Ttt.status g) (Ttt.status g')
  | Crashed _ => False
  | _ => True
  end.
Proof.
  intros [Hs Hst]. unfold Ttt.join.
  destruct (Z.geb_spec (Js.len (Ttt.players g)) 2) as [|Hlt]; [done|].
  destruct (existsb _ _); [done|].
  destruct (Ttt.status g) eqn:Es; try (exfalso; lia); try (destruct Hst; lia); try done.
  destruct Hst as [(p & Hp & _) _]. split.
  - unfold ttt_ok. simpl. rewrite map_app, Hp. split.
    + apply Forall_app. rewrite Hp in Hs. split; [done|]. by constructor.
    + unfold Js.len. simpl. lia.
  - right. left. split; [done|by left].
Qed.

Lemma ttt_new_ok u now : ttt_ok (Ttt.newGame u now).
Proof.
  unfold ttt_ok. simpl. split; [by constructor|].
  split; [by eexists|by left].
Qed.

(** Chess *)
Lemma chess_move_spec u from to now g :
  chess_ok g ->
  match Chess.move u from to now g with
  | Accepted g' _ => chess_ok g' /\ Chess.status g' = Chess.status g
  | Crashed _ => False
  | _ => True
  end.
Proof.
  intros Hok. unfold Chess.move.
  destruct (negb (Js.includes _ _)); [done|].
  destruct (negb (String.eqb _ _)); [done|].
  destruct (Chess.isValidMove _ _ _ _) as [[|]|]; try done.
  destruct (Chess.makeMove _ _ _); [|done]. simpl. done.
Qed.

Lemma chess_join_spec u g :
  chess_ok g ->
  match Chess.join u g with
  | Accepted g' _ => chess_ok g' /\ graph (Chess.status g) (Chess.status g')
  | Crashed _ => False
  | _ => True
  end.
Proof.
  intros Hok. unfold Chess.join.
  destruct (Z.geb_spec (Js.len (Chess.players g)) 2) as [|Hlt]; [done|].
  destruct (Js.includes _ _); [done|].
  destruct Hok as [[Hs Hl]|[_ Hl]]; [|lia]. split.
  - right. simpl. unfold Js.len in *. rewrite length_app. simpl. split; [done|lia].
  - rewrite Hs. right. left. split; [done|by left].
Qed.

(** Race *)
Lemma ludo_join_spec u g :
  ludo_ok g ->
  match Ludo.join u g with
  | Accepted g' _ => ludo_ok g' /\ Ludo.status g' = Ludo.status g
  | Crashed _ => False
  | _ => True
  end.
Proof.
  intros [Hs Hst]. unfold Ludo.join.
  destruct (Js.ge _ _); [done|]. destruct (existsb _ _); [done|].
  split; [|done]. split; [|done]. simpl. rewrite map_app.
  apply Forall_app. split; [done|]. by constructor.
Qed.

Lemma ludo_start_spec pc ac gm df g :
  ludo_ok g ->
  match Ludo.start pc ac gm df g with
  | Accepted g' _ => ludo_ok g' /\ Ludo.status g' = playing
  | Crashed _ => False
  | _ => True
  end.
Proof.
  intros [Hs Hst]. unfold Ludo.start. split; [|done]. split; [|simpl; tauto].
  simpl. destruct (ac && _); [|done]. rewrite map_app. apply Forall_app. split; [done|].
  rewrite map_map. apply Forall_forall. intros x Hx.
  apply list_elem_of_In, in_map_iff in Hx as (i & <- & _). done.
Qed.

Lemma ludo_roll_spec rs u g :
  ludo_ok g ->
  match fst (Ludo.roll rs u g) with
  | Accepted g' _ => ludo_ok g' /\ Ludo.status g' = Ludo.status g
  | Crashed _ => False
  | _ => True
  end.
Proof.
  intros Hok. unfold Ludo.roll. destruct (Js.nth _ _); [|done].
  destruct (negb _); [done|]. destruct (Ludo.diceRolled g); [done|]. simpl. done.
Qed.

Lemma ludo_sockets_insert ps i p p' :
  ps !! i = Some p -> Ludo.socketId p' = Ludo.socketId p ->
  map Ludo.socketId (<[i := p']> ps) = map Ludo.socketId ps.
Proof.
  intros Hp He. change (map Ludo.socketId) with (fmap (M:=list) Ludo.socketId).
  rewrite list_fmap_insert, He. apply list_insert_id. by rewrite list_lookup_fmap, Hp.
Qed.

Lemma ludo_socket_move_spec u pi dr g :
  ludo_ok g ->
  match Ludo.socket_move u pi dr g with
  | Accepted g' _ =>
      ludo_ok g' /\ Ludo.status g = playing
      /\ (Ludo.status g' = playing \/ Ludo.status g' = finished)
  | Crashed _ => False
  | _ => True
  end.
Proof.
  intros [Hs Hst]. unfold Ludo.socket_move.
  destruct (bool_decide (Ludo.status g = playing)) eqn:Ep; [|done]. simpl.
  apply bool_decide_eq_true in Ep.
  destruct (Js.nth (Ludo.players g) _) as [cp|] eqn:Hcp; [|done].
  destruct (negb _); [done|].
  destruct (Js.nth (Ludo.pieces cp) pi) as [piece|]; [|done].
  apply nth_Some in Hcp as [_ Hcp].
  match goal with |- context [let '(a, b) := ?x in _] => destruct x as [piece' goals] end.
  assert (Hk : map Ludo.socketId
                 (<[Z.to_nat (Ludo.currentPlayerIndex g) :=
                    Ludo.mkPlayer (Ludo.name cp) (Ludo.isComputer cp) (Ludo.difficulty cp)
                      (<[Z.to_nat pi := piece']> (Ludo.pieces cp)) goals (Ludo.socketId cp)]>
                    (Ludo.players g)) = map Ludo.socketId (Ludo.players g))
    by (by apply (ludo_sockets_insert _ _ cp)).
  destruct (goals =? 4); destruct (negb (dr =? 6)); simpl;
    (split; [split; [simpl; by rewrite Hk | simpl; tauto] | split; [done | simpl; tauto]]).
Qed.

Lemma ludo_auto_spec ri dr g :
  ludo_ok g -> ludo_ok (Ludo.auto_advance ri dr g)
               /\ Ludo.status (Ludo.auto_advance ri dr g) = Ludo.status g.
Proof.
  intros Hok. unfold Ludo.auto_advance.
  destruct (Js.nth _ ri); [|done].
  destruct (Ludo.getValidMoves _ _ _).
  - destruct (_ || _); done.
  - destruct (Ludo.isComputer _); done.
Qed.

(** World level *)
Ltac same_lookup :=
  repeat match goal with
  | H1 : ?m !! ?i = Some ?a, H2 : ?m !! ?i = Some ?b |- _ =>
      assert (b = a) by congruence; subst b; clear H2
  end.

Lemma graph_refl s : graph s s.
Proof. by left. Qed.

Lemma moves_on_refl e v s : moves_on e v s s.
Proof. left. apply graph_refl. Qed.

(** A world that differs from [w] in its counters and timers only. *)
Lemma step_ok_same e w w' :
  world_ok w ->
  chessGames w' = chessGames w -> ludoGames w' = ludoGames w ->
  ticTacToeGames w' = ticTacToeGames w -> unoGames w' = unoGames w ->
  step_ok e w w'.
Proof.
  intros (Hc & Hl & Ht & Hu) Ec El Et Eu. unfold step_ok, world_ok.
  rewrite Ec, El, Et, Eu. split_and!; try done.
  all: intros id g g' H1 H2; same_lookup; try split; try apply moves_on_refl; done.
Qed.

Lemma step_ok_refl e w : world_ok w -> step_ok e w w.
Proof. intros. by apply step_ok_same. Qed.

Ltac at_key id Hmv :=
  let i := fresh "i" in
  let H1 := fresh "H1" in
  let H2 := fresh "H2" in
  let Hne := fresh "Hne" in
  intros i ? ? H1 H2; destruct (decide (id = i)) as [<-|Hne];
  [ rewrite lookup_insert_eq in H2; injection H2 as <-; by apply Hmv
  | rewrite lookup_insert_ne in H2 by done; same_lookup;
    try split; try apply moves_on_refl; done ].

Ltac elsewhere :=
  intros ? ? ? ? ?; same_lookup; try split; try apply moves_on_refl; done.

Lemma put_chess_step e w id g' :
  world_ok w -> chess_ok g' ->
  (forall g, chessGames w !! id = Some g ->
     moves_on e VChess (Chess.status g) (Chess.status g')) ->
  step_ok e w (put_chess id g' w).
Proof.
  intros (Hc & Hl & Ht & Hu) Hok Hmv. unfold step_ok, world_ok. simpl.
  split_and!; try done; [by apply map_Forall_insert_2 | at_key id Hmv | elsewhere..].
Qed.

Lemma put_ludo_step e w id g' :
  world_ok w -> ludo_ok g' ->
  (forall g, ludoGames w !! id = Some g ->
     moves_on e VLudo (Ludo.status g) (Ludo.status g')) ->
  step_ok e w (put_ludo id g' w).
Proof.
  intros (Hc & Hl & Ht & Hu) Hok Hmv. unfold step_ok, world_ok. simpl.
  split_and!; try done;
    [by apply map_Forall_insert_2 | elsewhere | at_key id Hmv | elsewhere..].
Qed.

Lemma put_ttt_step e w id g' :
  world_ok w -> ttt_ok g' ->
  (forall g, ticTacToeGames w !! id = Some g ->
     moves_on e VTtt (Ttt.status g) (Ttt.status g')) ->
  step_ok e w (put_ttt id g' w).
Proof.
  intros (Hc & Hl & Ht & Hu) Hok Hmv. unfold step_ok, world_ok. simpl.
  split_and!; try done;
    [by apply map_Forall_insert_2 | elsewhere | elsewhere | at_key id Hmv | elsewhere].
Qed.

Lemma put_uno_step e w id g' :
  world_ok w -> uno_ok g' ->
  (forall g, unoGames w !! id = Some g ->
     moves_on e VUno (Uno.status g) (Uno.status g')
     /\ (deals e = false -> Uno.total g' = Uno.total g)) ->
  step_ok e w (put_uno id g' w).
Proof.
  intros (Hc & Hl & Ht & Hu) Hok Hmv. unfold step_ok, world_ok. simpl.
  split_and!; try done;
    [by apply map_Forall_insert_2 | elsewhere | elsewhere | elsewhere | at_key id Hmv].
Qed.

Lemma gated_step (P : World -> Prop) su w k :
  P w -> (forall u, P (world (k u))) -> P (world (gated su w k)).
Proof.
  intros Hw Hk. unfold gated. destruct su as [u|]; [|done].
  destruct (negb _); [done|apply Hk].
Qed.

Lemma respond_step {G} (P : World -> Prop) (wrap : G -> AnyGame) put w id o :
  P w ->
  match o with
  | Accepted g _ | Crashed g => P (put id g w)
  | _ => True
  end ->
  P (world (respond wrap put w id o)).
Proof. intros Hw Ho. destruct o; done. Qed.

Lemma abandon_where_miss {G} (hit : G -> bool) abandon task (m : gmap string G) :
  map_Forall (fun _ g => hit g = false) m ->
  abandon_where hit abandon task m = (m, []).
Proof.
  intros Hm. unfold abandon_where. f_equal.
  - apply map_eq. intros i. rewrite lookup_fmap.
    destruct (m !! i) as [g|] eqn:E; simpl; [|done]. by rewrite (Hm _ _ E).
  - assert (Hall : Forall (fun kv => hit kv.2 = false) (map_to_list m)).
    { apply Forall_forall. intros [k g] Hin. apply elem_of_map_to_list in Hin. by apply (Hm k). }
    induction Hall as [|[k g] l Hx _ IH]; [done|]. simpl in *. by rewrite Hx.
Qed.

Lemma includes_undefined l : Js.includes l None = false.
Proof. unfold Js.includes. by induction l. Qed.

Lemma no_socket_hit {P} (sock : P -> option string) (ps : list P) sid :
  Forall (eq None) (map sock ps) ->
  existsb (fun p => Js.eq_undef (sock p) sid) ps = false.
Proof.
  induction ps as [|p ps IH]; simpl; [done|].
  intros Hf. inversion Hf as [|? ? Hp Hrest]; subst. rewrite <- Hp. simpl. by apply IH.
Qed.

Lemma disconnect_keeps_matches sid ref u r w :
  world_ok w ->
  let w' := on_disconnect (Bridge.attach sid ref u r) w in
  chessGames w' = chessGames w /\ ludoGames w' = ludoGames w
  /\ ticTacToeGames w' = ticTacToeGames w /\ unoGames w' = unoGames w
  /\ timers w' = timers w.
Proof.
  intros (Hc & Hl & Ht & Hu). unfold on_disconnect.
  destruct (isHomepageUser (Bridge.attach sid ref u r)); cbn [negb]; [by simpl|].
  cbv beta iota zeta.
  rewrite !abandon_where_miss; simpl.
  - by rewrite !app_nil_r.
  - intros i g Hg. apply no_socket_hit. by destruct (Hu i g Hg) as (_ & _ & _ & _ & ? & _).
  - intros i g Hg. apply no_socket_hit. by destruct (Ht i g Hg) as (? & _).
  - intros i g Hg. apply no_socket_hit. by destruct (Hl i g Hg) as (? & _).
  - intros i g Hg. apply includes_undefined.
Qed.

Lemma step_ok_sub e w w' :
  world_ok w ->
  (forall id g, chessGames w' !! id = Some g -> chessGames w !! id = Some g) ->
  (forall id g, ludoGames w' !! id = Some g -> ludoGames w !! id = Some g) ->
  (forall id g, ticTacToeGames w' !! id = Some g -> ticTacToeGames w !! id = Some g) ->
  (forall id g, unoGames w' !! id = Some g -> unoGames w !! id = Some g) ->
  step_ok e w w'.
Proof.
  intros (Hc & Hl & Ht & Hu) Sc Sl St Su. unfold step_ok, world_ok. split_and!.
  - intros i g Hg. eapply Hc. by apply Sc.
  - intros i g Hg. eapply Hl. by apply Sl.
  - intros i g Hg. eapply Ht. by apply St.
  - intros i g Hg. eapply Hu. by apply Su.
  - intros i g g' H1 H2. apply Sc in H2. same_lookup. apply moves_on_refl.
  - intros i g g' H1 H2. apply Sl in H2. same_lookup. apply moves_on_refl.
  - intros i g g' H1 H2. apply St in H2. same_lookup. apply moves_on_refl.
  - intros i g g' H1 H2. apply Su in H2. same_lookup. split; [apply moves_on_refl|done].
Qed.

(** [step_ok] looks at the containers only. *)
Lemma step_ok_from e w0 w w' :
  chessGames w0 = chessGames w -> ludoGames w0 = ludoGames w ->
  ticTacToeGames w0 = ticTacToeGames w -> unoGames w0 = unoGames w ->
  step_ok e w0 w' -> step_ok e w w'.
Proof. unfold step_ok. by intros -> -> -> ->. Qed.

Lemma world_ok_from w0 w :
  chessGames w0 = chessGames w -> ludoGames w0 = ludoGames w ->
  ticTacToeGames w0 = ticTacToeGames w -> unoGames w0 = unoGames w ->
  world_ok w -> world_ok w0.
Proof. unfold world_ok. by intros -> -> -> ->. Qed.

Lemma apply_step e w : world_ok w -> step_ok e w (apply e w).
Proof.
  intros Hok. pose proof Hok as (Hc & Hl & Ht & Hu).
  destruct e; cbn [apply];
    unfold chess_create, chess_join, chess_move, ludo_create, ludo_join, ludo_start,
      ludo_roll, tictactoe_create, tictactoe_join, tictactoe_move, uno_create, uno_join,
      uno_play_card, uno_draw_card, not_found.
  - (* ChessCreate *)
    apply gated_step; [by apply step_ok_refl|]. intros u. simpl.
    apply put_chess_step; [done|by left|]. intros g _. right. left. done.
  - (* ChessJoin *)
    apply gated_step; [by apply step_ok_refl|]. intros u.
    destruct (chessGames w !! _) as [g|] eqn:Hg; [|by apply step_ok_refl].
    apply respond_step; [by apply step_ok_refl|].
    pose proof (chess_join_spec (username u) g (Hc _ _ Hg)) as Hs.
    destruct (Chess.join _ _); try done. destruct Hs as [Hk Hgr].
    apply put_chess_step; [done..|]. intros gx Hgx. same_lookup. by left.
  - (* ChessMove *)
    apply gated_step; [by apply step_ok_refl|]. intros u.
    destruct (chessGames w !! _) as [g|] eqn:Hg; [|by apply step_ok_refl].
    apply respond_step; [by apply step_ok_refl|].
    pose proof (chess_move_spec (username u) from to now g (Hc _ _ Hg)) as Hs.
    destruct (Chess.move _ _ _ _ _); try done. destruct Hs as [Hk Hgr].
    apply put_chess_step; [done..|]. intros gx Hgx. same_lookup. left. by left.
  - (* LudoCreate *)
    apply gated_step; [by apply step_ok_refl|]. intros u. simpl.
    apply put_ludo_step; [done| |].
    + split; [|by left]. simpl. by constructor.
    + intros g _. right. left. done.
  - (* LudoJoin *)
    apply gated_step; [by apply step_ok_refl|]. intros u.
    destruct (ludoGames w !! _) as [g|] eqn:Hg; [|by apply step_ok_refl].
    apply respond_step; [by apply step_ok_refl|].
    pose proof (ludo_join_spec (username u) g (Hl _ _ Hg)) as Hs.
    destruct (Ludo.join _ _); try done. destruct Hs as [Hk Hgr].
    apply put_ludo_step; [done..|]. intros gx Hgx. same_lookup. left. by left.
  - (* LudoStart *)
    apply gated_step; [by apply step_ok_refl|]. intros u.
    destruct (ludoGames w !! _) as [g|] eqn:Hg; [|by apply step_ok_refl].
    apply respond_step; [by apply step_ok_refl|].
    pose proof (ludo_start_spec playerCount addComputer gameMode difficulty g (Hl _ _ Hg)) as Hs.
    destruct (Ludo.start _ _ _ _ _); try done. destruct Hs as [Hk Hgr].
    apply put_ludo_step; [done..|]. intros gx Hgx. right. right. done.
  - (* LudoRoll *)
    apply gated_step; [by apply step_ok_refl|]. intros u.
    destruct (ludoGames w !! _) as [g|] eqn:Hg; [|by apply step_ok_refl].
    pose proof (ludo_roll_spec rs (username u) g (Hl _ _ Hg)) as Hs.
    destruct (Ludo.roll rs (username u) g) as [o d]. simpl in Hs.
    destruct o; try done; simpl; try by apply step_ok_refl.
    destruct Hs as [Hk Hgr].
    eapply (step_ok_from _ (set_timers w _)); try done.
    apply put_ludo_step; [by eapply world_ok_from|done|].
    intros gx Hgx. simpl in Hgx. same_lookup. left. by left.
  - (* LudoMove *)
    unfold ludo_move.
    destruct (ludoGames w !! _) as [g|] eqn:Hg; [|by apply step_ok_refl].
    match goal with |- context [Ludo.socket_move ?a ?b ?c ?d] =>
      pose proof (ludo_socket_move_spec a b c d (Hl _ _ Hg)) as Hs end.
    destruct (Ludo.socket_move _ _ _ _) as [code msg| |gc|ga ev];
      [by apply step_ok_refl|by apply step_ok_sub|done|].
    destruct Hs as (Hk & Hp & Hgr). simpl.
    apply put_ludo_step; [done..|]. intros gx Hgx. same_lookup. left.
    rewrite Hp. destruct Hgr as [-> | ->]; [by left|]. right. right. left.
    split; [done|by left].
  - (* TttCreate *)
    apply gated_step; [by apply step_ok_refl|]. intros u. simpl.
    apply put_ttt_step; [done|apply ttt_new_ok|]. intros g _. right. left. done.
  - (* TttJoin *)
    apply gated_step; [by apply step_ok_refl|]. intros u.
    destruct (ticTacToeGames w !! _) as [g|] eqn:Hg; [|by apply step_ok_refl].
    apply respond_step; [by apply step_ok_refl|].
    pose proof (ttt_join_spec (username u) g (Ht _ _ Hg)) as Hs.
    destruct (Ttt.join _ _); try done. destruct Hs as [Hk Hgr].
    apply put_ttt_step; [done..|]. intros gx Hgx. same_lookup. by left.
  - (* TttMove *)
    apply gated_step; [by apply step_ok_refl|]. intros u.
    destruct (ticTacToeGames w !! _) as [g|] eqn:Hg; [|by apply step_ok_refl].
    apply respond_step; [by apply step_ok_refl|].
    pose proof (ttt_move_spec (username u) position g (Ht _ _ Hg)) as Hs.
    destruct (Ttt.move _ _ _); try done. destruct Hs as [Hk Hgr].
    apply put_ttt_step; [done..|]. intros gx Hgx. same_lookup. by left.
  - (* UnoCreate *)
    apply gated_step; [by apply step_ok_refl|]. intros u. simpl.
    apply put_uno_step; [done| |].
    + unfold uno_ok. simpl. unfold Js.len. simpl.
      split_and!; try done; try lia; try (by left); by constructor.
    + intros g _. split; [right; left; done|done].
  - (* UnoJoin *)
    apply gated_step; [by apply step_ok_refl|]. intros u.
    destruct (unoGames w !! _) as [g|] eqn:Hg; [|by apply step_ok_refl].
    apply respond_step; [by apply step_ok_refl|].
    pose proof (join_spec rs (username u) g (Hu _ _ Hg)) as Hs.
    destruct (Uno.join _ _ _); try done. destruct Hs as (Hk & Hp & _).
    apply put_uno_step; [done..|]. intros gx Hgx. split; [|done]. right. right. done.
  - (* UnoPlayCard *)
    apply gated_step; [by apply step_ok_refl|]. intros u.
    destruct (unoGames w !! _) as [g|] eqn:Hg; [|by apply step_ok_refl].
    apply respond_step; [by apply step_ok_refl|].
    pose proof (play_card_spec (username u) cardIndex chosenColor g (Hu _ _ Hg)) as Hs.
    destruct (Uno.play_card _ _ _ _); try done. destruct Hs as (Hk & Htot & Hnw & Hst).
    apply put_uno_step; [done..|]. intros gx Hgx. same_lookup. split; [|done]. left.
    destruct Hst as [-> | Hf]; [by left|]. rewrite Hf.
    destruct Hk as (_ & _ & _ & _ & _ & Hm). rewrite Hf in Hm.
    destruct (Hu _ _ Hg) as (_ & _ & _ & _ & _ & Hm0).
    destruct (Uno.status g); try done; [|by left].
    right. right. left. split; [done|by left].
  - (* UnoDrawCard *)
    apply gated_step; [by apply step_ok_refl|]. intros u.
    destruct (unoGames w !! _) as [g|] eqn:Hg; [|by apply step_ok_refl].
    apply respond_step; [by apply step_ok_refl|].
    pose proof (draw_card_spec rs (username u) g (Hu _ _ Hg)) as Hs.
    destruct (Uno.draw_card _ _ _); try done. destruct Hs as (Hk & Htot & Hst).
    apply put_uno_step; [done..|]. intros gx Hgx. same_lookup. split; [|done].
    left. by left.
  - (* Connect *)
    apply step_ok_same; try done.
    all: unfold on_connection; destruct (isHomepageUser _); simpl;
      destruct (_ >? _); done.
  - (* Disconnected *)
    match goal with |- context [on_disconnect (Bridge.attach ?a ?b ?c ?d)] =>
      destruct (disconnect_keeps_matches a b c d w Hok) as (? & ? & ? & ? & _) end.
    by apply step_ok_same.
  - (* TimerFires *)
    unfold fire. destruct (timers w !! k) as [[delay t]|]; [|by apply step_ok_refl].
    destruct t; simpl.
    + apply step_ok_sub; simpl; try done. intros i g Hg. by apply lookup_delete_Some in Hg as [_ ?].
    + apply step_ok_sub; simpl; try done. intros i g Hg. by apply lookup_delete_Some in Hg as [_ ?].
    + apply step_ok_sub; simpl; try done. intros i g Hg. by apply lookup_delete_Some in Hg as [_ ?].
    + apply step_ok_sub; simpl; try done. intros i g Hg. by apply lookup_delete_Some in Hg as [_ ?].
    + destruct (ludoGames w !! _) as [g|] eqn:Hg; [|by apply step_ok_same].
      destruct (ludo_auto_spec rolledIndex diceRoll g (Hl _ _ Hg)) as [Hk Hs].
      eapply (step_ok_from _ (set_timers w _)); try done.
      apply put_ludo_step; [by eapply world_ok_from|done|].
      intros gx Hgx. simpl in Hgx. same_lookup. left. by left.
  - (* Sweep *)
    apply step_ok_sub; simpl; try done.
    all: intros i g Hg; by apply map_lookup_filter_Some in Hg as [? _].
Qed.

Lemma empty_world_ok : world_ok empty_world.
Proof. unfold world_ok, empty_world. simpl. split_and!; apply map_Forall_empty. Qed.

Lemma reachable_ok w : reachable w -> world_ok w.
Proof.
  induction 1 as [|e w _ IH]; [apply empty_world_ok|]. by destruct (apply_step e w IH).
Qed.

(** ** Reachable worlds *)


Lemma run_reachable es w : reachable w -> reachable (run es w).
Proof.
  revert w. induction es as [|e es IH]; intros w Hw; [done|].
  apply IH. by constructor.
Qed.

Lemma dropped_wilds_wild rs ps :
  Forall (fun c => Uno.is_wild c = true) (Uno.dropped_wilds rs ps).
Proof.
  unfold Uno.dropped_wilds. destruct (Uno.deal _ _) as [[qs d]|]; [|constructor].
  apply leading_wilds_wild.
Qed.

Lemma deck_distribution c :
  In c Uno.colors ->
  Uno.count c "0" "number" Uno.createUNODeck = 1%nat
  /\ (forall i, 1 <= i <= 9 -> Uno.count c (Js.toString i) "number" Uno.createUNODeck = 2%nat)
  /\ (forall s, In s Uno.specials -> Uno.count c s "special" Uno.createUNODeck = 2%nat).
Proof.
  intros Hc. simpl in Hc.
  assert (Hi : forall i, 1 <= i <= 9 ->
            i = 1 \/ i = 2 \/ i = 3 \/ i = 4 \/ i = 5 \/ i = 6 \/ i = 7 \/ i = 8 \/ i = 9)
    by (intros; lia).
  repeat (destruct Hc as [<- | Hc]); try done.
  all: split; [by vm_compute|split].
  all: try (intros i Hr; apply Hi in Hr;
            repeat (destruct Hr as [-> | Hr]); try subst i; by vm_compute).
  all: intros s Hs; simpl in Hs; repeat (destruct Hs as [<- | Hs]); try done; by vm_compute.
Qed.

(** C1, as the code has it: a freshly built deck has exactly 108 cards, per
    color one 0, two of each of 1 to 9 and two of each of skip, reverse and
    draw2, plus four wild and four wild4. A deal (with at most fourteen
    players, and the endpoint admits four) always succeeds and drops the
    wild cards it pops while seeding the discard pile, so that afterwards
    deck + discard pile + hands is 108 less the cards dropped. From every
    reachable world, every event other than a card create or join leaves
    that sum of every card match unchanged, and a dealt match holds between
    100 and 108 cards. *)
Theorem C1_deck_and_card_conservation :
  length Uno.createUNODeck = 108%nat
  /\ (forall c, In c Uno.colors ->
        Uno.count c "0" "number" Uno.createUNODeck = 1%nat
        /\ (forall i, 1 <= i <= 9 ->
              Uno.count c (Js.toString i) "number" Uno.createUNODeck = 2%nat)
        /\ (forall s, In s Uno.specials ->
              Uno.count c s "special" Uno.createUNODeck = 2%nat))
  /\ Uno.count "wild" "wild" "wild" Uno.createUNODeck = 4%nat
  /\ Uno.count "wild" "wild4" "wild" Uno.createUNODeck = 4%nat
  /\ (forall rs g, (length (Uno.players g) <= 14)%nat ->
        exists g', Uno.initializeUNOGame rs g = Some g'
          /\ Uno.total g' + Js.len (Uno.dropped_wilds rs (Uno.players g)) = 108
          /\ Forall (fun c => Uno.is_wild c = true) (Uno.dropped_wilds rs (Uno.players g)))
  /\ (forall w e id g g',
        reachable w -> deals e = false ->
        unoGames w !! id = Some g -> unoGames (apply e w) !! id = Some g' ->
        Uno.total g' = Uno.total g)
  /\ (forall w id g,
        reachable w -> unoGames w !! id = Some g -> Uno.status g <> waiting ->
        100 <= Uno.total g <= 108).
Proof.
  split_and!.
  - reflexivity.
  - apply deck_distribution.
  - reflexivity.
  - reflexivity.
  - intros rs g Hn. destruct (initialize_spec rs g Hn) as (g' & Hi & Ht & _).
    exists g'. split_and!; [done..|]. apply dropped_wilds_wild.
  - intros w e id g g' Hr He Hg Hg'.
    destruct (apply_step e w (reachable_ok w Hr)) as (_ & _ & _ & _ & Hu).
    destruct (Hu id g g' Hg Hg') as [_ Ht]. by apply Ht.
  - intros w id g Hr Hg Hs. destruct (reachable_ok w Hr) as (_ & _ & _ & Hu).
    destruct (Hu id g Hg) as (_ & _ & _ & _ & _ & Ht).
    destruct (Uno.status g); done.
Qed.


(** With the first swap of the shuffle bringing a wild card to the top of
    what is left after the deal, the dealt match holds 107 cards. *)
Lemma C1_counterexample :
  reachable (dealt wild_on_top_draws)
  /\ Uno.status <$> unoGames (dealt wild_on_top_draws) !! "uno_1000" = Some playing
  /\ Uno.total <$> unoGames (dealt wild_on_top_draws) !! "uno_1000" = Some 107
  /\ Uno.total <$> unoGames (dealt wild_on_top_draws) !! "uno_1000" <> Some 108.
Proof.
  split; [apply run_reachable; constructor|].
  split; [vm_compute; reflexivity|].
  split; [vm_compute; reflexivity|].
  vm_compute. discriminate.
Qed.

Lemma C1_witness :
  (exists g', Uno.initializeUNOGame wild_on_top_draws (Uno.newGame "alice" 1000) = Some g'
     /\ Uno.total g' + Js.len (Uno.dropped_wilds wild_on_top_draws
                                 (Uno.players (Uno.newGame "alice" 1000))) = 108)
  /\ Uno.total (the_uno (apply (UnoDrawCard alice "uno_1000" []) (dealt still_draws)) "uno_1000")
     = Uno.total (the_uno (dealt still_draws) "uno_1000")
  /\ 100 <= Uno.total (the_uno (dealt still_draws) "uno_1000") <= 108.
Proof.
  destruct C1_deck_and_card_conservation as (_ & _ & _ & _ & Hdeal & Hkeep & Hrange).
  assert (Hr : reachable (dealt still_draws)) by (apply run_reachable; constructor).
  split; [|split].
  - destruct (Hdeal wild_on_top_draws (Uno.newGame "alice" 1000)) as (g' & Hi & Ht & _).
    + simpl. lia.
    + exists g'. split; assumption.
  - apply (Hkeep (dealt still_draws) (UnoDrawCard alice "uno_1000" []) "uno_1000").
    + exact Hr.
    + reflexivity.
    + vm_compute. reflexivity.
    + vm_compute. reflexivity.
  - apply (Hrange (dealt still_draws) "uno_1000").
    + exact Hr.
    + vm_compute. reflexivity.
    + vm_compute. discriminate.
Defined.



(** A disconnect of a socket the bridge admitted changes no match and defers nothing. *)
Lemma disconnect_never_abandons w socket_id referer username role :
  reachable w ->
  let w' := on_disconnect (Bridge.attach socket_id referer username role) w in
  chessGames w' = chessGames w /\ ludoGames w' = ludoGames w
  /\ ticTacToeGames w' = ticTacToeGames w /\ unoGames w' = unoGames w
  /\ timers w' = timers w.
Proof. intros Hr. apply disconnect_keeps_matches. by apply reachable_ok. Qed.

(** C2, the code at the failing input: Alice takes part in one match of
    each variant and her authenticated (non-homepage) connection
    disconnects. No status is written, all four matches keep the status
    they had, and no deletion is deferred. *)
Theorem C2_disconnect_abandons_nothing :
  let s := Bridge.attach "sock-1" None "alice" "gamer" in
  let w' := on_disconnect s alice_everywhere in
  isHomepageUser s = false
  /\ Chess.players <$> chessGames alice_everywhere !! "1000" = Some ["alice"]
  /\ map Ludo.name <$> (Ludo.players <$> ludoGames alice_everywhere !! "ludo_1000")
     = Some ["alice"]
  /\ map Ttt.name <$> (Ttt.players <$> ticTacToeGames alice_everywhere !! "ttt_1000")
     = Some ["alice"; "bob"]
  /\ map Uno.name <$> (Uno.players <$> unoGames alice_everywhere !! "uno_1000")
     = Some ["alice"; "bob"]
  /\ Chess.status <$> chessGames w' !! "1000" = Some waiting
  /\ Ludo.status <$> ludoGames w' !! "ludo_1000" = Some waiting
  /\ Ttt.status <$> ticTacToeGames w' !! "ttt_1000" = Some playing
  /\ Uno.status <$> unoGames w' !! "uno_1000" = Some playing
  /\ timers w' = [].
Proof. cbv zeta. split_and!; vm_compute; reflexivity. Qed.

(** Writing a match leaves the status under every other id, and in every
    other container, as it was. *)
Ltac elsewhere_at v :=
  destruct v; cbn [status_at]; try done; simpl;
  rewrite lookup_insert_ne; [done|congruence].

Lemma status_at_put_chess v id id0 g w :
  (v, id) <> (VChess, id0) -> status_at v id (put_chess id0 g w) = status_at v id w.
Proof. intros Hne. elsewhere_at v. Qed.

Lemma status_at_put_ludo v id id0 g w :
  (v, id) <> (VLudo, id0) -> status_at v id (put_ludo id0 g w) = status_at v id w.
Proof. intros Hne. elsewhere_at v. Qed.

Lemma status_at_put_ttt v id id0 g w :
  (v, id) <> (VTtt, id0) -> status_at v id (put_ttt id0 g w) = status_at v id w.
Proof. intros Hne. elsewhere_at v. Qed.

Lemma status_at_put_uno v id id0 g w :
  (v, id) <> (VUno, id0) -> status_at v id (put_uno id0 g w) = status_at v id w.
Proof. intros Hne. elsewhere_at v. Qed.

Lemma status_at_filter {G} (st : G -> Status) (P : string * G -> Prop)
    `{!forall x, Decision (P x)} (m : gmap string G) (id : string) :
  st <$> filter P m !! id = st <$> m !! id \/ st <$> filter P m !! id = None.
Proof.
  destruct (filter P m !! id) as [g|] eqn:E; [|by right].
  apply map_lookup_filter_Some in E as [-> _]. by left.
Qed.

(** An event leaves alone the status of every match it does not name: the
    status stays, unless the match is gone. *)
Lemma apply_frame (e : Event) (w : World) (v : Variant) (id : string) :
  world_ok w -> target e <> Some (v, id) ->
  status_at v id (apply e w) = status_at v id w \/ status_at v id (apply e w) = None.
Proof.
  intros Hok Hne.
  set (P := fun w' => status_at v id w' = status_at v id w \/ status_at v id w' = None).
  assert (Hw : P w) by (by left).
  assert (Hresp : forall G (wrap : G -> AnyGame) put id0 (o : Outcome G) w0,
            P w0 -> (forall g, P (put id0 g w0)) -> P (world (respond wrap put w0 id0 o))).
  { intros G wrap put id0 o w0 H0 Hput. apply respond_step; [done|]. by destruct o. }
  change (P (apply e w)).
  destruct e; cbn [apply target] in *;
    unfold chess_create, chess_join, chess_move, ludo_create, ludo_join, ludo_start,
      ludo_roll, tictactoe_create, tictactoe_join, tictactoe_move, uno_create, uno_join,
      uno_play_card, uno_draw_card, ludo_move, not_found.
  - apply gated_step; [done|]. intros u. left. apply status_at_put_chess. simpl. congruence.
  - apply gated_step; [done|]. intros u. destruct (chessGames w !! _); [|done].
    apply Hresp; [done|]. intros g0. left. apply status_at_put_chess. congruence.
  - apply gated_step; [done|]. intros u. destruct (chessGames w !! _); [|done].
    apply Hresp; [done|]. intros g0. left. apply status_at_put_chess. congruence.
  - apply gated_step; [done|]. intros u. left. apply status_at_put_ludo. simpl. congruence.
  - apply gated_step; [done|]. intros u. destruct (ludoGames w !! _); [|done].
    apply Hresp; [done|]. intros g0. left. apply status_at_put_ludo. congruence.
  - apply gated_step; [done|]. intros u. destruct (ludoGames w !! _); [|done].
    apply Hresp; [done|]. intros g0. left. apply status_at_put_ludo. congruence.
  - apply gated_step; [done|]. intros u. destruct (ludoGames w !! _); [|done].
    destruct (Ludo.roll _ _ _) as [o d].
    assert (Hkept : forall ts, status_at v id (set_timers w ts) = status_at v id w)
      by (intros ts; by destruct v).
    apply Hresp; [destruct o; try done; left; apply Hkept|].
    intros g0. left. rewrite status_at_put_ludo by congruence. by destruct o.
  - destruct (ludoGames w !! _); [|done].
    destruct (Ludo.socket_move _ _ _ _) as [code msg| |gc|ga ev];
      [done|right; by destruct v|right; by destruct v|].
    left. apply status_at_put_ludo. congruence.
  - apply gated_step; [done|]. intros u. left. apply status_at_put_ttt. simpl. congruence.
  - apply gated_step; [done|]. intros u. destruct (ticTacToeGames w !! _); [|done].
    apply Hresp; [done|]. intros g0. left. apply status_at_put_ttt. congruence.
  - apply gated_step; [done|]. intros u. destruct (ticTacToeGames w !! _); [|done].
    apply Hresp; [done|]. intros g0. left. apply status_at_put_ttt. congruence.
  - apply gated_step; [done|]. intros u. left. apply status_at_put_uno. simpl. congruence.
  - apply gated_step; [done|]. intros u. destruct (unoGames w !! _); [|done].
    apply Hresp; [done|]. intros g0. left. apply status_at_put_uno. congruence.
  - apply gated_step; [done|]. intros u. destruct (unoGames w !! _); [|done].
    apply Hresp; [done|]. intros g0. left. apply status_at_put_uno. congruence.
  - apply gated_step; [done|]. intros u. destruct (unoGames w !! _); [|done].
    apply Hresp; [done|]. intros g0. left. apply status_at_put_uno. congruence.
  - left. unfold on_connection. destruct (isHomepageUser _); simpl;
      match goal with |- context [?a >? ?b] => destruct (a >? b) end; by destruct v.
  - match goal with |- context [on_disconnect (Bridge.attach ?a ?b ?c ?d)] =>
      destruct (disconnect_keeps_matches a b c d w Hok) as (Ec & El & Et & Eu & _) end.
    left. destruct v; cbn [status_at]; by rewrite ?Ec, ?El, ?Et, ?Eu.
  - unfold fire. destruct (timers w !! k) as [[delay t]|]; [|done].
    destruct t as [gid|gid|gid|gid|gid ri dr]; unfold P; cbn [run_task].
    1-4: destruct v; cbn [status_at]; simpl; try (by left);
      (destruct (decide (gid = id)) as [->|Hd];
       [right; by rewrite lookup_delete_eq|left; by rewrite lookup_delete_ne]).
    cbn [set_timers ludoGames]. destruct (ludoGames w !! gid) as [g|] eqn:Hg.
    + destruct v; cbn [status_at]; simpl; try (by left). left.
      destruct (decide (gid = id)) as [->|Hd].
      * rewrite lookup_insert_eq, Hg. simpl. f_equal.
        unfold Ludo.auto_advance. destruct (Js.nth _ ri); [|done].
        destruct (Ludo.getValidMoves _ _ _).
        -- by destruct (_ || _).
        -- by destruct (Ludo.isComputer _).
      * by rewrite lookup_insert_ne.
    + left. by destruct v.
  - unfold P, sweep_games. destruct v; cbn [status_at]; simpl; apply status_at_filter.
Qed.

(** C3, as the code has it: from a reachable world, whatever the event, the
    status of a match stored under an id before and after it is the same
    unless the event is a request that names this match. The status of the
    match a request names either follows the graph of the specification,
    or the request is the create of that variant and stored a new match in
    waiting, or the request is race start or card join and wrote playing
    whatever the status was. *)
Theorem C3_status_transitions (w : World) (e : Event) (v : Variant) (id : string)
    (s s' : Status) :
  reachable w ->
  status_at v id w = Some s ->
  status_at v id (apply e w) = Some s' ->
  (target e = Some (v, id) -> moves_on e v s s')
  /\ (target e <> Some (v, id) -> s' = s).
Proof.
  intros Hr Hs Hs'. pose proof (reachable_ok w Hr) as Hok. split.
  - intros _. destruct (apply_step e w Hok) as (_ & Hc & Hl & Ht & Hu).
    destruct v; cbn [status_at] in Hs, Hs'.
    + destruct (chessGames w !! id) as [g|] eqn:Hg; [|done].
      destruct (chessGames (apply e w) !! id) as [g'|] eqn:Hg'; [|done].
      injection Hs as <-. injection Hs' as <-. by eapply Hc.
    + destruct (ludoGames w !! id) as [g|] eqn:Hg; [|done].
      destruct (ludoGames (apply e w) !! id) as [g'|] eqn:Hg'; [|done].
      injection Hs as <-. injection Hs' as <-. by eapply Hl.
    + destruct (ticTacToeGames w !! id) as [g|] eqn:Hg; [|done].
      destruct (ticTacToeGames (apply e w) !! id) as [g'|] eqn:Hg'; [|done].
      injection Hs as <-. injection Hs' as <-. by eapply Ht.
    + destruct (unoGames w !! id) as [g|] eqn:Hg; [|done].
      destruct (unoGames (apply e w) !! id) as [g'|] eqn:Hg'; [|done].
      injection Hs as <-. injection Hs' as <-. by destruct (Hu id g g' Hg Hg').
  - intros Hne. destruct (apply_frame e w v id Hok Hne) as [E|E]; congruence.
Qed.

Lemma C3_witness :
  moves_on (LudoStart alice "ludo_1000" (Js.num 2) false None None) VLudo finished playing
  /\ status_at VLudo "ludo_1000" (apply (ChessCreate alice 2000) race_won) = Some finished.
Proof.
  assert (Hr : reachable race_won) by (apply run_reachable; constructor).
  split.
  - destruct (C3_status_transitions race_won
                (LudoStart alice "ludo_1000" (Js.num 2) false None None)
                VLudo "ludo_1000" finished playing Hr) as [Hnamed _].
    + vm_compute. reflexivity.
    + vm_compute. reflexivity.
    + apply Hnamed. reflexivity.
  - destruct (status_at VLudo "ludo_1000" (apply (ChessCreate alice 2000) race_won))
      as [s'|] eqn:E; [|by vm_compute in E].
    destruct (C3_status_transitions race_won (ChessCreate alice 2000)
                VLudo "ludo_1000" finished s' Hr) as [_ Hother].
    + vm_compute. reflexivity.
    + exact E.
    + f_equal. apply Hother. discriminate.
Defined.

(** A race match that was won is set back to playing by start. *)
Lemma C3_counterexample :
  reachable race_won
  /\ Ludo.status <$> ludoGames race_won !! "ludo_1000" = Some finished
  /\ Ludo.status <$>
       ludoGames (apply (LudoStart alice "ludo_1000" (Js.num 2) false None None) race_won) !! "ludo_1000"
     = Some playing
  /\ ~ graph finished playing.
Proof.
  split; [apply run_reachable; constructor|].
  split; [vm_compute; reflexivity|].
  split; [vm_compute; reflexivity|].
  unfold graph. intros [H|[[H _]|[[H _]|[H _]]]]; discriminate.
Qed.

Lemma sweep_lookup {G} (P : string * G -> Prop) `{!forall x, Decision (P x)}
    (m : gmap string G) id g :
  m !! id = Some g -> (filter (fun kv => ~ P kv) m !! id = None <-> P (id, g)).
Proof.
  intros Hg. rewrite map_lookup_filter_None. split.
  - intros [Hn|Hall]; [congruence|]. specialize (Hall g Hg). simpl in Hall.
    by destruct (decide (P (id, g))).
  - intros HP. right. intros g' Hg'. simplify_eq. simpl. tauto.
Qed.

(** The deletions as they are written: a deferred task that fires runs its
    callback; the callback of a deferred deletion removes the match stored
    under its id without reading its status; the periodic sweep removes a
    match if and only if the match is abandoned and was created more than
    300000 ms before. *)
Lemma deletions_as_written :
  (forall w k delay t,
     timers w !! k = Some (delay, t) ->
     fire k w = run_task t (set_timers w (delete k (timers w))))
  /\ (forall w id,
        chessGames (run_task (DeleteChess id) w) !! id = None
        /\ ludoGames (run_task (DeleteLudo id) w) !! id = None
        /\ ticTacToeGames (run_task (DeleteTtt id) w) !! id = None
        /\ unoGames (run_task (DeleteUno id) w) !! id = None)
  /\ (forall now w id,
        (forall g, chessGames w !! id = Some g ->
           (chessGames (sweep_games now w) !! id = None
            <-> Chess.status g = abandoned /\ Chess.createdAt g < now - 300000))
        /\ (forall g, ludoGames w !! id = Some g ->
              (ludoGames (sweep_games now w) !! id = None
               <-> Ludo.status g = abandoned /\ Ludo.createdAt g < now - 300000))
        /\ (forall g, ticTacToeGames w !! id = Some g ->
              (ticTacToeGames (sweep_games now w) !! id = None
               <-> Ttt.status g = abandoned /\ Ttt.createdAt g < now - 300000))
        /\ (forall g, unoGames w !! id = Some g ->
              (unoGames (sweep_games now w) !! id = None
               <-> Uno.status g = abandoned /\ Uno.createdAt g < now - 300000))).
Proof.
  split_and!.
  - intros w k delay t Hk. unfold fire. by rewrite Hk.
  - intros w id. simpl. by rewrite !lookup_delete_eq.
  - intros now w id. simpl. split_and!; intros g Hg.
    + apply (sweep_lookup (fun kv => Chess.status kv.2 = abandoned
                                     /\ Chess.createdAt kv.2 < now - 300000) _ _ _ Hg).
    + apply (sweep_lookup (fun kv => Ludo.status kv.2 = abandoned
                                     /\ Ludo.createdAt kv.2 < now - 300000) _ _ _ Hg).
    + apply (sweep_lookup (fun kv => Ttt.status kv.2 = abandoned
                                     /\ Ttt.createdAt kv.2 < now - 300000) _ _ _ Hg).
    + apply (sweep_lookup (fun kv => Uno.status kv.2 = abandoned
                                     /\ Uno.createdAt kv.2 < now - 300000) _ _ _ Hg).
Qed.

(** ** Session bridge *)


Lemma no_cookie_in_empty_header : Bridge.parse_cookies "" !! "sid" = None.
Proof. vm_compute. reflexivity. Qed.

(** Admission, when it happens, is for the reasons the specification gives. *)
Lemma middleware_admits decode store h u r :
  Bridge.middleware decode store h = Bridge.Granted u r <->
  exists header raw sidCookie usr,
    h = Some header /\ Bridge.parse_cookies header !! "sid" = Some raw /\ raw <> ""
    /\ decode raw = Some sidCookie /\ String.prefix "s:" sidCookie = true
    /\ Bridge.session_id sidCookie <> ""
    /\ store (Bridge.session_id sidCookie) = Bridge.Session (Some usr)
    /\ u = username usr /\ r = role usr.
Proof.
  unfold Bridge.middleware. split.
  - destruct h as [header|]; [|done].
    destruct (String.eqb_spec header ""); [done|].
    destruct (Bridge.parse_cookies header !! "sid") as [raw|] eqn:Hraw; [|done].
    destruct (String.eqb_spec raw ""); [done|].
    destruct (decode raw) as [sidCookie|] eqn:Hd; [|done].
    destruct (String.prefix "s:" sidCookie) eqn:Hp; [|done]. simpl.
    destruct (String.eqb_spec (Bridge.session_id sidCookie) ""); [done|].
    destruct (store _) as [| |[usr|]] eqn:Hs; try done.
    intros [= <- <-]. by exists header, raw, sidCookie, usr.
  - intros (header & raw & sidCookie & usr & -> & Hraw & Hne & Hd & Hp & Hid & Hs & -> & ->).
    destruct (String.eqb_spec header "") as [->|_].
    { by rewrite no_cookie_in_empty_header in Hraw. }
    rewrite Hraw. destruct (String.eqb_spec raw ""); [done|].
    rewrite Hd, Hp. simpl. destruct (String.eqb_spec (Bridge.session_id sidCookie) ""); [done|].
    by rewrite Hs.
Qed.

(** A refusal carries one of the five reasons. *)
Lemma middleware_refuses decode store h reason :
  Bridge.middleware decode store h = Bridge.Refused reason -> In reason refusals.
Proof.
  unfold Bridge.middleware, refusals.
  destruct h as [header|]; [|intros [= <-]; simpl; tauto].
  destruct (String.eqb header ""); [intros [= <-]; simpl; tauto|].
  destruct (Bridge.parse_cookies header !! "sid") as [raw|]; [|intros [= <-]; simpl; tauto].
  destruct (String.eqb raw ""); [intros [= <-]; simpl; tauto|].
  destruct (decode raw) as [sidCookie|]; [|done].
  destruct (negb _); [intros [= <-]; simpl; tauto|].
  destruct (String.eqb _ ""); [intros [= <-]; simpl; tauto|].
  destruct (store _) as [| |[usr|]]; try done; intros [= <-]; simpl; tauto.
Qed.

(** C5, the code at the failing input: with the cookie header [sid=%] the
    decoding of the cookie value throws, as [decodeURIComponent] does on a
    malformed escape, and the middleware ends without admitting the
    connection and without refusing it with a reason. *)
Theorem C5_malformed_escape_gets_no_reason
    (decodeURIComponent : string -> option string) (sessionStore_get : string -> Bridge.Lookup) :
  decodeURIComponent "%" = None ->
  Bridge.middleware decodeURIComponent sessionStore_get (Some "sid=%") = Bridge.Raised.
Proof.
  intros Hd. unfold Bridge.middleware.
  assert (Hc : Bridge.parse_cookies "sid=%" !! "sid" = Some "%") by (vm_compute; reflexivity).
  rewrite Hc. simpl. by rewrite Hd.
Qed.

Lemma C5_witness :
  Bridge.middleware Bridge.decode_ascii (fun _ => Bridge.NoSession) (Some "sid=%")
  = Bridge.Raised.
Proof. apply C5_malformed_escape_gets_no_reason. reflexivity. Defined.

(** ** Connection manager *)

(** C9: when admitting a connection takes the active-connection counter
    over the ceiling of 300, the socket is sent [server-overload] with
    [retryAfter = 30000], is disconnected before its handlers are
    registered, and the world, with its three counters, is as before the
    admission. *)
Theorem C9_overload_is_rolled_back (s : Socket) (w : World) :
  activeConnections w + 1 > maxConnections ->
  on_connection s w
  = mkConnected w
      [EmitServerOverload "Server at capacity, please try again in a few moments" 30000;
       Disconnect]
      false.
Proof.
  intros Hfull. unfold on_connection. destruct w as [c l t u ts a h au].
  simpl in *. destruct (isHomepageUser s); simpl.
  - destruct (Z.gtb_spec (a + 1) maxConnections); [|lia].
    unfold set_counters; simpl. do 2 f_equal; lia.
  - destruct (Z.gtb_spec (a + 1) maxConnections); [|lia].
    unfold set_counters; simpl. do 2 f_equal; lia.
Qed.


Lemma C9_witness :
  conn_world (on_connection (Bridge.attach "sock-301" None "carol" "viewer") crowded) = crowded
  /\ conn_effects (on_connection (Bridge.attach "sock-301" None "carol" "viewer") crowded)
     = [EmitServerOverload "Server at capacity, please try again in a few moments" 30000;
        Disconnect].
Proof.
  rewrite (C9_overload_is_rolled_back (Bridge.attach "sock-301" None "carol" "viewer") crowded).
  - split; reflexivity.
  - unfold maxConnections. simpl. lia.
Defined.

(** ** Card play with a negative index *)

(** The index test of the card-play endpoint refuses exactly the indexes
    from the hand length on. *)
Lemma invalid_card_index su gameId cardIndex chosenColor w :
  response (uno_play_card su gameId cardIndex chosenColor w) = Failure 400 "Invalid card index"
  <-> exists u g p, su = Some u /\ role u = "gamer" /\ unoGames w !! gameId = Some g
        /\ Js.nth (Uno.players g) (Uno.currentPlayerIndex g) = Some p
        /\ Uno.name p = username u /\ cardIndex >= Js.len (Uno.hand p).
Proof.
  unfold uno_play_card, gated, not_found. split.
  - destruct su as [u|]; [|done]. destruct (String.eqb_spec (role u) "gamer"); [|done]. simpl.
    destruct (unoGames w !! gameId) as [g|] eqn:Hg; [|done].
    unfold Uno.play_card.
    destruct (Js.nth (Uno.players g) _) as [p|] eqn:Hp; [|done].
    destruct (String.eqb_spec (Uno.name p) (username u)); [|done]. simpl.
    destruct (Z.geb_spec cardIndex (Js.len (Uno.hand p))) as [Hge|_].
    + intros _. exists u, g, p. split_and!; try done. lia.
    + destruct (Js.nth (Uno.hand p) cardIndex); [|done].
      destruct (negb _); [done|]. simpl.
      destruct (Uno.processUNOCardEffect _ _); done.
  - intros (u & g & p & -> & Hr & -> & Hp & Hn & Hge). rewrite Hr. simpl.
    unfold Uno.play_card. rewrite Hp, Hn, String.eqb_refl. simpl.
    destruct (Z.geb_spec cardIndex (Js.len (Uno.hand p))); [done|lia].
Qed.

(** C10: the index test of the card-play endpoint refuses with "Invalid
    card index" exactly the requests whose index is at least the hand length
    of the player whose turn it is; for a negative index that test passes,
    the hand lookup yields no card, the play is not performed (the request
    is never answered with success) and the world, hence every match, is
    left as it was, with nothing emitted. *)
Theorem C10_negative_card_index su gameId chosenColor w :
  (forall cardIndex,
     response (uno_play_card su gameId cardIndex chosenColor w)
     = Failure 400 "Invalid card index"
     <-> exists u g p, su = Some u /\ role u = "gamer" /\ unoGames w !! gameId = Some g
           /\ Js.nth (Uno.players g) (Uno.currentPlayerIndex g) = Some p
           /\ Uno.name p = username u /\ cardIndex >= Js.len (Uno.hand p))
  /\ (forall cardIndex,
        cardIndex < 0 ->
        let r := uno_play_card su gameId cardIndex chosenColor w in
        (forall g p, unoGames w !! gameId = Some g ->
           Js.nth (Uno.players g) (Uno.currentPlayerIndex g) = Some p ->
           (cardIndex >=? Js.len (Uno.hand p)) = false
           /\ Js.nth (Uno.hand p) cardIndex = None)
        /\ response r <> Failure 400 "Invalid card index"
        /\ (forall body, response r <> Success body)
        /\ world r = w /\ emitted r = []).
Proof.
  split; [intros cardIndex; apply invalid_card_index|].
  intros cardIndex Hneg. cbv zeta. split.
  - intros g p _ _. split; [|by apply nth_negative].
    destruct (Z.geb_spec cardIndex (Js.len (Uno.hand p))) as [Hge|_]; [|done].
    unfold Js.len in Hge. lia.
  - unfold uno_play_card, gated, not_found.
    destruct su as [u|]; [|done]. destruct (negb _); [done|].
    destruct (unoGames w !! gameId) as [g|]; [|done].
    unfold Uno.play_card.
    destruct (Js.nth (Uno.players g) _) as [p|]; [|done].
    destruct (negb _); [done|].
    destruct (Z.geb_spec cardIndex (Js.len (Uno.hand p))) as [Hge|_].
    { unfold Js.len in Hge. lia. }
    by rewrite (nth_negative _ _ Hneg).
Qed.

Lemma C10_witness :
  response (uno_play_card alice "uno_1000" (-1) None (dealt still_draws)) = ServerError
  /\ world (uno_play_card alice "uno_1000" (-1) None (dealt still_draws)) = dealt still_draws
  /\ emitted (uno_play_card alice "uno_1000" (-1) None (dealt still_draws)) = [].
Proof.
  destruct (C10_negative_card_index alice "uno_1000" None (dealt still_draws)) as [_ Hneg].
  destruct (Hneg (-1)) as (_ & _ & _ & Hw & He).
  - lia.
  - split; [vm_compute; reflexivity|]. split; assumption.
Defined.




(** ** Action endpoints *)

Lemma gated_cleanly su w gameId stored k :
  (forall u, answered_cleanly w gameId stored (k u)) ->
  answered_cleanly w gameId stored (gated su w k).
Proof.
  intros Hk. unfold gated. destruct su as [u|]; [|done]. destruct (negb _); [done|apply Hk].
Qed.

Lemma respond_cleanly {G} (wrap : G -> AnyGame) put (get : World -> gmap string G) w gameId o :
  (forall g w0, get (put gameId g w0) !! gameId = Some g) ->
  match o with Crashed _ => False | _ => True end ->
  answered_cleanly w gameId (fun w' => wrap <$> get w' !! gameId) (respond wrap put w gameId o).
Proof.
  intros Hget Ho. unfold answered_cleanly. destruct o as [c m| |g|g ev]; simpl; try done.
  split; [by exists ev|]. by rewrite Hget.
Qed.

Lemma get_put_chess g gameId w : chessGames (put_chess gameId g w) !! gameId = Some g.
Proof. apply lookup_insert_eq. Qed.
Lemma get_put_ludo g gameId w : ludoGames (put_ludo gameId g w) !! gameId = Some g.
Proof. apply lookup_insert_eq. Qed.
Lemma get_put_ttt g gameId w : ticTacToeGames (put_ttt gameId g w) !! gameId = Some g.
Proof. apply lookup_insert_eq. Qed.
Lemma get_put_uno g gameId w : unoGames (put_uno gameId g w) !! gameId = Some g.
Proof. apply lookup_insert_eq. Qed.

(** With the deck drawn out it is Bob's turn: his draw2 is accepted, a card
    of Alice is refused. *)
Example bob_plays_and_alice_waits :
  (exists body, response (uno_play_card bob "uno_1000" 1 None deck_drawn_out) = Success body)
  /\ response (uno_play_card alice "uno_1000" 1 None deck_drawn_out)
     = Failure 400 "Not your turn".
Proof. split; [eexists|]; vm_compute; reflexivity. Qed.

(** ** Reshuffling *)

Lemma effect_keeps_discard g card g' :
  Uno.processUNOCardEffect g card = Some g' ->
  Uno.discardPile g' = Uno.discardPile g
  /\ (Uno.deck g = [] -> Uno.deck g' = [] /\ Uno.players g' = Uno.players g).
Proof.
  unfold Uno.processUNOCardEffect.
  assert (Hf : forall n next g1, Uno.forced_draw n g next = Some g1 ->
            Uno.discardPile g1 = Uno.discardPile g
            /\ (Uno.deck g = [] -> Uno.deck g1 = [] /\ Uno.players g1 = Uno.players g)).
  { intros n next g1. unfold Uno.forced_draw.
    destruct (Z.gtb_spec (Js.len (Uno.deck g)) 0) as [Hd|Hd].
    - destruct (Js.nth _ next) as [p|]; [|done].
      destruct (Uno.draw_while _ _ _) as [h d]. intros [= <-]. simpl. split; [done|].
      intros Hnil. rewrite Hnil in Hd. unfold Js.len in Hd. simpl in Hd. lia.
    - intros [= <-]. by split. }
  destruct (String.eqb _ "skip"); [by intros [= <-]|].
  destruct (String.eqb _ "reverse").
  { simpl. destruct (_ =? 2); by intros [= <-]. }
  destruct (String.eqb _ "draw2").
  { destruct (Uno.forced_draw 2 _ _) as [g1|] eqn:E; [|done]. intros [= <-]. simpl.
    by apply (Hf _ _ _ E). }
  destruct (String.eqb _ "wild4").
  { destruct (Uno.forced_draw 4 _ _) as [g1|] eqn:E; [|done]. intros [= <-]. simpl.
    by apply (Hf _ _ _ E). }
  by intros [= <-].
Qed.

(** C7, as the code has it: a draw-card action on an empty deck reshuffles
    the discard pile without its top card into the deck, keeps the top card
    as the discard pile and then draws, when the pile has more than one
    card; with at most one card it changes nothing. The effect of a played
    card never touches the discard pile, and on an empty deck it draws
    nothing: the forced draws of draw2 and wild4 do not reshuffle. *)
Theorem C7_reshuffle_on_draw_card_only :
  (forall rs u g p,
     Js.nth (Uno.players g) (Uno.currentPlayerIndex g) = Some p -> Uno.name p = u ->
     Uno.deck g = [] -> 1 < Js.len (Uno.discardPile g) ->
     exists top rest c d' g',
       Uno.discardPile g = rest ++ [top]
       /\ Uno.shuffleArray rs rest = d' ++ [c] /\ rest ≡ₚ d' ++ [c]
       /\ Uno.draw_card rs u g = Accepted g' "uno-card-drawn"
       /\ Uno.discardPile g' = [top] /\ Uno.deck g' = d'
       /\ Js.nth (Uno.players g') (Uno.currentPlayerIndex g)
          = Some (Uno.set_hand p (Uno.hand p ++ [c])))
  /\ (forall rs u g p,
        Js.nth (Uno.players g) (Uno.currentPlayerIndex g) = Some p -> Uno.name p = u ->
        Uno.deck g = [] -> Js.len (Uno.discardPile g) <= 1 ->
        Uno.draw_card rs u g = Accepted g "uno-card-drawn")
  /\ (forall g card g',
        Uno.processUNOCardEffect g card = Some g' ->
        Uno.discardPile g' = Uno.discardPile g
        /\ (Uno.deck g = [] -> Uno.deck g' = [] /\ Uno.players g' = Uno.players g)).
Proof.
  split_and!.
  - intros rs u g p Hp Hn Hdk Hdp. unfold Uno.draw_card. rewrite Hp, Hn, String.eqb_refl.
    simpl. rewrite Hdk. simpl.
    destruct (reshuffle_spec rs g Hdk) as (_ & Hpl & _ & _ & _ & Hi & _ & Hre).
    destruct (Hre Hdp) as (top & rest & Hd & Hd1 & Hk1).
    pose proof (shuffleArray_perm rs rest) as Hperm.
    destruct (pop_cases (Uno.shuffleArray rs rest)) as [[Hnil _]|(d' & c & Hsh & Hpop)].
    { rewrite Hnil in Hperm. apply Permutation_nil_l in Hperm. subst rest.
      rewrite Hd in Hdp. unfold Js.len in Hdp. simpl in Hdp. lia. }
    rewrite Hk1, Hpop, Hpl, Hi.
    eexists top, rest, c, d', _. split_and!; try done.
    + by rewrite <- Hsh.
    + simpl. apply nth_Some in Hp as [Hr Hp]. unfold Js.nth.
      destruct (Z.ltb_spec (Uno.currentPlayerIndex g) 0); [lia|].
      apply list_lookup_insert_eq. by eapply lookup_lt_Some.
  - intros rs u g p Hp Hn Hdk Hdp. unfold Uno.draw_card. rewrite Hp, Hn, String.eqb_refl.
    simpl. rewrite Hdk. simpl.
    destruct (reshuffle_spec rs g Hdk) as (_ & _ & _ & _ & _ & _ & Hsame & _).
    rewrite (Hsame Hdp), Hdk. done.
  - apply effect_keeps_discard.
Qed.




Lemma C7_witness :
  (exists top rest c d' g',
     Uno.discardPile on_empty_deck = rest ++ [top]
     /\ Uno.shuffleArray [] rest = d' ++ [c] /\ rest ≡ₚ d' ++ [c]
     /\ Uno.draw_card [] "alice" on_empty_deck = Accepted g' "uno-card-drawn"
     /\ Uno.discardPile g' = [top] /\ Uno.deck g' = d'
     /\ Js.nth (Uno.players g') (Uno.currentPlayerIndex on_empty_deck)
        = Some (Uno.set_hand (Uno.mkPlayer "alice"
                   [Uno.mkCard "red" "draw2" "special"; Uno.mkCard "blue" "7" "number"]
                   false None)
                  ([Uno.mkCard "red" "draw2" "special"; Uno.mkCard "blue" "7" "number"] ++ [c])))
  /\ Uno.draw_card [] "alice" on_bare_table = Accepted on_bare_table "uno-card-drawn"
  /\ (exists g', Uno.processUNOCardEffect on_empty_deck (Uno.mkCard "red" "draw2" "special")
                 = Some g'
        /\ Uno.discardPile g' = Uno.discardPile on_empty_deck
        /\ Uno.deck g' = [] /\ Uno.players g' = Uno.players on_empty_deck).
Proof.
  destruct C7_reshuffle_on_draw_card_only as (Hre & Hbare & Heff).
  split; [|split].
  - apply (Hre [] "alice" on_empty_deck).
    + reflexivity.
    + reflexivity.
    + reflexivity.
    + unfold Js.len. simpl. lia.
  - apply (Hbare [] "alice" on_bare_table
             (Uno.mkPlayer "alice"
                [Uno.mkCard "red" "draw2" "special"; Uno.mkCard "blue" "7" "number"]
                false None)).
    + reflexivity.
    + reflexivity.
    + reflexivity.
    + unfold Js.len. simpl. lia.
  - eexists. split; [vm_compute; reflexivity|].
    destruct (Heff on_empty_deck (Uno.mkCard "red" "draw2" "special") _ eq_refl) as [Hd Hk].
    split; [exact Hd|]. apply Hk. reflexivity.
Defined.

(** Bob plays a draw2 on an empty deck: the discard pile keeps both its
    cards, the deck stays empty and Alice draws nothing. *)
Lemma C7_counterexample :
  reachable deck_drawn_out
  /\ Uno.deck <$> unoGames deck_drawn_out !! "uno_1000" = Some []
  /\ Uno.discardPile <$> unoGames deck_drawn_out !! "uno_1000"
     = Some [Uno.mkCard "green" "draw2" "special"]
  /\ map (fun p => length (Uno.hand p)) <$>
       (Uno.players <$> unoGames deck_drawn_out !! "uno_1000") = Some [54%nat; 53%nat]
  /\ (let w' := world (uno_play_card bob "uno_1000" 1 None deck_drawn_out) in
      emitted (uno_play_card bob "uno_1000" 1 None deck_drawn_out)
      = [mkBroadcast "gaming-room" "uno-card-played" "uno_1000"
           (GUno (the_uno w' "uno_1000"))]
      /\ Uno.deck <$> unoGames w' !! "uno_1000" = Some []
      /\ Uno.discardPile <$> unoGames w' !! "uno_1000"
         = Some [Uno.mkCard "green" "draw2" "special"; Uno.mkCard "yellow" "draw2" "special"]
      /\ map (fun p => length (Uno.hand p)) <$>
           (Uno.players <$> unoGames w' !! "uno_1000") = Some [54%nat; 52%nat]).
Proof.
  split; [apply run_reachable; apply run_reachable; constructor|].
  cbv zeta. split_and!; vm_compute; reflexivity.
Qed.


(** ** Caches *)

Section CacheFacts.

Context {V : Type}.
Implicit Types (m : Cache.JsMap V) (c : Cache.Caches V).

Lemma map_get_set_same m key e : Cache.map_get (Cache.map_set m key e) key = Some e.
Proof.
  induction m as [|[k e0] m IH]; simpl.
  - by rewrite String.eqb_refl.
  - destruct (String.eqb_spec k key) as [->|Hne]; simpl.
    + by rewrite String.eqb_refl.
    + by destruct (String.eqb_spec k key).
Qed.

Lemma map_get_delete_ne m k key :
  k <> key -> Cache.map_get (Cache.map_delete m k) key = Cache.map_get m key.
Proof.
  intros Hne. unfold Cache.map_delete. induction m as [|[k0 e0] m IH]; simpl; [done|].
  destruct (String.eqb_spec k0 k) as [->|Hk]; simpl.
  - by destruct (String.eqb_spec k key).
  - by rewrite IH.
Qed.

Lemma map_delete_len m k : Js.len (Cache.map_delete m k) <= Js.len m.
Proof.
  unfold Js.len, Cache.map_delete. pose proof (List.filter_length_le
    (fun kv : string * Cache.Entry V => negb (String.eqb (fst kv) k)) m). lia.
Qed.

Lemma map_set_known m key e e0 :
  Cache.map_get m key = Some e0 -> Js.len (Cache.map_set m key e) = Js.len m.
Proof.
  unfold Js.len. induction m as [|[k e1] m IH]; simpl; [done|].
  destruct (String.eqb_spec k key); simpl; [done|]. intros Hg. specialize (IH Hg). lia.
Qed.

Lemma map_set_new m key e :
  Cache.map_get m key = None ->
  Js.len (Cache.map_set m key e) = Js.len m + 1
  /\ (forall k0 e0 m0, m = (k0, e0) :: m0 ->
        exists m1, Cache.map_set m key e = (k0, e0) :: m1 /\ k0 <> key).
Proof.
  unfold Js.len. induction m as [|[k e1] m IH]; simpl.
  - intros _. split; [lia|]. by intros.
  - destruct (String.eqb_spec k key) as [|Hne]; [done|]. intros Hg.
    destruct (IH Hg) as [Hl _]. split; [simpl; lia|].
    intros k0 e0 m0 [= <- <- <-]. by eexists.
Qed.

Lemma write_len bound now m key d :
  0 <= bound -> Js.len m <= bound -> Js.len (Cache.write bound now m key d) <= bound.
Proof.
  intros Hb Hm. unfold Cache.write.
  destruct (Z.gtb_spec (Js.len (Cache.map_set m key (Cache.mkEntry d now))) bound) as [Hgt|]; [|done].
  destruct (Cache.map_get m key) as [e0|] eqn:Hg.
  { rewrite (map_set_known _ _ _ _ Hg) in Hgt. lia. }
  destruct (map_set_new m key (Cache.mkEntry d now) Hg) as [Hl _].
  destruct (Cache.map_set m key (Cache.mkEntry d now)) as [|[k0 e0] m1] eqn:Hs; simpl.
  { unfold Js.len. simpl. lia. }
  rewrite String.eqb_refl. simpl.
  pose proof (map_delete_len m1 k0) as Hd.
  change (List.filter _ m1) with (Cache.map_delete m1 k0).
  unfold Js.len in Hl. simpl in Hl. unfold Js.len in *. lia.
Qed.

Lemma read_after_write bound ttl now m key d :
  1 <= bound -> 0 < ttl -> Js.len m <= bound ->
  Cache.read ttl now (Cache.write bound now m key d) key = Some d.
Proof.
  intros Hb Httl Hm. unfold Cache.read, Cache.write.
  assert (Hget : Cache.map_get
            (if Js.len (Cache.map_set m key (Cache.mkEntry d now)) >? bound
             then Cache.delete_first (Cache.map_set m key (Cache.mkEntry d now))
             else Cache.map_set m key (Cache.mkEntry d now)) key
          = Some (Cache.mkEntry d now)).
  { destruct (Z.gtb_spec (Js.len (Cache.map_set m key (Cache.mkEntry d now))) bound) as [Hgt|];
      [|apply map_get_set_same].
    destruct (Cache.map_get m key) as [e0|] eqn:Hg.
    { rewrite (map_set_known _ _ _ _ Hg) in Hgt. lia. }
    destruct (map_set_new m key (Cache.mkEntry d now) Hg) as [Hl Hhd].
    destruct m as [|[k0 e0] m0].
    { unfold Js.len in *. simpl in *. lia. }
    destruct (Hhd k0 e0 m0 eq_refl) as (m1 & Hs & Hne).
    pose proof (map_get_set_same ((k0, e0) :: m0) key (Cache.mkEntry d now)) as Hsame.
    rewrite Hs in *. unfold Cache.delete_first. by rewrite map_get_delete_ne. }
  rewrite Hget. simpl. destruct (Z.ltb_spec (now - now) ttl); [done|lia].
Qed.

Lemma reachable_bounded c :
  Cache.reachable c ->
  Js.len (Cache.dataCache c) <= 50 /\ Js.len (Cache.homepageCache c) <= 20.
Proof.
  induction 1 as [|now key d c _ [IH1 IH2]|now key d c _ [IH1 IH2]
                 |type fy c _ [IH1 IH2]|now c _ [IH1 IH2]]; simpl.
  - unfold Js.len. simpl. lia.
  - split; [by apply write_len|done].
  - split; [done|by apply write_len].
  - pose proof (map_delete_len (Cache.dataCache c) (type +:+ "-" +:+ fy)).
    pose proof (map_delete_len (Cache.map_delete (Cache.dataCache c) (type +:+ "-" +:+ fy))
                  ("dashboard-overview-" +:+ fy)).
    pose proof (map_delete_len (Cache.homepageCache c) ("public-" +:+ type +:+ "-" +:+ fy)).
    lia.
  - pose proof (List.filter_length_le
      (fun kv : string * Cache.Entry V =>
         negb (Cache.timestamp kv.2 <? now - Cache.CACHE_DURATION)) (Cache.dataCache c)).
    pose proof (List.filter_length_le
      (fun kv : string * Cache.Entry V =>
         negb (Cache.timestamp kv.2 <? now - Cache.HOMEPAGE_CACHE_DURATION))
      (Cache.homepageCache c)).
    unfold Js.len in *. lia.
Qed.

Lemma read_spec ttl now m key :
  Cache.read ttl now m key
  = match Cache.map_get m key with
    | Some e => if now - Cache.timestamp e <? ttl then Some (Cache.data e) else None
    | None => None
    end.
Proof. reflexivity. Qed.

End CacheFacts.

(** C8: for the caches the server can hold, in both tiers a value set under
    a key is what a get of that key at the same instant returns; a get
    returns a value exactly when the key has an entry with that value whose
    age [now - timestamp] is below the tier's TTL (60000 ms and 30000 ms),
    and nothing otherwise; a get leaves both caches as they were. *)
Theorem C8_cache_read_after_write {V : Type} (c : Cache.Caches V) :
  Cache.reachable c ->
  (forall now key d,
     fst (Cache.getCachedData now key (Cache.setCachedData now key d c)) = Some d
     /\ fst (Cache.getHomepageCachedData now key (Cache.setHomepageCachedData now key d c))
        = Some d)
  /\ (forall now key v,
        fst (Cache.getCachedData now key c) = Some v
        <-> exists e, Cache.map_get (Cache.dataCache c) key = Some e
              /\ Cache.data e = v /\ now - Cache.timestamp e < 60000)
  /\ (forall now key v,
        fst (Cache.getHomepageCachedData now key c) = Some v
        <-> exists e, Cache.map_get (Cache.homepageCache c) key = Some e
              /\ Cache.data e = v /\ now - Cache.timestamp e < 30000)
  /\ (forall now key,
        snd (Cache.getCachedData now key c) = c
        /\ snd (Cache.getHomepageCachedData now key c) = c).
Proof.
  intros Hr. destruct (reachable_bounded c Hr) as [Hd Hh]. split_and!.
  - intros now key d. simpl. split; apply read_after_write; try done; lia.
  - intros now key v. simpl. unfold Cache.read, Cache.CACHE_DURATION.
    destruct (Cache.map_get (Cache.dataCache c) key) as [e|]; split.
    + destruct (Z.ltb_spec (now - Cache.timestamp e) 60000); [|done].
      intros [= <-]. by exists e.
    + intros (e' & [= <-] & <- & Hlt).
      destruct (Z.ltb_spec (now - Cache.timestamp e) 60000); [done|lia].
    + done.
    + by intros (e' & He & _).
  - intros now key v. simpl. unfold Cache.read, Cache.HOMEPAGE_CACHE_DURATION.
    destruct (Cache.map_get (Cache.homepageCache c) key) as [e|]; split.
    + destruct (Z.ltb_spec (now - Cache.timestamp e) 30000); [|done].
      intros [= <-]. by exists e.
    + intros (e' & [= <-] & <- & Hlt).
      destruct (Z.ltb_spec (now - Cache.timestamp e) 30000); [done|lia].
    + done.
    + by intros (e' & He & _).
  - intros now key. by split.
Qed.

Lemma C8_witness :
  fst (Cache.getCachedData 5000 "supply-2024"
         (Cache.setCachedData 5000 "supply-2024" "rows" (Cache.mkCaches [] [])))
  = Some "rows"
  /\ fst (Cache.getHomepageCachedData 5000 "public-supply-2024"
            (Cache.setHomepageCachedData 5000 "public-supply-2024" "rows" (Cache.mkCaches [] [])))
     = Some "rows".
Proof.
  destruct (C8_cache_read_after_write (V := string) (Cache.mkCaches [] [])) as (Hset & _).
  - constructor.
  - split.
    + apply (Hset 5000 "supply-2024" "rows").
    + apply (Hset 5000 "public-supply-2024" "rows").
Defined.

(** * Further properties of the code *)

(** ** Induction over the matches of reachable worlds *)

Lemma origins_sub w w' :
  (forall id g, chessGames w' !! id = Some g -> chessGames w !! id = Some g) ->
  (forall id g, ludoGames w' !! id = Some g -> ludoGames w !! id = Some g) ->
  (forall id g, ticTacToeGames w' !! id = Some g -> ticTacToeGames w !! id = Some g) ->
  (forall id g, unoGames w' !! id = Some g -> unoGames w !! id = Some g) ->
  origins w w'.
Proof.
  intros Sc Sl St Su. unfold origins. split_and!; intros id g Hg; left; auto.
Qed.

Lemma origins_refl w : origins w w.
Proof. by apply origins_sub. Qed.

Lemma origins_from w0 w w' :
  chessGames w0 = chessGames w -> ludoGames w0 = ludoGames w ->
  ticTacToeGames w0 = ticTacToeGames w -> unoGames w0 = unoGames w ->
  origins w0 w' -> origins w w'.
Proof.
  unfold origins, chess_origin, ludo_origin, ttt_origin, uno_origin. by intros -> -> -> ->.
Qed.

Ltac origin_at id Hin :=
  let i := fresh "i" in
  let Hl := fresh "Hl" in
  intros i ? Hl; destruct (decide (id = i)) as [<-|?];
  [ rewrite lookup_insert_eq in Hl; injection Hl as <-; exact Hin
  | rewrite lookup_insert_ne in Hl by done; by left ].

Lemma put_chess_origin w id g' : chess_origin w id g' -> origins w (put_chess id g' w).
Proof.
  intros Hin. unfold origins. simpl.
  split_and!; [origin_at id Hin | by left | by left | by left].
Qed.

Lemma put_ludo_origin w id g' : ludo_origin w id g' -> origins w (put_ludo id g' w).
Proof.
  intros Hin. unfold origins. simpl.
  split_and!; [by left | origin_at id Hin | by left | by left].
Qed.

Lemma put_ttt_origin w id g' : ttt_origin w id g' -> origins w (put_ttt id g' w).
Proof.
  intros Hin. unfold origins. simpl.
  split_and!; [by left | by left | origin_at id Hin | by left].
Qed.

Lemma put_uno_origin w id g' : uno_origin w id g' -> origins w (put_uno id g' w).
Proof.
  intros Hin. unfold origins. simpl.
  split_and!; [by left | by left | by left | origin_at id Hin].
Qed.

Lemma apply_origins e w : world_ok w -> origins w (apply e w).
Proof.
  intros Hok. pose proof Hok as (Hc & Hl & Ht & Hu).
  destruct e; cbn [apply];
    unfold chess_create, chess_join, chess_move, ludo_create, ludo_join, ludo_start,
      ludo_roll, tictactoe_create, tictactoe_join, tictactoe_move, uno_create, uno_join,
      uno_play_card, uno_draw_card, not_found.
  - apply gated_step; [apply origins_refl|]. intros u. simpl.
    apply put_chess_origin. right. left. by eexists _, _.
  - apply gated_step; [apply origins_refl|]. intros u.
    destruct (chessGames w !! _) as [g|] eqn:Hg; [|apply origins_refl].
    apply respond_step; [apply origins_refl|].
    pose proof (chess_join_spec (username u) g (Hc _ _ Hg)) as Hs.
    destruct (Chess.join _ _) eqn:E; try done.
    apply put_chess_origin. right. right. left. by eexists _, _, _.
  - apply gated_step; [apply origins_refl|]. intros u.
    destruct (chessGames w !! _) as [g|] eqn:Hg; [|apply origins_refl].
    apply respond_step; [apply origins_refl|].
    pose proof (chess_move_spec (username u) from to now g (Hc _ _ Hg)) as Hs.
    destruct (Chess.move _ _ _ _ _) eqn:E; try done.
    apply put_chess_origin. right. right. right. by eexists _, _, _, _, _, _.
  - apply gated_step; [apply origins_refl|]. intros u. simpl.
    apply put_ludo_origin. right. left. by eexists _, _.
  - apply gated_step; [apply origins_refl|]. intros u.
    destruct (ludoGames w !! _) as [g|] eqn:Hg; [|apply origins_refl].
    apply respond_step; [apply origins_refl|].
    pose proof (ludo_join_spec (username u) g (Hl _ _ Hg)) as Hs.
    destruct (Ludo.join _ _) eqn:E; try done.
    apply put_ludo_origin. right. right. left. by eexists _, _, _.
  - apply gated_step; [apply origins_refl|]. intros u.
    destruct (ludoGames w !! _) as [g|] eqn:Hg; [|apply origins_refl].
    apply respond_step; [apply origins_refl|].
    pose proof (ludo_start_spec playerCount addComputer gameMode difficulty g (Hl _ _ Hg)) as Hs.
    destruct (Ludo.start _ _ _ _ _) eqn:E; try done.
    apply put_ludo_origin. right. right. right. left. by eexists _, _, _, _, _, _.
  - apply gated_step; [apply origins_refl|]. intros u.
    destruct (ludoGames w !! _) as [g|] eqn:Hg; [|apply origins_refl].
    pose proof (ludo_roll_spec rs (username u) g (Hl _ _ Hg)) as Hs.
    destruct (Ludo.roll rs (username u) g) as [o d] eqn:E. simpl in Hs.
    destruct o; try done; simpl; try apply origins_refl.
    eapply (origins_from (set_timers w _)); try done.
    apply put_ludo_origin. simpl. right. right. right. right. left.
    eexists _, rs, (username u), _. split; [done|]. by rewrite E.
  - unfold ludo_move.
    destruct (ludoGames w !! _) as [g|] eqn:Hg; [|apply origins_refl].
    match goal with |- context [Ludo.socket_move ?a ?b ?c ?d] =>
      pose proof (ludo_socket_move_spec a b c d (Hl _ _ Hg)) as Hs end.
    destruct (Ludo.socket_move _ _ _ _) as [code msg| |gc|ga ev] eqn:E;
      [apply origins_refl|by apply origins_sub|done|].
    simpl. apply put_ludo_origin. do 5 right. left. by eexists _, _, _, _, _.
  - apply gated_step; [apply origins_refl|]. intros u. simpl.
    apply put_ttt_origin. right. left. by eexists _, _.
  - apply gated_step; [apply origins_refl|]. intros u.
    destruct (ticTacToeGames w !! _) as [g|] eqn:Hg; [|apply origins_refl].
    apply respond_step; [apply origins_refl|].
    pose proof (ttt_join_spec (username u) g (Ht _ _ Hg)) as Hs.
    destruct (Ttt.join _ _) eqn:E; try done.
    apply put_ttt_origin. right. right. left. by eexists _, _, _.
  - apply gated_step; [apply origins_refl|]. intros u.
    destruct (ticTacToeGames w !! _) as [g|] eqn:Hg; [|apply origins_refl].
    apply respond_step; [apply origins_refl|].
    pose proof (ttt_move_spec (username u) position g (Ht _ _ Hg)) as Hs.
    destruct (Ttt.move _ _ _) eqn:E; try done.
    apply put_ttt_origin. right. right. right. by eexists _, _, _, _.
  - apply gated_step; [apply origins_refl|]. intros u. simpl.
    apply put_uno_origin. right. left. by eexists _, _.
  - apply gated_step; [apply origins_refl|]. intros u.
    destruct (unoGames w !! _) as [g|] eqn:Hg; [|apply origins_refl].
    apply respond_step; [apply origins_refl|].
    pose proof (join_spec rs (username u) g (Hu _ _ Hg)) as Hs.
    destruct (Uno.join _ _ _) eqn:E; try done.
    apply put_uno_origin. right. right. left. by eexists _, _, _, _.
  - apply gated_step; [apply origins_refl|]. intros u.
    destruct (unoGames w !! _) as [g|] eqn:Hg; [|apply origins_refl].
    apply respond_step; [apply origins_refl|].
    pose proof (play_card_spec (username u) cardIndex chosenColor g (Hu _ _ Hg)) as Hs.
    destruct (Uno.play_card _ _ _ _) eqn:E; try done.
    apply put_uno_origin. right. right. right. left. by eexists _, _, _, _, _.
  - apply gated_step; [apply origins_refl|]. intros u.
    destruct (unoGames w !! _) as [g|] eqn:Hg; [|apply origins_refl].
    apply respond_step; [apply origins_refl|].
    pose proof (draw_card_spec rs (username u) g (Hu _ _ Hg)) as Hs.
    destruct (Uno.draw_card _ _ _) eqn:E; try done.
    apply put_uno_origin. right. right. right. right. by eexists _, _, _, _.
  - apply origins_sub; unfold on_connection; destruct (isHomepageUser _); simpl;
      destruct (_ >? _); done.
  - match goal with |- context [on_disconnect (Bridge.attach ?a ?b ?c ?d)] =>
      destruct (disconnect_keeps_matches a b c d w Hok) as (Ec & El & Et & Eu & _) end.
    apply origins_sub; intros id g; by rewrite ?Ec, ?El, ?Et, ?Eu.
  - unfold fire. destruct (timers w !! k) as [[delay t]|]; [|apply origins_refl].
    destruct t; simpl.
    + apply origins_sub; simpl; try done. intros i g Hg. by apply lookup_delete_Some in Hg as [_ ?].
    + apply origins_sub; simpl; try done. intros i g Hg. by apply lookup_delete_Some in Hg as [_ ?].
    + apply origins_sub; simpl; try done. intros i g Hg. by apply lookup_delete_Some in Hg as [_ ?].
    + apply origins_sub; simpl; try done. intros i g Hg. by apply lookup_delete_Some in Hg as [_ ?].
    + destruct (ludoGames w !! _) as [g|] eqn:Hg; [|by apply origins_sub].
      eapply (origins_from (set_timers w _)); try done.
      apply put_ludo_origin. simpl. do 6 right. by eexists _, _, _.
  - apply origins_sub; simpl; try done.
    all: intros i g Hg; by apply map_lookup_filter_Some in Hg as [? _].
Qed.

(** What holds of a new chess match and is kept by join and move holds of
    every chess match of every reachable world. *)
Lemma chess_matches_ind (P : Chess.Game -> Prop) :
  (forall u now, P (Chess.newGame u now)) ->
  (forall g u g' ev, P g -> chess_ok g -> Chess.join u g = Accepted g' ev -> P g') ->
  (forall g u from to now g' ev,
     P g -> chess_ok g -> Chess.move u from to now g = Accepted g' ev -> P g') ->
  forall w, reachable w -> forall id g, chessGames w !! id = Some g -> P g.
Proof.
  intros Hnew Hjoin Hmove w Hr. induction Hr as [|e w Hr IH]; intros id g Hg; [done|].
  pose proof (reachable_ok w Hr) as (Hc & _).
  destruct (apply_origins e w (reachable_ok w Hr)) as (Ho & _).
  destruct (Ho id g Hg) as [Hk|[(u & now & ->)|[(g0 & u & ev & Hg0 & E)
                              |(g0 & u & from & to & now & ev & Hg0 & E)]]]; eauto.
Qed.

Lemma ttt_matches_ind (P : Ttt.Game -> Prop) :
  (forall u now, P (Ttt.newGame u now)) ->
  (forall g u g' ev, P g -> ttt_ok g -> Ttt.join u g = Accepted g' ev -> P g') ->
  (forall g u position g' ev,
     P g -> ttt_ok g -> Ttt.move u position g = Accepted g' ev -> P g') ->
  forall w, reachable w -> forall id g, ticTacToeGames w !! id = Some g -> P g.
Proof.
  intros Hnew Hjoin Hmove w Hr. induction Hr as [|e w Hr IH]; intros id g Hg; [done|].
  pose proof (reachable_ok w Hr) as (_ & _ & Ht & _).
  destruct (apply_origins e w (reachable_ok w Hr)) as (_ & _ & Ho & _).
  destruct (Ho id g Hg) as [Hk|[(u & now & ->)|[(g0 & u & ev & Hg0 & E)
                              |(g0 & u & position & ev & Hg0 & E)]]]; eauto.
Qed.

Lemma ludo_matches_ind (P : Ludo.Game -> Prop) :
  (forall u now, P (Ludo.newGame u now)) ->
  (forall g u g' ev, P g -> ludo_ok g -> Ludo.join u g = Accepted g' ev -> P g') ->
  (forall g pc ac gm df g' ev,
     P g -> ludo_ok g -> Ludo.start pc ac gm df g = Accepted g' ev -> P g') ->
  (forall g rs u g' ev, P g -> ludo_ok g -> fst (Ludo.roll rs u g) = Accepted g' ev -> P g') ->
  (forall g u pieceIndex diceRoll g' ev,
     P g -> ludo_ok g -> Ludo.socket_move u pieceIndex diceRoll g = Accepted g' ev -> P g') ->
  (forall g rolledIndex diceRoll,
     P g -> ludo_ok g -> P (Ludo.auto_advance rolledIndex diceRoll g)) ->
  forall w, reachable w -> forall id g, ludoGames w !! id = Some g -> P g.
Proof.
  intros Hnew Hjoin Hstart Hroll Hmove Hauto w Hr.
  induction Hr as [|e w Hr IH]; intros id g Hg; [done|].
  pose proof (reachable_ok w Hr) as (_ & Hl & _).
  destruct (apply_origins e w (reachable_ok w Hr)) as (_ & Ho & _).
  destruct (Ho id g Hg)
    as [Hk|[(u & now & ->)|[(g0 & u & ev & Hg0 & E)|[(g0 & pc & ac & gm & df & ev & Hg0 & E)
       |[(g0 & rs & u & ev & Hg0 & E)|[(g0 & u & pi & dr & ev & Hg0 & E)
       |(g0 & ri & dr & Hg0 & ->)]]]]]]; eauto.
Qed.

Lemma uno_matches_ind (P : Uno.Game -> Prop) :
  (forall u now, P (Uno.newGame u now)) ->
  (forall g rs u g' ev, P g -> uno_ok g -> Uno.join rs u g = Accepted g' ev -> P g') ->
  (forall g u cardIndex chosenColor g' ev,
     P g -> uno_ok g -> Uno.play_card u cardIndex chosenColor g = Accepted g' ev -> P g') ->
  (forall g rs u g' ev, P g -> uno_ok g -> Uno.draw_card rs u g = Accepted g' ev -> P g') ->
  forall w, reachable w -> forall id g, unoGames w !! id = Some g -> P g.
Proof.
  intros Hnew Hjoin Hplay Hdraw w Hr. induction Hr as [|e w Hr IH]; intros id g Hg; [done|].
  pose proof (reachable_ok w Hr) as Hok. destruct Hok as (_ & _ & _ & Hu).
  destruct (apply_origins e w (reachable_ok w Hr)) as (_ & _ & _ & Ho).
  destruct (Ho id g Hg)
    as [Hk|[(u & now & ->)|[(g0 & rs & u & ev & Hg0 & E)
       |[(g0 & u & ci & cc & ev & Hg0 & E)|(g0 & rs & u & ev & Hg0 & E)]]]]; eauto.
Qed.

(** ** Card match: where the cards are *)

Lemma hands_split (ps : list Uno.Player) (i : nat) (p : Uno.Player) :
  ps !! i = Some p ->
  exists A B, flat_map Uno.hand ps = A ++ Uno.hand p ++ B
              /\ forall p', flat_map Uno.hand (<[i := p']> ps) = A ++ Uno.hand p' ++ B.
Proof.
  intros Hp. exists (flat_map Uno.hand (take i ps)), (flat_map Uno.hand (drop (S i) ps)).
  split.
  - rewrite <- (take_drop_middle ps i p Hp) at 1. by rewrite flat_map_app.
  - intros p'. rewrite insert_take_drop by (by eapply lookup_lt_Some).
    by rewrite flat_map_app.
Qed.

Lemma splice1_perm {A} (l : list A) (i : Z) (x : A) :
  Js.nth l i = Some x -> l ≡ₚ x :: Js.splice1 l i.
Proof.
  intros Hn. apply nth_Some in Hn as [Hr Hl]. unfold Js.splice1.
  destruct (i <? 0) eqn:E; [lia|]. rewrite Z.min_l by lia.
  by apply delete_Permutation.
Qed.

Lemma draw_while_spec (n : nat) (d h h' d' : list Uno.Card) :
  Uno.draw_while n d h = (h', d') ->
  exists t, d = d' ++ rev t /\ h' = h ++ t /\ (length t <= n)%nat.
Proof.
  revert d h. induction n as [|n IH]; intros d h Hd; simpl in Hd.
  - injection Hd as <- <-. exists []. simpl. by rewrite !app_nil_r.
  - destruct (pop_cases d) as [[-> Hp]|(l & x & -> & Hp)]; rewrite Hp in Hd.
    + injection Hd as <- <-. exists []. simpl. rewrite !app_nil_r. split_and!; [done|done|lia].
    + destruct (IH _ _ Hd) as (t & -> & -> & Hl). exists (x :: t). simpl.
      rewrite <- !app_assoc. simpl. split_and!; [done|done|lia].
Qed.

Lemma move_cards (X t Y A H B : list Uno.Card) :
  X ++ Y ++ A ++ (H ++ t) ++ B ≡ₚ (X ++ rev t) ++ Y ++ A ++ H ++ B.
Proof.
  rewrite <- !app_assoc. apply Permutation_app_head.
  rewrite (Permutation_app_swap_app (rev t) Y). apply Permutation_app_head.
  rewrite (Permutation_app_swap_app (rev t) A). apply Permutation_app_head.
  rewrite (Permutation_app_swap_app (rev t) H). apply Permutation_app_head.
  apply Permutation_app_tail. apply Permutation_rev.
Qed.

Lemma forced_draw_perm (n : nat) (g : Uno.Game) (next : Z) (g' : Uno.Game) :
  Uno.forced_draw n g next = Some g' -> cards_in_play g' ≡ₚ cards_in_play g.
Proof.
  unfold Uno.forced_draw. destruct (_ >? _); [|by intros [= <-]].
  destruct (Js.nth _ _) as [p|] eqn:Hp; [|done].
  destruct (Uno.draw_while _ _ _) as [h d] eqn:Hd. intros [= <-].
  apply draw_while_spec in Hd as (t & Hdk & -> & _).
  apply nth_Some in Hp as [_ Hp]. destruct (hands_split _ _ _ Hp) as (A & B & HA & HB).
  unfold cards_in_play. simpl. rewrite HB, HA, Hdk. simpl. apply move_cards.
Qed.

Lemma effect_perm (g : Uno.Game) (card : Uno.Card) (g' : Uno.Game) :
  Uno.processUNOCardEffect g card = Some g' -> cards_in_play g' ≡ₚ cards_in_play g.
Proof.
  unfold Uno.processUNOCardEffect.
  destruct (String.eqb _ "skip"); [by intros [= <-]|].
  destruct (String.eqb _ "reverse").
  { destruct (_ =? 2); by intros [= <-]. }
  destruct (String.eqb _ "draw2").
  { destruct (Uno.forced_draw _ _ _) as [g1|] eqn:E; [|done]. intros [= <-].
    by apply forced_draw_perm in E. }
  destruct (String.eqb _ "wild4").
  { destruct (Uno.forced_draw _ _ _) as [g1|] eqn:E; [|done]. intros [= <-].
    by apply forced_draw_perm in E. }
  by intros [= <-].
Qed.

Lemma play_card_perm (u : string) (cardIndex : Z) (chosenColor : option string)
    (g g' : Uno.Game) (ev : string) :
  Uno.play_card u cardIndex chosenColor g = Accepted g' ev ->
  cards_in_play g' ≡ₚ cards_in_play g.
Proof.
  unfold Uno.play_card.
  destruct (Js.nth (Uno.players g) _) as [p|] eqn:Hp; [|done].
  destruct (negb _); [done|]. destruct (_ >=? _); [done|].
  destruct (Js.nth (Uno.hand p) _) as [card|] eqn:Hc; [|done].
  destruct (negb _); [done|]. cbv zeta.
  destruct (Uno.processUNOCardEffect _ _) as [g4|] eqn:He; [|done].
  intros [= <- _]. apply effect_perm in He.
  transitivity (cards_in_play g4).
  { destruct (Js.nth (Uno.players g4) _) as [q|]; [|done]. by destruct (_ =? 0). }
  rewrite He. apply nth_Some in Hp as [_ Hp].
  destruct (hands_split _ _ _ Hp) as (A & B & HA & HB).
  unfold cards_in_play. simpl. rewrite HB, HA. simpl.
  apply Permutation_app_head. rewrite <- !app_assoc. apply Permutation_app_head.
  rewrite (Permutation_app_swap_app [card] A). apply Permutation_app_head.
  rewrite (splice1_perm _ _ _ Hc) at 2. done.
Qed.

Lemma reshuffle_perm (rs : list nat) (g : Uno.Game) :
  Uno.deck g = [] -> cards_in_play (Uno.reshuffleUNODeck rs g) ≡ₚ cards_in_play g.
Proof.
  intros Hd. unfold Uno.reshuffleUNODeck. destruct (_ <=? 1); [done|].
  destruct (Js.pop _) as [[top rest]|] eqn:Hp; [|done].
  apply pop_Some in Hp. unfold cards_in_play. simpl. rewrite Hd, Hp. simpl.
  rewrite shuffleArray_perm. by rewrite <- !app_assoc.
Qed.

Lemma draw_card_perm (rs : list nat) (u : string) (g g' : Uno.Game) (ev : string) :
  Uno.draw_card rs u g = Accepted g' ev -> cards_in_play g' ≡ₚ cards_in_play g.
Proof.
  unfold Uno.draw_card.
  destruct (Js.nth (Uno.players g) _) as [p|] eqn:Hp; [|done].
  destruct (negb _); [done|]. cbv zeta. intros [= <- _].
  set (g1 := if Js.len (Uno.deck g) =? 0 then Uno.reshuffleUNODeck rs g else g).
  assert (H1 : cards_in_play g1 ≡ₚ cards_in_play g
               /\ Uno.players g1 = Uno.players g
               /\ Uno.currentPlayerIndex g1 = Uno.currentPlayerIndex g).
  { subst g1. destruct (_ =? 0) eqn:E; [|done].
    assert (Hd : Uno.deck g = []).
    { apply Z.eqb_eq in E. unfold Js.len in E. destruct (Uno.deck g); [done|simpl in E; lia]. }
    destruct (reshuffle_spec rs g Hd) as (_ & ? & _ & _ & _ & ? & _).
    split_and!; [by apply reshuffle_perm|done|done]. }
  destruct H1 as (H1 & Hps & Hi). clearbody g1.
  destruct (Js.pop (Uno.deck g1)) as [[c d']|] eqn:Hpop; [|done].
  rewrite <- H1. apply pop_Some in Hpop. rewrite <- Hps, <- Hi in Hp.
  apply nth_Some in Hp as [_ Hp]. destruct (hands_split _ _ _ Hp) as (A & B & HA & HB).
  unfold cards_in_play. simpl. rewrite HB, HA, Hpop. simpl.
  apply (move_cards d' [c]).
Qed.

Lemma deal_perm (ps : list Uno.Player) (d : list Uno.Card) (qs : list Uno.Player)
    (d' : list Uno.Card) :
  Uno.deal ps d = Some (qs, d') ->
  d ≡ₚ d' ++ flat_map Uno.hand qs
  /\ Forall (fun p => length (Uno.hand p) = 7%nat) qs
  /\ map Uno.name qs = map Uno.name ps.
Proof.
  revert d qs d'. induction ps as [|p ps IH]; intros d qs d' Hd; cbn [Uno.deal] in Hd.
  - injection Hd as <- <-. by rewrite app_nil_r.
  - destruct (Uno.draw_n 7 d []) as [[h d1]|] eqn:Hn; [|done].
    destruct (Uno.deal ps d1) as [[qs' d2]|] eqn:Hps; [|done]. injection Hd as <- <-.
    apply draw_n_spec in Hn as (t & Ht & -> & ->).
    destruct (IH _ _ _ Hps) as (Hperm & Hall & Hnames). split_and!.
    + simpl. rewrite Hperm, <- Permutation_rev, <- !app_assoc.
      apply Permutation_app_head. apply Permutation_app_comm.
    + constructor; [done|done].
    + simpl. by rewrite Hnames.
Qed.

Lemma initialize_perm (rs : list nat) (g g' : Uno.Game) :
  Uno.initializeUNOGame rs g = Some g' ->
  exists first,
    Forall (fun p => length (Uno.hand p) = 7%nat) (Uno.players g')
    /\ map Uno.name (Uno.players g') = map Uno.name (Uno.players g)
    /\ Uno.discardPile g' = [first] /\ Uno.is_wild first = false
    /\ Uno.currentColor g' = Uno.color first /\ Uno.currentNumber g' = Uno.value first
    /\ Uno.currentPlayerIndex g' = 0 /\ Uno.direction g' = 1
    /\ cards_in_play g' ++ Uno.dropped_wilds rs (Uno.players g) ≡ₚ Uno.createUNODeck.
Proof.
  unfold Uno.initializeUNOGame, Uno.dropped_wilds.
  destruct (Uno.deal _ _) as [[ps d]|] eqn:Hd; [|done].
  unfold Uno.place_first. destruct (Uno.seed (rev d)) as [[c r]|] eqn:Hs; [|done].
  intros [= <-]. apply deal_perm in Hd as (Hperm & Hall & Hnames).
  apply seed_spec in Hs as [Hr Hw]. exists c. simpl. split_and!; try done.
  rewrite <- (shuffleArray_perm rs Uno.createUNODeck), Hperm.
  unfold cards_in_play. simpl.
  assert (Hdk : d ≡ₚ Uno.leading_wilds (rev d) ++ c :: rev r).
  { rewrite (Permutation_rev d) at 1. rewrite Hr at 1.
    apply Permutation_app_head, perm_skip, Permutation_rev. }
  generalize dependent (Uno.leading_wilds (rev d)). intros lw _ ->.
  rewrite (Permutation_app_comm lw). rewrite <- !app_assoc. simpl.
  rewrite <- Permutation_middle. apply perm_skip.
  apply Permutation_app_head. apply Permutation_app_comm.
Qed.

Lemma join_perm (rs : list nat) (u : string) (g g' : Uno.Game) (ev : string) :
  uno_ok g -> Uno.join rs u g = Accepted g' ev ->
  Uno.status g' = playing
  /\ exists dropped, Forall (fun c => Uno.is_wild c = true) dropped
                     /\ cards_in_play g' ++ dropped ≡ₚ Uno.createUNODeck.
Proof.
  intros Hok Hj. pose proof (join_spec rs u g Hok) as Hs. rewrite Hj in Hs.
  destruct Hs as (_ & Hst & _). split; [done|].
  destruct Hok as (Hi & _). revert Hj. unfold Uno.join.
  destruct (_ >=? Uno.maxPlayers g); [done|]. destruct (existsb _ _); [done|]. cbv zeta.
  destruct (_ >=? 2) eqn:E.
  - destruct (Uno.initializeUNOGame _ _) as [g3|] eqn:Hinit; [|done]. intros [= <- _].
    apply initialize_perm in Hinit as (first & _ & _ & _ & _ & _ & _ & _ & _ & Hperm).
    eexists. split; [|exact Hperm]. apply dropped_wilds_wild.
  - revert E. cbn [Uno.players Uno.set_players].
    destruct (Z.geb_spec (Js.len (Uno.players g ++ [Uno.mkPlayer u [] false None])) 2) as [|Hlt];
      [done|]. intros _. revert Hlt. unfold Js.len in *. rewrite length_app. simpl. lia.
Qed.

Lemma step_index_mod (g : Uno.Game) (i : Z) :
  0 <= i < Js.len (Uno.players g) ->
  Uno.direction g = 1 \/ Uno.direction g = -1 ->
  Uno.step_index g i = (i + Uno.direction g) mod Js.len (Uno.players g).
Proof.
  intros Hi Hd. unfold Uno.step_index, Js.rem.
  rewrite Z.rem_mod_nonneg by lia.
  rewrite <- (Z_mod_plus_full (i + Uno.direction g) 1 (Js.len (Uno.players g))).
  f_equal. lia.
Qed.

Lemma effect_keeps_current (g : Uno.Game) (card : Uno.Card) (g' : Uno.Game) :
  Uno.processUNOCardEffect g card = Some g' ->
  Uno.currentColor g' = Uno.currentColor g /\ Uno.currentNumber g' = Uno.currentNumber g
  /\ Uno.status g' = Uno.status g /\ Uno.winner g' = Uno.winner g.
Proof.
  assert (Hf : forall n next g1, Uno.forced_draw n g next = Some g1 ->
                 Uno.currentColor g1 = Uno.currentColor g
                 /\ Uno.currentNumber g1 = Uno.currentNumber g
                 /\ Uno.status g1 = Uno.status g /\ Uno.winner g1 = Uno.winner g).
  { intros n next g1. unfold Uno.forced_draw. destruct (_ >? _); [|by intros [= <-]].
    destruct (Js.nth _ _); [|done]. destruct (Uno.draw_while _ _ _). by intros [= <-]. }
  unfold Uno.processUNOCardEffect.
  destruct (String.eqb _ "skip"); [by intros [= <-]|].
  destruct (String.eqb _ "reverse").
  { destruct (_ =? 2); by intros [= <-]. }
  destruct (String.eqb _ "draw2").
  { destruct (Uno.forced_draw _ _ _) as [g1|] eqn:E; [|done]. intros [= <-].
    by apply Hf in E. }
  destruct (String.eqb _ "wild4").
  { destruct (Uno.forced_draw _ _ _) as [g1|] eqn:E; [|done]. intros [= <-].
    by apply Hf in E. }
  by intros [= <-].
Qed.

Lemma forced_draw_turn (n : nat) (g : Uno.Game) (next : Z) (g' : Uno.Game) :
  Uno.forced_draw n g next = Some g' ->
  Js.len (Uno.players g') = Js.len (Uno.players g)
  /\ Uno.direction g' = Uno.direction g
  /\ Uno.currentPlayerIndex g' = Uno.currentPlayerIndex g.
Proof.
  unfold Uno.forced_draw. destruct (_ >? _); [|by intros [= <-]].
  destruct (Js.nth _ _); [|done]. destruct (Uno.draw_while _ _ _). intros [= <-].
  simpl. unfold Js.len. by rewrite length_insert.
Qed.

(** Where the effect of a card leaves the turn and the direction. *)
Lemma effect_turn (g : Uno.Game) (card : Uno.Card) (g' : Uno.Game) :
  0 <= Uno.currentPlayerIndex g < Js.len (Uno.players g) ->
  Uno.direction g = 1 \/ Uno.direction g = -1 ->
  Uno.processUNOCardEffect g card = Some g' ->
  let n := Js.len (Uno.players g) in
  let i := Uno.currentPlayerIndex g in
  let d := Uno.direction g in
  Js.len (Uno.players g') = n
  /\ Uno.direction g' = (if String.eqb (Uno.value card) "reverse" then - d else d)
  /\ Uno.currentPlayerIndex g' =
       (if String.eqb (Uno.value card) "skip" || String.eqb (Uno.value card) "draw2"
           || String.eqb (Uno.value card) "wild4"
        then (i + 2 * d) mod n
        else if String.eqb (Uno.value card) "reverse"
             then (if n =? 2 then (i - d) mod n else i)
             else i).
Proof.
  intros Hi Hd. cbv zeta.
  assert (Hnext := step_index_range g _ Hi Hd).
  assert (Htwo : forall g1, Js.len (Uno.players g1) = Js.len (Uno.players g) ->
                   Uno.direction g1 = Uno.direction g ->
                   Uno.step_index g1 (Uno.step_index g (Uno.currentPlayerIndex g))
                   = (Uno.currentPlayerIndex g + 2 * Uno.direction g)
                       mod Js.len (Uno.players g)).
  { intros g1 Hn1 Hd1. rewrite (step_index_mod g1), Hn1, Hd1 by (rewrite ?Hn1, ?Hd1; done).
    rewrite (step_index_mod g) by done. rewrite Zplus_mod_idemp_l. f_equal. lia. }
  unfold Uno.processUNOCardEffect.
  destruct (String.eqb _ "skip") eqn:Es.
  { intros [= <-]. simpl. split_and!; [done| |by apply Htwo].
    apply String.eqb_eq in Es. by rewrite Es. }
  destruct (String.eqb _ "reverse") eqn:Er.
  { apply String.eqb_eq in Er. rewrite Er. simpl.
    destruct (_ =? 2) eqn:E2; intros [= <-]; simpl; split_and!; try done; try lia.
    rewrite step_index_mod; simpl; [f_equal; lia|done|lia]. }
  destruct (String.eqb _ "draw2") eqn:E2.
  { destruct (Uno.forced_draw _ _ _) as [g1|] eqn:E; [|done]. intros [= <-].
    apply forced_draw_turn in E as (Hn1 & Hd1 & _). simpl. split_and!; [done|done|].
    by apply Htwo. }
  destruct (String.eqb _ "wild4") eqn:E4.
  { destruct (Uno.forced_draw _ _ _) as [g1|] eqn:E; [|done]. intros [= <-].
    apply forced_draw_turn in E as (Hn1 & Hd1 & _). simpl. split_and!; [done|done|].
    by apply Htwo. }
  by intros [= <-].
Qed.

(** The turn after an accepted play. *)
Lemma play_card_turn (u : string) (cardIndex : Z) (chosenColor : option string)
    (g g' : Uno.Game) (ev : string) (p : Uno.Player) (card : Uno.Card) :
  uno_ok g ->
  Uno.play_card u cardIndex chosenColor g = Accepted g' ev ->
  Js.nth (Uno.players g) (Uno.currentPlayerIndex g) = Some p ->
  Js.nth (Uno.hand p) cardIndex = Some card ->
  let n := Js.len (Uno.players g) in
  let i := Uno.currentPlayerIndex g in
  let d := Uno.direction g in
  Uno.direction g' = (if String.eqb (Uno.value card) "reverse" then - d else d)
  /\ exists q, Js.nth (Uno.players g') i = Some q
       /\ if Js.len (Uno.hand q) =? 0
          then Uno.status g' = finished /\ Uno.winner g' = Some u
          else Uno.status g' = Uno.status g /\ Uno.winner g' = Uno.winner g
               /\ Uno.currentPlayerIndex g' =
                    (if String.eqb (Uno.value card) "skip"
                        || String.eqb (Uno.value card) "draw2"
                        || String.eqb (Uno.value card) "wild4"
                     then (i + 3 * d) mod n
                     else if String.eqb (Uno.value card) "reverse"
                          then (if n =? 2 then i else (i - d) mod n)
                          else (i + d) mod n).
Proof.
  intros (Hi & Hd & _) Hplay Hp Hc. cbv zeta. revert Hplay. unfold Uno.play_card.
  rewrite Hp. destruct (negb _) eqn:Hname; [done|]. destruct (_ >=? _); [done|].
  rewrite Hc. destruct (negb (Uno.canPlayUNOCard _ _ _)); [done|]. cbv zeta.
  destruct (Uno.processUNOCardEffect _ _) as [g4|] eqn:He; [|done].
  destruct (effect_keeps_current _ _ _ He) as (_ & _ & Hst4 & Hw4). simpl in Hst4, Hw4.
  apply effect_turn in He; simpl; [|unfold Js.len; by rewrite length_insert|done].
  revert He. cbv zeta. simpl.
  replace (Js.len (<[Z.to_nat (Uno.currentPlayerIndex g) := Uno.set_hand p
             (Js.splice1 (Uno.hand p) cardIndex)]> (Uno.players g)))
    with (Js.len (Uno.players g)) by (unfold Js.len; by rewrite length_insert).
  intros (Hn4 & Hd4 & Hi4).
  apply negb_false_iff, String.eqb_eq in Hname.
  destruct (nth_in_range (Uno.players g4) (Uno.currentPlayerIndex g)) as [q Hq]; [lia|].
  rewrite Hq. intros [= <- _].
  assert (Hd4' : Uno.direction g4 = 1 \/ Uno.direction g4 = -1).
  { rewrite Hd4. destruct (String.eqb _ _); lia. }
  destruct (Js.len (Uno.hand q) =? 0) eqn:Hz.
  - simpl. split; [done|]. exists q. rewrite Hq, ?Hz, Hname. by split_and!.
  - simpl. split; [done|]. exists q. rewrite Hq, ?Hz. split_and!; [done|done|done|].
    assert (Hr4 : 0 <= Uno.currentPlayerIndex g4 < Js.len (Uno.players g4)).
    { rewrite Hi4, Hn4.
      repeat match goal with |- context [if ?b then _ else _] => destruct b end;
        try apply Z.mod_pos_bound; lia. }
    rewrite step_index_mod by done. rewrite Hi4, Hd4, Hn4.
    destruct (String.eqb _ "skip" || String.eqb _ "draw2" || String.eqb _ "wild4") eqn:E3.
    + assert (Hnr : String.eqb (Uno.value card) "reverse" = false).
      { apply orb_true_iff in E3 as [E3|E3]; [apply orb_true_iff in E3 as [E3|E3]|];
          apply String.eqb_eq in E3; by rewrite E3. }
      rewrite Hnr, Zplus_mod_idemp_l. f_equal. lia.
    + destruct (String.eqb _ "reverse"); [|done].
      destruct (Z.eqb_spec (Js.len (Uno.players g)) 2) as [E2|E2].
      * rewrite Zplus_mod_idemp_l, E2.
        replace (Uno.currentPlayerIndex g - Uno.direction g + - Uno.direction g)
          with (Uno.currentPlayerIndex g + (- Uno.direction g) * 2) by lia.
        rewrite Z_mod_plus_full. apply Z.mod_small. lia.
      * f_equal.
Qed.

Lemma draw_card_keeps (rs : list nat) (u : string) (g g' : Uno.Game) (ev : string) :
  Uno.draw_card rs u g = Accepted g' ev ->
  Uno.status g' = Uno.status g
  /\ Uno.currentColor g' = Uno.currentColor g
  /\ Uno.currentNumber g' = Uno.currentNumber g
  /\ last (Uno.discardPile g') = last (Uno.discardPile g).
Proof.
  unfold Uno.draw_card.
  destruct (Js.nth (Uno.players g) _) as [p|] eqn:Hp; [|done].
  destruct (negb _); [done|]. cbv zeta. intros [= <- _].
  set (g1 := if Js.len (Uno.deck g) =? 0 then Uno.reshuffleUNODeck rs g else g).
  assert (H1 : Uno.status g1 = Uno.status g
               /\ Uno.currentColor g1 = Uno.currentColor g
               /\ Uno.currentNumber g1 = Uno.currentNumber g
               /\ last (Uno.discardPile g1) = last (Uno.discardPile g)).
  { subst g1. destruct (_ =? 0); [|done]. unfold Uno.reshuffleUNODeck.
    destruct (_ <=? 1); [done|]. destruct (Js.pop _) as [[top rest]|] eqn:Hpop; [|done].
    apply pop_Some in Hpop. simpl. rewrite Hpop. by rewrite last_snoc. }
  clearbody g1. by destruct (Js.pop (Uno.deck g1)) as [[c d']|].
Qed.

Lemma play_card_accepted (u : string) (cardIndex : Z) (chosenColor : option string)
    (g g' : Uno.Game) (ev : string) :
  Uno.play_card u cardIndex chosenColor g = Accepted g' ev ->
  exists p card,
    Js.nth (Uno.players g) (Uno.currentPlayerIndex g) = Some p
    /\ Uno.name p = u
    /\ 0 <= cardIndex < Js.len (Uno.hand p)
    /\ Js.nth (Uno.hand p) cardIndex = Some card
    /\ Uno.canPlayUNOCard card (Uno.currentColor g) (Uno.currentNumber g) = true
    /\ Uno.discardPile g' = Uno.discardPile g ++ [card]
    /\ Uno.currentNumber g' = Uno.value card
    /\ Uno.currentColor g' =
         (if Uno.is_wild card then Js.or_else chosenColor "red" else Uno.color card)
    /\ ev = "uno-card-played".
Proof.
  unfold Uno.play_card.
  destruct (Js.nth (Uno.players g) _) as [p|] eqn:Hp; [|done].
  destruct (negb _) eqn:Hname; [done|]. destruct (_ >=? _); [done|].
  destruct (Js.nth (Uno.hand p) _) as [card|] eqn:Hc; [|done].
  destruct (negb (Uno.canPlayUNOCard _ _ _)) eqn:Hcan; [done|]. cbv zeta.
  destruct (Uno.processUNOCardEffect _ _) as [g4|] eqn:He; [|done].
  destruct (effect_keeps_discard _ _ _ He) as [Hdisc _].
  destruct (effect_keeps_current _ _ _ He) as (Hcol & Hnum & _). simpl in Hdisc, Hcol, Hnum.
  apply negb_false_iff in Hname, Hcan. apply String.eqb_eq in Hname.
  pose proof (nth_Some _ _ _ Hc) as [Hr _].
  match goal with |- Accepted ?x _ = _ -> _ => set (g5 := x) end.
  assert (H5 : Uno.discardPile g5 = Uno.discardPile g4
               /\ Uno.currentNumber g5 = Uno.currentNumber g4
               /\ Uno.currentColor g5 = Uno.currentColor g4).
  { subst g5. destruct (Js.nth (Uno.players g4) _) as [q|]; [|done]. by destruct (_ =? 0). }
  destruct H5 as (H5d & H5n & H5c). clearbody g5. intros [= <- <-].
  exists p, card. rewrite H5d, H5n, H5c. split_and!; first [done | lia].
Qed.

Lemma reachable_uno_ok (w : World) (id : string) (g : Uno.Game) :
  reachable w -> unoGames w !! id = Some g -> uno_ok g.
Proof. intros Hr Hg. destruct (reachable_ok w Hr) as (_ & _ & _ & Hu). by apply (Hu id). Qed.

(** ** Card match: properties *)

(** X1 (shuffleArray): whatever Math.random returns, shuffling only
    reorders the array: the result is a permutation of the input. *)
Theorem shuffle_only_reorders {A} (rs : list nat) (array : list A) :
  Uno.shuffleArray rs array ≡ₚ array.
Proof. apply shuffleArray_perm. Qed.

(** X2 (initializeUNOGame): with at most fourteen players the deal
    succeeds; every player then holds exactly seven cards, the discard pile
    is one card that is not wild, the color and number in force are that
    card's, the turn is at seat 0 in direction 1, and the deck, the discard
    pile, the hands and the wild cards dropped while seeding make up one
    fresh deck, card for card. *)
Theorem deal_gives_seven_cards_each (rs : list nat) (g : Uno.Game) :
  (length (Uno.players g) <= 14)%nat ->
  exists g' first,
    Uno.initializeUNOGame rs g = Some g'
    /\ Forall (fun p => length (Uno.hand p) = 7%nat) (Uno.players g')
    /\ map Uno.name (Uno.players g') = map Uno.name (Uno.players g)
    /\ Uno.discardPile g' = [first] /\ Uno.is_wild first = false
    /\ Uno.currentColor g' = Uno.color first /\ Uno.currentNumber g' = Uno.value first
    /\ Uno.currentPlayerIndex g' = 0 /\ Uno.direction g' = 1
    /\ cards_in_play g' ++ Uno.dropped_wilds rs (Uno.players g) ≡ₚ Uno.createUNODeck.
Proof.
  intros Hn. destruct (initialize_spec rs g Hn) as (g' & Hinit & _).
  destruct (initialize_perm rs g g' Hinit) as (first & H). by exists g', first.
Qed.

Lemma deal_gives_seven_cards_each_witness :
  exists g', Uno.initializeUNOGame still_draws (Uno.newGame "alice" 1000) = Some g'
             /\ Forall (fun p => length (Uno.hand p) = 7%nat) (Uno.players g').
Proof.
  destruct (deal_gives_seven_cards_each still_draws (Uno.newGame "alice" 1000))
    as (g' & first & Hinit & Hall & _).
  - simpl. lia.
  - exists g'. split; assumption.
Defined.

(** X3 (play-card, draw-card, processUNOCardEffect, reshuffleUNODeck): an
    accepted play or draw only moves cards between the deck, the discard
    pile and the hands: the cards the match holds afterwards are a
    permutation of those it held before. *)
Theorem play_and_draw_only_move_cards (g g' : Uno.Game) (ev : string) :
  (exists u cardIndex chosenColor, Uno.play_card u cardIndex chosenColor g = Accepted g' ev)
  \/ (exists rs u, Uno.draw_card rs u g = Accepted g' ev) ->
  cards_in_play g' ≡ₚ cards_in_play g.
Proof.
  intros [(u & ci & cc & H)|(rs & u & H)].
  - by eapply play_card_perm.
  - by eapply draw_card_perm.
Qed.

Lemma play_and_draw_only_move_cards_witness :
  cards_in_play (written opening (Uno.draw_card [] "alice" opening)) ≡ₚ cards_in_play opening.
Proof.
  apply (play_and_draw_only_move_cards opening _ "uno-card-drawn").
  right. exists [], "alice". vm_compute. reflexivity.
Defined.

(** X4 (card endpoints together): in every world the server can reach, a
    card match that is waiting holds no card, and one that left waiting
    holds, together with wild cards dropped by its last deal, exactly the
    cards of one fresh deck: no card is ever duplicated or invented. *)
Theorem cards_are_those_of_one_deck (w : World) (id : string) (g : Uno.Game) :
  reachable w -> unoGames w !! id = Some g ->
  (Uno.status g = waiting -> cards_in_play g = [])
  /\ (Uno.status g <> waiting ->
      exists dropped, Forall (fun c => Uno.is_wild c = true) dropped
                      /\ cards_in_play g ++ dropped ≡ₚ Uno.createUNODeck).
Proof.
  intros Hr. revert id g.
  apply (uno_matches_ind
           (fun g => (Uno.status g = waiting -> cards_in_play g = [])
                     /\ (Uno.status g <> waiting ->
                         exists dropped, Forall (fun c => Uno.is_wild c = true) dropped
                           /\ cards_in_play g ++ dropped ≡ₚ Uno.createUNODeck)));
    [| | | |done].
  - done.
  - intros g rs u g' ev _ Hok Hj. destruct (join_perm rs u g g' ev Hok Hj) as [Hst H].
    split; [by rewrite Hst|done].
  - intros g u ci cc g' ev [_ HP] Hok Hplay.
    pose proof (play_card_spec u ci cc g Hok) as Hs. rewrite Hplay in Hs.
    destruct Hs as (_ & _ & Hnw & Hst). apply play_card_perm in Hplay.
    assert (Hnw' : Uno.status g' <> waiting) by (destruct Hst as [->| ->]; done).
    split; [done|]. intros _. destruct (HP Hnw) as (dropped & Hw & HP').
    exists dropped. by rewrite Hplay.
  - intros g rs u g' ev [HPw HP] Hok Hdraw.
    destruct (draw_card_keeps rs u g g' ev Hdraw) as (Hst & _).
    apply draw_card_perm in Hdraw. rewrite Hst. split.
    + intros Hw. rewrite (HPw Hw) in Hdraw. by apply Permutation_nil_r in Hdraw.
    + intros Hnw. destruct (HP Hnw) as (dropped & Hw & HP'). exists dropped. by rewrite Hdraw.
Qed.

Lemma cards_are_those_of_one_deck_witness :
  exists dropped, Forall (fun c => Uno.is_wild c = true) dropped
    /\ cards_in_play opening ++ dropped
       ≡ₚ Uno.createUNODeck.
Proof.
  apply (cards_are_those_of_one_deck (dealt still_draws) "uno_1000").
  - apply run_reachable. constructor.
  - vm_compute. reflexivity.
  - vm_compute. discriminate.
Defined.

(** X5 (play-card, processUNOCardEffect): after an accepted play by the
    player at seat i of n, in direction d: the direction is flipped by a
    reverse card and kept otherwise; if the hand at seat i is then empty the
    match is finished and the player is the winner; otherwise status and
    winner are kept and the turn goes to seat (i + d) mod n after a plain
    card, to (i + 3d) mod n after skip, draw2 or wild4 (the effect moves it
    two seats and the endpoint one more), and after a reverse card to seat i
    again when n = 2 and to (i - d) mod n otherwise. *)
Theorem turn_after_play (u : string) (cardIndex : Z) (chosenColor : option string)
    (g g' : Uno.Game) (ev : string) :
  uno_ok g ->
  Uno.play_card u cardIndex chosenColor g = Accepted g' ev ->
  exists p card,
    Js.nth (Uno.players g) (Uno.currentPlayerIndex g) = Some p
    /\ Js.nth (Uno.hand p) cardIndex = Some card
    /\ let n := Js.len (Uno.players g) in
       let i := Uno.currentPlayerIndex g in
       let d := Uno.direction g in
       Uno.direction g' = (if String.eqb (Uno.value card) "reverse" then - d else d)
       /\ exists q, Js.nth (Uno.players g') i = Some q
            /\ if Js.len (Uno.hand q) =? 0
               then Uno.status g' = finished /\ Uno.winner g' = Some u
               else Uno.status g' = Uno.status g /\ Uno.winner g' = Uno.winner g
                    /\ Uno.currentPlayerIndex g' =
                         (if String.eqb (Uno.value card) "skip"
                             || String.eqb (Uno.value card) "draw2"
                             || String.eqb (Uno.value card) "wild4"
                          then (i + 3 * d) mod n
                          else if String.eqb (Uno.value card) "reverse"
                               then (if n =? 2 then i else (i - d) mod n)
                               else (i + d) mod n).
Proof.
  intros Hok Hplay.
  destruct (play_card_accepted u cardIndex chosenColor g g' ev Hplay)
    as (p & card & Hp & _ & _ & Hc & _).
  exists p, card. split_and!; [done|done|]. by eapply play_card_turn.
Qed.

Lemma turn_after_play_witness :
  exists p card,
    Js.nth (Uno.players opening) (Uno.currentPlayerIndex opening) = Some p
    /\ Js.nth (Uno.hand p) 0 = Some card
    /\ Uno.direction (written opening (Uno.play_card "alice" 0 (Some "yellow") opening))
       = (if String.eqb (Uno.value card) "reverse"
          then - Uno.direction opening else Uno.direction opening).
Proof.
  destruct (turn_after_play "alice" 0 (Some "yellow") opening
              (written opening (Uno.play_card "alice" 0 (Some "yellow") opening))
              "uno-card-played") as (p & card & Hp & Hc & Hd & _).
  - apply (reachable_uno_ok (dealt still_draws) "uno_1000").
    + apply run_reachable. constructor.
    + vm_compute. reflexivity.
  - vm_compute. reflexivity.
  - exists p, card. split_and!; assumption.
Defined.

(** X6 (play-card in a two-player match): when the player at seat i has
    cards left after an accepted play, a reverse card gives the turn back to
    seat i, and every other card, skip, draw2 and wild4 included, passes it
    to the opponent at seat 1 - i: the opponent draws the forced cards but
    does not lose the turn. *)
Theorem two_player_turn (u : string) (cardIndex : Z) (chosenColor : option string)
    (g g' : Uno.Game) (ev : string) :
  uno_ok g ->
  Js.len (Uno.players g) = 2 ->
  Uno.play_card u cardIndex chosenColor g = Accepted g' ev ->
  exists p card q,
    Js.nth (Uno.players g) (Uno.currentPlayerIndex g) = Some p
    /\ Js.nth (Uno.hand p) cardIndex = Some card
    /\ Js.nth (Uno.players g') (Uno.currentPlayerIndex g) = Some q
    /\ (Uno.hand q = [] /\ Uno.status g' = finished
        \/ Uno.hand q <> []
           /\ Uno.currentPlayerIndex g' =
                if String.eqb (Uno.value card) "reverse"
                then Uno.currentPlayerIndex g else 1 - Uno.currentPlayerIndex g).
Proof.
  intros Hok Hn Hplay.
  destruct (play_card_accepted u cardIndex chosenColor g g' ev Hplay)
    as (p & card & Hp & _ & _ & Hc & _).
  destruct (play_card_turn u cardIndex chosenColor g g' ev p card Hok Hplay Hp Hc)
    as (_ & q & Hq & Hturn).
  exists p, card, q. split_and!; [done|done|done|].
  destruct (Js.len (Uno.hand q) =? 0) eqn:Hz.
  { left. apply Z.eqb_eq in Hz. unfold Js.len in Hz.
    destruct (Uno.hand q); [by destruct Hturn|simpl in Hz; lia]. }
  right. split.
  { intros Hnil. rewrite Hnil in Hz. done. }
  destruct Hturn as (_ & _ & ->). destruct Hok as (Hi & Hd & _). rewrite Hn in *.
  assert (Hcases : (Uno.currentPlayerIndex g = 0 \/ Uno.currentPlayerIndex g = 1)) by lia.
  destruct (String.eqb _ "skip" || String.eqb _ "draw2" || String.eqb _ "wild4") eqn:E3.
  - assert (Hnr : String.eqb (Uno.value card) "reverse" = false).
    { apply orb_true_iff in E3 as [E3|E3]; [apply orb_true_iff in E3 as [E3|E3]|];
        apply String.eqb_eq in E3; by rewrite E3. }
    rewrite Hnr. destruct Hcases as [-> | ->], Hd as [-> | ->]; reflexivity.
  - destruct (String.eqb _ "reverse"); [done|].
    destruct Hcases as [-> | ->], Hd as [-> | ->]; reflexivity.
Qed.

Lemma two_player_turn_witness :
  exists p card q,
    Js.nth (Uno.players (the_uno wild4_played "uno_1000"))
      (Uno.currentPlayerIndex (the_uno wild4_played "uno_1000")) = Some p
    /\ Js.nth (Uno.hand p) 3 = Some card
    /\ Js.nth (Uno.players (written opening
                              (Uno.play_card "bob" 3 None (the_uno wild4_played "uno_1000"))))
         (Uno.currentPlayerIndex (the_uno wild4_played "uno_1000")) = Some q.
Proof.
  destruct (two_player_turn "bob" 3 None (the_uno wild4_played "uno_1000")
              (written opening (Uno.play_card "bob" 3 None (the_uno wild4_played "uno_1000")))
              "uno-card-played") as (p & card & q & Hp & Hc & Hq & _).
  - apply (reachable_uno_ok wild4_played "uno_1000").
    + apply run_reachable. apply run_reachable. constructor.
    + vm_compute. reflexivity.
  - vm_compute. reflexivity.
  - vm_compute. reflexivity.
  - exists p, card, q. split_and!; assumption.
Defined.

(** X7 (card endpoints together): in every world the server can reach, the
    discard pile of a card match that left waiting is not empty, the number
    in force is the value of its top card, and the color in force is the
    color of its top card unless that card is wild. *)
Theorem top_of_discard_is_in_force (w : World) (id : string) (g : Uno.Game) :
  reachable w -> unoGames w !! id = Some g -> top_in_force g.
Proof.
  intros Hr. revert id g. apply (uno_matches_ind top_in_force); [| | | |done].
  - done.
  - intros g rs u g' ev _ Hok. pose proof Hok as (Hi & _). unfold Uno.join.
    destruct (_ >=? Uno.maxPlayers g); [done|]. destruct (existsb _ _); [done|]. cbv zeta.
    cbn [Uno.players Uno.set_players].
    destruct (Z.geb_spec (Js.len (Uno.players g ++ [Uno.mkPlayer u [] false None])) 2)
      as [_|Hlt].
    + destruct (Uno.initializeUNOGame _ _) as [g3|] eqn:Hinit; [|done]. intros [= <- _].
      apply initialize_perm in Hinit as (first & _ & _ & Hd & Hnw & Hc & Hn & _).
      unfold top_in_force. rewrite Hd. done.
    + revert Hlt. unfold Js.len in *. rewrite length_app. simpl. lia.
  - intros g u ci cc g' ev _ _. unfold Uno.play_card.
    destruct (Js.nth (Uno.players g) _) as [p|] eqn:Hp; [|done].
    destruct (negb _); [done|]. destruct (_ >=? _); [done|].
    destruct (Js.nth (Uno.hand p) _) as [card|] eqn:Hc; [|done].
    destruct (negb _); [done|]. cbv zeta.
    destruct (Uno.processUNOCardEffect _ _) as [g4|] eqn:He; [|done].
    intros [= <- _]. destruct (effect_keeps_discard _ _ _ He) as [Hdisc _].
    destruct (effect_keeps_current _ _ _ He) as (Hcol & Hnum & _). simpl in Hdisc, Hcol, Hnum.
    assert (H4 : forall g5, Uno.discardPile g5 = Uno.discardPile g4 ->
                   Uno.currentNumber g5 = Uno.currentNumber g4 ->
                   Uno.currentColor g5 = Uno.currentColor g4 -> top_in_force g5).
    { intros g5 H5d H5n H5c. unfold top_in_force.
      rewrite H5d, H5n, H5c, Hdisc, last_snoc, Hnum, Hcol. split; [done|]. by intros ->. }
    destruct (Js.nth (Uno.players g4) _) as [q|]; [|by apply H4].
    destruct (_ =? 0); by apply H4.
  - intros g rs u g' ev HP _ Hdraw.
    destruct (draw_card_keeps rs u g g' ev Hdraw) as (Hst & Hcol & Hnum & Hlast).
    unfold top_in_force in *. by rewrite Hst, Hcol, Hnum, Hlast.
Qed.

Lemma top_of_discard_is_in_force_witness :
  top_in_force opening.
Proof.
  apply (top_of_discard_is_in_force (dealt still_draws) "uno_1000").
  - apply run_reachable. constructor.
  - vm_compute. reflexivity.
Defined.

(** X8 (play-card, canPlayUNOCard): a play is accepted only from the
    player whose turn it is, for an index inside the hand, and for a card
    that is wild or matches the color or the number in force; the card then
    lies on top of the discard pile, its value is the number in force, and
    the color in force is its color, or for a wild card the chosen color,
    red when none is chosen. *)
Theorem accepted_play_is_legal (u : string) (cardIndex : Z) (chosenColor : option string)
    (g g' : Uno.Game) (ev : string) :
  Uno.play_card u cardIndex chosenColor g = Accepted g' ev ->
  exists p card,
    Js.nth (Uno.players g) (Uno.currentPlayerIndex g) = Some p
    /\ Uno.name p = u
    /\ 0 <= cardIndex < Js.len (Uno.hand p)
    /\ Js.nth (Uno.hand p) cardIndex = Some card
    /\ (Uno.type card = "wild" \/ Uno.color card = Uno.currentColor g
        \/ Uno.value card = Uno.currentNumber g)
    /\ Uno.discardPile g' = Uno.discardPile g ++ [card]
    /\ Uno.currentNumber g' = Uno.value card
    /\ Uno.currentColor g' =
         (if String.eqb (Uno.type card) "wild"
          then match chosenColor with
               | Some c => if String.eqb c "" then "red" else c
               | None => "red"
               end
          else Uno.color card).
Proof.
  intros Hplay.
  destruct (play_card_accepted u cardIndex chosenColor g g' ev Hplay)
    as (p & card & Hp & Hname & Hr & Hc & Hcan & Hdisc & Hnum & Hcol & _).
  exists p, card. split_and!; [done|done|lia|lia|done| |done|done|exact Hcol].
  unfold Uno.canPlayUNOCard, Uno.is_wild in Hcan.
  destruct (String.eqb_spec (Uno.type card) "wild") as [?|_]; [by left|].
  apply orb_true_iff in Hcan as [H|H]; apply String.eqb_eq in H; auto.
Qed.

Lemma accepted_play_is_legal_witness :
  exists p card,
    Js.nth (Uno.players opening) (Uno.currentPlayerIndex opening) = Some p
    /\ Uno.name p = "alice"
    /\ Js.nth (Uno.hand p) 0 = Some card
    /\ Uno.discardPile (written opening (Uno.play_card "alice" 0 (Some "yellow") opening))
       = Uno.discardPile opening ++ [card].
Proof.
  destruct (accepted_play_is_legal "alice" 0 (Some "yellow") opening
              (written opening (Uno.play_card "alice" 0 (Some "yellow") opening))
              "uno-card-played") as (p & card & Hp & Hname & _ & Hc & _ & Hdisc & _).
  - vm_compute. reflexivity.
  - exists p, card. split_and!; assumption.
Defined.

(** ** Grid match *)

Lemma line_won_Some (board : list string) (a b c : Z) (x : string) :
  Ttt.line_won board (a, b, c) = Some x <->
  x <> "" /\ Js.nth board a = Some x /\ Js.nth board b = Some x /\ Js.nth board c = Some x.
Proof.
  unfold Ttt.line_won. destruct (Js.nth board a) as [x0|]; [|split; [done|by intros (_ & ? & _)]].
  split.
  - destruct (String.eqb_spec x0 ""); simpl; [done|].
    destruct (Js.eq_undef (Js.nth board b) x0) eqn:Eb; simpl; [|done].
    destruct (Js.eq_undef (Js.nth board c) x0) eqn:Ec; simpl; [|done].
    intros [= <-]. apply eq_undef_true in Eb, Ec. done.
  - intros (Hne & [= ->] & -> & ->). simpl. rewrite String.eqb_refl.
    by destruct (String.eqb_spec x "").
Qed.

Lemma first_won_Some (board : list string) (ps : list (Z * Z * Z)) (x : string) :
  Ttt.first_won board ps = Some x -> exists p, In p ps /\ Ttt.line_won board p = Some x.
Proof.
  induction ps as [|p ps IH]; simpl; [done|].
  destruct (Ttt.line_won board p) as [y|] eqn:E.
  - intros [= <-]. exists p. by split; [left|].
  - intros H. destruct (IH H) as (q & Hq & Hl). exists q. by split; [right|].
Qed.

Lemma first_won_None (board : list string) (ps : list (Z * Z * Z)) :
  Ttt.first_won board ps = None <-> forall p, In p ps -> Ttt.line_won board p = None.
Proof.
  induction ps as [|p ps IH]; simpl; [by split|].
  destruct (Ttt.line_won board p) as [y|] eqn:E; split.
  - done.
  - intros H. specialize (H p (or_introl eq_refl)). by rewrite E in H.
  - intros H q [<-|Hq]; [done|]. by apply IH.
  - intros H. apply IH. intros q Hq. apply H. by right.
Qed.

Lemma line_won_inserted (board : list string) (p : Z * Z * Z) (pos : Z) (s x : string) :
  0 <= pos ->
  Ttt.line_won (<[Z.to_nat pos := s]> board) p = Some x ->
  x = s \/ Ttt.line_won board p = Some x.
Proof.
  intros Hpos. destruct p as [[a b] c]. rewrite !line_won_Some.
  intros (Hne & Ha & Hb & Hc).
  assert (Hcell : forall k, Js.nth (<[Z.to_nat pos := s]> board) k = Some x ->
                    x = s \/ Js.nth board k = Some x).
  { intros k Hk. destruct (decide (k = pos)) as [->|Hkp].
    - left. apply nth_Some in Hk as [_ Hk].
      apply list_lookup_insert_Some in Hk as [(_ & ? & _)|[? _]]; done.
    - right. by rewrite nth_insert_ne in Hk. }
  destruct (Hcell a Ha) as [?|Ha']; [by left|].
  destruct (Hcell b Hb) as [?|Hb']; [by left|].
  destruct (Hcell c Hc) as [?|Hc']; [by left|]. by right.
Qed.

Lemma full_iff (board : list string) :
  forallb (fun cell => negb (String.eqb cell "")) board = true <-> ~ In "" board.
Proof.
  rewrite forallb_forall. split.
  - intros H Hin. specialize (H "" Hin). done.
  - intros H x Hx. destruct (String.eqb_spec x "") as [->|]; done.
Qed.

Lemma marks_insert (s t : string) (board : list string) (i : nat) :
  board !! i = Some "" -> s <> "" ->
  marks s (<[i := t]> board) = (marks s board + if String.eqb s t then 1 else 0)%nat.
Proof.
  unfold marks. revert i. induction board as [|c board IH]; intros i Hi Hs; [done|].
  destruct i as [|i]; simpl in *.
  - injection Hi as ->. destruct (String.eqb_spec s "") as [|_]; [done|].
    destruct (String.eqb s t); simpl; lia.
  - specialize (IH i Hi Hs). destruct (String.eqb s c); simpl; lia.
Qed.

Lemma ttt_move_accepted (u : string) (position : Z) (g g' : Ttt.Game) (ev : string) :
  Ttt.move u position g = Accepted g' ev ->
  exists player,
    In player (Ttt.players g) /\ Ttt.name player = u
    /\ Ttt.symbol player = Ttt.currentPlayer g
    /\ Js.nth (Ttt.board g) position = Some ""
    /\ Ttt.board g' = <[Z.to_nat position := Ttt.currentPlayer g]> (Ttt.board g)
    /\ Ttt.players g' = Ttt.players g
    /\ match Ttt.checkTicTacToeWinner (Ttt.board g') with
       | Some w => Ttt.status g' = finished /\ Ttt.winner g' = Some w
                   /\ Ttt.currentPlayer g' = Ttt.currentPlayer g
       | None =>
           if forallb (fun cell => negb (String.eqb cell "")) (Ttt.board g')
           then Ttt.status g' = draw /\ Ttt.winner g' = Ttt.winner g
                /\ Ttt.currentPlayer g' = Ttt.currentPlayer g
           else Ttt.status g' = Ttt.status g /\ Ttt.winner g' = Ttt.winner g
                /\ Ttt.currentPlayer g' =
                     (if String.eqb (Ttt.currentPlayer g) "X" then "O" else "X")
       end.
Proof.
  unfold Ttt.move. destruct (find _ _) as [player|] eqn:Hf; [|done].
  apply find_some in Hf as [Hin Hname]. apply String.eqb_eq in Hname.
  destruct (String.eqb_spec (Ttt.currentPlayer g) (Ttt.symbol player)) as [Hsym|]; [|done].
  simpl. destruct (Js.eq_undef _ _) eqn:Hcell; [|done]. apply eq_undef_true in Hcell.
  simpl. rewrite <- Hsym.
  destruct (Ttt.checkTicTacToeWinner _) as [w|] eqn:Hw.
  - intros [= <- _]. exists player. simpl. rewrite Hw. by split_and!.
  - destruct (forallb _ _) eqn:Hfull; intros [= <- _]; exists player; simpl;
      rewrite Hw, Hfull; by split_and!.
Qed.

Lemma symbols_known (ps : list Ttt.Player) (player : Ttt.Player) :
  map Ttt.symbol ps = ["X"] \/ map Ttt.symbol ps = ["X"; "O"] ->
  In player ps -> Ttt.symbol player = "X" \/ Ttt.symbol player = "O".
Proof.
  intros Hs Hin. apply (in_map Ttt.symbol) in Hin.
  destruct Hs as [Hs|Hs]; rewrite Hs in Hin; simpl in Hin; intuition.
Qed.

Lemma grid_sound_new (u : string) (now : Z) : grid_sound (Ttt.newGame u now).
Proof.
  unfold grid_sound. simpl. split_and!; try done.
  - by left.
  - repeat constructor. by intros ?%elem_of_nil.
  - repeat constructor; by left.
  - by left.
  - by left.
Qed.

Lemma grid_sound_join (g : Ttt.Game) (u : string) (g' : Ttt.Game) (ev : string) :
  grid_sound g -> ttt_ok g -> Ttt.join u g = Accepted g' ev -> grid_sound g'.
Proof.
  intros (Hsym & Hnd & Hlen & Hcells & Hcur & Hst) (_ & Hok). unfold Ttt.join.
  destruct (Z.geb_spec (Js.len (Ttt.players g)) 2) as [|Hlt]; [done|].
  destruct (existsb _ _) eqn:Hex; [done|]. intros [= <- _].
  assert (Hw : Ttt.status g = waiting).
  { destruct (Ttt.status g); try done; lia. }
  rewrite Hw in Hst. destruct Hst as (? & ? & ?).
  unfold grid_sound. simpl. split_and!; try done.
  - right. rewrite map_app. destruct Hsym as [-> | Hs]; [done|].
    apply (f_equal length) in Hs. rewrite length_map in Hs. unfold Js.len in Hlt.
    simpl in Hs. lia.
  - rewrite map_app. simpl. apply NoDup_app. split_and!; [done| |apply NoDup_singleton].
    intros x Hx ->%list_elem_of_singleton. apply list_elem_of_In, in_map_iff in Hx
      as (p & Hp & Hin).
    assert (existsb (fun p => String.eqb (Ttt.name p) u) (Ttt.players g) = true); [|congruence].
    apply existsb_exists. exists p. split; [done|]. by apply String.eqb_eq.
Qed.

Lemma grid_sound_move (g : Ttt.Game) (u : string) (position : Z) (g' : Ttt.Game) (ev : string) :
  grid_sound g -> Ttt.move u position g = Accepted g' ev -> grid_sound g'.
Proof.
  intros (Hsym & Hnd & Hlen & Hcells & Hcur & Hst) Hmove.
  destruct (ttt_move_accepted u position g g' ev Hmove)
    as (player & Hin & Hname & Hs & Hcell & Hb & Hps & Hout).
  pose proof (nth_Some _ _ _ Hcell) as [Hr Hlk].
  assert (Hlines : forall p x, In p Ttt.winPatterns ->
            Ttt.line_won (Ttt.board g') p = Some x ->
            x = Ttt.currentPlayer g \/ Ttt.line_won (Ttt.board g) p = Some x).
  { intros p x _ Hl. rewrite Hb in Hl. apply line_won_inserted in Hl; [done|lia]. }
  assert (Hne : Ttt.currentPlayer g <> "") by (destruct Hcur as [-> | ->]; done).
  assert (Hcells' : Forall (fun cell => cell = "" \/ cell = "X" \/ cell = "O") (Ttt.board g')).
  { rewrite Hb. apply Forall_insert; [done|by right]. }
  assert (Hlen' : length (Ttt.board g') = 9%nat) by (by rewrite Hb, length_insert).
  unfold grid_sound. rewrite Hps. split_and!; try done.
  { destruct (Ttt.checkTicTacToeWinner (Ttt.board g')) as [w|].
    - by destruct Hout as (_ & _ & ->).
    - destruct (forallb _ (Ttt.board g')); destruct Hout as (_ & _ & ->); [done|].
      destruct (String.eqb (Ttt.currentPlayer g) "X"); [by right|by left]. }
  destruct (Ttt.status g) eqn:Hstatus; try done.
  - (* waiting *)
    destruct Hst as (Hnone & Hempty & Hmarks).
    pose proof (proj1 (first_won_None _ _) Hnone) as Hno.
    destruct (Ttt.checkTicTacToeWinner (Ttt.board g')) as [w|] eqn:Hw.
    + destruct Hout as (-> & Hwin & Hc'). rewrite Hc'.
      assert (Hall : forall p x, In p Ttt.winPatterns ->
                Ttt.line_won (Ttt.board g') p = Some x -> x = Ttt.currentPlayer g).
      { intros p x Hp Hl. destruct (Hlines p x Hp Hl) as [?|Hold]; [done|].
        by rewrite (Hno p Hp) in Hold. }
      destruct (first_won_Some _ _ _ Hw) as (p & Hp & Hl).
      rewrite (Hall p w Hp Hl) in *. by split_and!.
    + destruct (forallb _ (Ttt.board g')) eqn:Hfull.
      * destruct Hout as (-> & _). split; [done|]. by apply full_iff.
      * destruct Hout as (-> & _ & Hc'). split_and!; [done| |].
        { destruct (in_dec string_dec "" (Ttt.board g')) as [|Hnot]; [done|].
          apply full_iff in Hnot. congruence. }
        rewrite Hb, !marks_insert, Hmarks, Hc' by done.
        destruct Hcur as [-> | ->]; simpl; lia.
  - (* playing *)
    destruct Hst as (Hnone & Hempty & Hmarks).
    pose proof (proj1 (first_won_None _ _) Hnone) as Hno.
    destruct (Ttt.checkTicTacToeWinner (Ttt.board g')) as [w|] eqn:Hw.
    + destruct Hout as (-> & Hwin & Hc'). rewrite Hc'.
      assert (Hall : forall p x, In p Ttt.winPatterns ->
                Ttt.line_won (Ttt.board g') p = Some x -> x = Ttt.currentPlayer g).
      { intros p x Hp Hl. destruct (Hlines p x Hp Hl) as [?|Hold]; [done|].
        by rewrite (Hno p Hp) in Hold. }
      destruct (first_won_Some _ _ _ Hw) as (p & Hp & Hl).
      rewrite (Hall p w Hp Hl) in *. by split_and!.
    + destruct (forallb _ (Ttt.board g')) eqn:Hfull.
      * destruct Hout as (-> & _). split; [done|]. by apply full_iff.
      * destruct Hout as (-> & _ & Hc'). split_and!; [done| |].
        { destruct (in_dec string_dec "" (Ttt.board g')) as [|Hnot]; [done|].
          apply full_iff in Hnot. congruence. }
        rewrite Hb, !marks_insert, Hmarks, Hc' by done.
        destruct Hcur as [-> | ->]; simpl; lia.
  - (* finished *)
    destruct Hst as (Hwin & Hchk & Hall0).
    assert (Hall : forall p x, In p Ttt.winPatterns ->
              Ttt.line_won (Ttt.board g') p = Some x -> x = Ttt.currentPlayer g).
    { intros p x Hp Hl. destruct (Hlines p x Hp Hl) as [?|Hold]; [done|]. by eapply Hall0. }
    assert (Hstill : Ttt.checkTicTacToeWinner (Ttt.board g') <> None).
    { rewrite Hb. apply first_won_insert; [done|].
      change (Ttt.checkTicTacToeWinner (Ttt.board g) <> None). by rewrite Hchk. }
    destruct (Ttt.checkTicTacToeWinner (Ttt.board g')) as [w|] eqn:Hw; [|done].
    destruct Hout as (-> & Hwin' & Hc'). rewrite Hc'.
    destruct (first_won_Some _ _ _ Hw) as (p & Hp & Hl).
    rewrite (Hall p w Hp Hl) in *. by split_and!.
  - (* draw *)
    destruct Hst as (_ & Hfull). exfalso. apply Hfull.
    apply list_elem_of_In. by eapply list_elem_of_lookup_2.
Qed.

Lemma reachable_grid_sound (w : World) (id : string) (g : Ttt.Game) :
  reachable w -> ticTacToeGames w !! id = Some g -> grid_sound g.
Proof.
  intros Hr. revert id g. apply (ttt_matches_ind grid_sound); [| | |done].
  - apply grid_sound_new.
  - intros g u g' ev HP Hok Hj. by eapply grid_sound_join.
  - intros g u position g' ev HP _ Hm. by eapply grid_sound_move.
Qed.

(** X9 (checkTicTacToeWinner): the function answers with a mark only if
    that mark is not empty and fills the three cells of one of the eight
    lines, and it answers null exactly when no line holds three equal
    non-empty cells. *)
Theorem winner_means_three_in_a_row (board : list string) :
  (forall s, Ttt.checkTicTacToeWinner board = Some s ->
     s <> "" /\ exists a b c, In (a, b, c) Ttt.winPatterns
       /\ Js.nth board a = Some s /\ Js.nth board b = Some s /\ Js.nth board c = Some s)
  /\ (Ttt.checkTicTacToeWinner board = None <->
      forall a b c s, In (a, b, c) Ttt.winPatterns ->
        Js.nth board a = Some s -> Js.nth board b = Some s -> Js.nth board c = Some s ->
        s = "").
Proof.
  split.
  - intros s Hs. apply first_won_Some in Hs as ([[a b] c] & Hp & Hl).
    apply line_won_Some in Hl as (Hne & Ha & Hb & Hc). split; [done|]. by exists a, b, c.
  - unfold Ttt.checkTicTacToeWinner. rewrite first_won_None. split.
    + intros H a b c s Hp Ha Hb Hc. destruct (String.eqb_spec s "") as [|Hne]; [done|].
      specialize (H (a, b, c) Hp).
      assert (Hl : Ttt.line_won board (a, b, c) = Some s) by (by apply line_won_Some).
      congruence.
    + intros H [[a b] c] Hp. destruct (Ttt.line_won board (a, b, c)) as [x|] eqn:Hl; [|done].
      apply line_won_Some in Hl as (Hne & Ha & Hb & Hc). by specialize (H a b c x Hp Ha Hb Hc).
Qed.

(** X10 (grid endpoints together): in every world the server can reach, a
    grid match has one player with X or two with X and O, of different
    names, a board of nine cells each empty, X or O, and a status that tells
    the board: while waiting or playing no line is complete, a cell is
    empty and X has as many marks as O, one more when it is O's turn; when
    finished the winner recorded is the player who moved last, the check
    names that player and every complete line is that player's; in a draw
    the board is full without a complete line. *)
Theorem grid_status_tells_the_board (w : World) (id : string) (g : Ttt.Game) :
  reachable w -> ticTacToeGames w !! id = Some g -> grid_sound g.
Proof. apply reachable_grid_sound. Qed.

Lemma grid_status_tells_the_board_witness : grid_sound (the_ttt grid_drawn "ttt_1000").
Proof.
  apply (grid_status_tells_the_board grid_drawn "ttt_1000").
  - apply run_reachable. constructor.
  - vm_compute. reflexivity.
Defined.

(** X11 (POST /api/tictactoe/move): a move is accepted only from a player
    of the match whose mark has the turn and only on a cell of the board
    that is empty; it writes that player's mark into that cell, leaves every
    other cell and the players as they were, and afterwards the match is
    finished when a line is complete, a draw when the board is full, and
    otherwise keeps its status and gives the turn to the other mark. *)
Theorem move_marks_one_empty_cell (u : string) (position : Z) (g g' : Ttt.Game)
    (ev : string) :
  Ttt.move u position g = Accepted g' ev ->
  exists player,
    In player (Ttt.players g) /\ Ttt.name player = u
    /\ Ttt.symbol player = Ttt.currentPlayer g
    /\ 0 <= position < Js.len (Ttt.board g)
    /\ Js.nth (Ttt.board g) position = Some ""
    /\ Js.nth (Ttt.board g') position = Some (Ttt.currentPlayer g)
    /\ (forall k, k <> position -> Js.nth (Ttt.board g') k = Js.nth (Ttt.board g) k)
    /\ Ttt.players g' = Ttt.players g
    /\ match Ttt.checkTicTacToeWinner (Ttt.board g') with
       | Some w => Ttt.status g' = finished /\ Ttt.winner g' = Some w
                   /\ Ttt.currentPlayer g' = Ttt.currentPlayer g
       | None =>
           if forallb (fun cell => negb (String.eqb cell "")) (Ttt.board g')
           then Ttt.status g' = draw /\ Ttt.winner g' = Ttt.winner g
                /\ Ttt.currentPlayer g' = Ttt.currentPlayer g
           else Ttt.status g' = Ttt.status g /\ Ttt.winner g' = Ttt.winner g
                /\ Ttt.currentPlayer g' =
                     (if String.eqb (Ttt.currentPlayer g) "X" then "O" else "X")
       end.
Proof.
  intros Hmove.
  destruct (ttt_move_accepted u position g g' ev Hmove)
    as (player & Hin & Hname & Hs & Hcell & Hb & Hps & Hout).
  pose proof (nth_Some _ _ _ Hcell) as [Hr Hlk].
  exists player. split_and!; try done; try lia.
  - rewrite Hb. unfold Js.nth. destruct (position <? 0) eqn:E; [lia|].
    apply list_lookup_insert_eq. by eapply lookup_lt_Some.
  - intros k Hk. rewrite Hb. apply nth_insert_ne; [lia|done].
Qed.

Lemma move_marks_one_empty_cell_witness :
  exists player,
    In player (Ttt.players (Ttt.newGame "alice" 1000)) /\ Ttt.name player = "alice"
    /\ Js.nth (Ttt.board (written (Ttt.newGame "alice" 1000)
                            (Ttt.move "alice" 4 (Ttt.newGame "alice" 1000)))) 4
       = Some "X".
Proof.
  destruct (move_marks_one_empty_cell "alice" 4 (Ttt.newGame "alice" 1000)
              (written (Ttt.newGame "alice" 1000)
                 (Ttt.move "alice" 4 (Ttt.newGame "alice" 1000)))
              "tictactoe-move-made") as (player & Hin & Hname & _ & _ & _ & Hcell & _).
  - reflexivity.
  - exists player. split_and!; assumption.
Defined.

(** X12 (POST /api/tictactoe/move on a full board): in every world the
    server can reach, a grid match in a draw refuses every move, whoever
    asks and whatever the position. *)
Theorem drawn_grid_refuses_every_move (w : World) (id : string) (g : Ttt.Game)
    (u : string) (position : Z) :
  reachable w -> ticTacToeGames w !! id = Some g -> Ttt.status g = draw ->
  exists code message, Ttt.move u position g = Rejected code message.
Proof.
  intros Hr Hg Hst.
  pose proof (reachable_grid_sound w id g Hr Hg) as Hs.
  destruct Hs as (_ & _ & _ & _ & _ & Hd). rewrite Hst in Hd. destruct Hd as [_ Hfull].
  apply full_iff in Hfull. unfold Ttt.move.
  destruct (find _ _) as [player|]; [|by eexists _, _].
  destruct (negb (String.eqb _ _)); [by eexists _, _|].
  rewrite (full_board_taken _ position Hfull). simpl. by eexists _, _.
Qed.

Lemma drawn_grid_refuses_every_move_witness :
  exists code message,
    Ttt.move "alice" 0 (the_ttt grid_drawn "ttt_1000") = Rejected code message.
Proof.
  apply (drawn_grid_refuses_every_move grid_drawn "ttt_1000").
  - apply run_reachable. constructor.
  - vm_compute. reflexivity.
  - vm_compute. reflexivity.
Defined.

(** ** Chess match *)

Lemma write_board_shape (board : list (list (option string))) (r : Z) (c : option Z)
    (v : option string) :
  eight_by_eight board -> eight_by_eight (Chess.write_board board r c v).
Proof.
  intros [Hl Hrows]. unfold Chess.write_board.
  destruct (Js.nth board r) as [row|] eqn:Hr; [|done].
  apply nth_Some in Hr as [_ Hr]. split; [by rewrite length_insert|].
  apply Forall_insert; [done|].
  assert (Hrow : length row = 8%nat).
  { by eapply (Forall_lookup_1 (fun row => length row = 8%nat)). }
  unfold Chess.write_cell. destruct c as [n|]; [|done].
  destruct (_ && _); [by rewrite length_insert|done].
Qed.

Lemma square_write (board : list (list (option string))) (r c : Z) (v : option string)
    (r' c' : Z) :
  eight_by_eight board -> 0 <= r <= 7 -> 0 <= c <= 7 ->
  square (Chess.write_board board r (Some c) v) r' c'
  = if bool_decide (r' = r /\ c' = c) then v else square board r' c'.
Proof.
  intros [Hl Hrows] Hr Hc. unfold Chess.write_board.
  destruct (nth_in_range board r) as [row Hrow]; [unfold Js.len; lia|]. rewrite Hrow.
  pose proof (nth_Some _ _ _ Hrow) as [_ Hlk].
  assert (Hlen : length row = 8%nat).
  { by eapply (Forall_lookup_1 (fun row => length row = 8%nat)). }
  unfold Chess.write_cell, Js.len. rewrite Hlen.
  replace ((0 <=? c) && (c <? Z.of_nat 8)) with true
    by (symmetry; apply andb_true_iff; split; [apply Z.leb_le|apply Z.ltb_lt]; lia).
  unfold square. destruct (decide (r' = r)) as [->|Hne].
  - assert (Hsame : Js.nth (<[Z.to_nat r := <[Z.to_nat c := v]> row]> board) r
                    = Some (<[Z.to_nat c := v]> row)).
    { unfold Js.nth. destruct (r <? 0) eqn:E; [lia|].
      apply list_lookup_insert_eq. by eapply lookup_lt_Some. }
    rewrite Hsame, Hrow. destruct (decide (c' = c)) as [->|Hc'].
    + rewrite bool_decide_eq_true_2 by done.
      unfold Js.nth. destruct (c <? 0) eqn:E; [lia|].
      rewrite list_lookup_insert_eq; [done|lia].
    + rewrite bool_decide_eq_false_2 by (intros [_ ?]; done).
      rewrite nth_insert_ne; [done|lia|done].
  - rewrite bool_decide_eq_false_2 by (intros [? _]; done).
    rewrite nth_insert_ne; [done|lia|done].
Qed.

Lemma off_board_false (x : option Z) :
  Chess.off_board x = false -> forall n, x = Some n -> 0 <= n <= 7.
Proof.
  intros H n ->. simpl in H. apply orb_false_iff in H as [H1 H2].
  apply Z.ltb_ge in H1. destruct (Z.gtb_spec n 7); [done|lia].
Qed.

Lemma valid_move_from (board : list (list (option string))) (from to color : string) :
  Chess.isValidMove board from to color = Some true ->
  Chess.off_board (Chess.parseInt_at1 to) = false
  /\ Chess.off_board (Chess.col_of to) = false
  /\ exists fr fc piece,
       Chess.parseInt_at1 from = Some fr /\ Chess.col_of from = Some fc
       /\ 0 <= fr <= 7 /\ 0 <= fc <= 7
       /\ square board (7 - fr) fc = Some piece /\ piece <> ""
       /\ (if String.eqb piece (Js.toUpperCase piece) then "white" else "black") = color.
Proof.
  unfold Chess.isValidMove.
  destruct (Chess.off_board (Chess.parseInt_at1 from)) eqn:E1; [done|].
  destruct (Chess.off_board (Chess.col_of from)) eqn:E2; [done|].
  destruct (Chess.off_board (Chess.parseInt_at1 to)) eqn:E3; [done|].
  destruct (Chess.off_board (Chess.col_of to)) eqn:E4; [done|]. simpl.
  destruct (Chess.parseInt_at1 from) as [fr|] eqn:Hfr; [|done]. simpl.
  destruct (Js.nth board (7 - fr)) as [row|] eqn:Hrow; [|done].
  destruct (Chess.col_of from) as [fc|] eqn:Hfc; [|done]. simpl.
  destruct (Js.nth row fc) as [[piece|]|] eqn:Hp; try done.
  destruct (String.eqb_spec piece ""); [done|]. intros [= Hcol].
  apply String.eqb_eq in Hcol. split_and!; [done|done|].
  pose proof (off_board_false _ E1 fr eq_refl).
  pose proof (off_board_false _ E2 fc eq_refl).
  exists fr, fc, piece. split_and!; try done; try lia.
  unfold square. by rewrite Hrow, Hp.
Qed.

Lemma col_of_Some_of_index1 (s : string) (n : Z) :
  Chess.parseInt_at1 s = Some n -> exists c, Chess.col_of s = Some c.
Proof.
  unfold Chess.parseInt_at1, Chess.col_of. destruct s; [done|]. by eexists.
Qed.

Lemma chess_move_accepted (u from to : string) (now : Z) (g g' : Chess.Game) (ev : string) :
  eight_by_eight (Chess.board g) ->
  Chess.move u from to now g = Accepted g' ev ->
  exists fr fc tr tc piece,
    Chess.parseInt_at1 from = Some fr /\ Chess.col_of from = Some fc
    /\ Chess.parseInt_at1 to = Some tr /\ Chess.col_of to = Some tc
    /\ 0 <= fr <= 7 /\ 0 <= fc <= 7 /\ 0 <= tr <= 7 /\ 0 <= tc <= 7
    /\ square (Chess.board g) (7 - fr) fc = Some piece /\ piece <> ""
    /\ (if String.eqb piece (Js.toUpperCase piece) then "white" else "black") = Chess.turn g
    /\ (forall r c,
          square (Chess.board g') r c
          = if bool_decide (r = 7 - fr /\ c = fc) then None
            else if bool_decide (r = 7 - tr /\ c = tc) then Some piece
                 else square (Chess.board g) r c)
    /\ eight_by_eight (Chess.board g')
    /\ In u (Chess.players g)
    /\ Chess.turn g = (if Js.eq_undef (Js.nth (Chess.players g) 0) u then "white" else "black")
    /\ Chess.players g' = Chess.players g
    /\ Chess.moves g' = Chess.moves g ++ [Chess.mkMove from to u now]
    /\ Chess.turn g' = (if String.eqb (Chess.turn g) "white" then "black" else "white")
    /\ Chess.status g' = Chess.status g /\ Chess.winner g' = Chess.winner g.
Proof.
  intros Hshape. unfold Chess.move.
  destruct (Js.includes _ _) eqn:Hinc; [|done]. simpl.
  destruct (String.eqb_spec (Chess.turn g)
              (if Js.eq_undef (Js.nth (Chess.players g) 0) u then "white" else "black"))
    as [Hturn|]; [|done]. simpl.
  destruct (Chess.isValidMove _ _ _ _) as [[|]|] eqn:Hvalid; try done.
  apply valid_move_from in Hvalid
    as (Ht1 & Ht2 & fr & fc & piece & Hfr & Hfc & Hrfr & Hrfc & Hsq & Hne & Hcol).
  destruct (Chess.makeMove _ _ _) as [board'|] eqn:Hmk; [|done].
  cbv zeta. unfold Chess.isCheckmate, Chess.isStalemate. intros [= <- _]. simpl.
  revert Hmk. unfold Chess.makeMove. rewrite Hfr, Hfc. simpl.
  destruct (Chess.parseInt_at1 to) as [tr|] eqn:Htr; [|done]. simpl.
  destruct (col_of_Some_of_index1 to tr Htr) as [tc Htc]. rewrite Htc in *.
  pose proof (off_board_false _ Ht1 tr eq_refl) as Hrtr.
  pose proof (off_board_false _ Ht2 tc eq_refl) as Hrtc.
  destruct (Js.nth (Chess.board g) (7 - tr)) as [trow|] eqn:Htrow; [|done].
  destruct (Js.nth (Chess.board g) (7 - fr)) as [frow|] eqn:Hfrow; [|done].
  intros [= <-].
  assert (Hpiece : match Js.nth frow fc with Some p => p | None => None end = Some piece).
  { revert Hsq. unfold square. by rewrite Hfrow. }
  rewrite Hpiece.
  exists fr, fc, tr, tc, piece. split_and!; try done; try lia.
  - by rewrite Hturn.
  - intros r c. rewrite square_write; [|by apply write_board_shape|lia|lia].
    destruct (bool_decide (r = 7 - fr /\ c = fc)); [done|].
    rewrite square_write; [done|done|lia|lia].
  - by do 2 apply write_board_shape.
  - unfold Js.includes in Hinc. apply existsb_exists in Hinc as (p & Hin & Hp).
    apply String.eqb_eq in Hp. by subst.
Qed.

Lemma even_mod2 (n : nat) : (n mod 2)%nat = if Nat.even n then 0%nat else 1%nat.
Proof.
  destruct (Nat.even n) eqn:Hev.
  - apply Nat.even_spec in Hev as [q ->]. by rewrite Nat.mul_comm, Nat.Div0.mod_mul.
  - assert (Hodd : Nat.odd n = true) by (by rewrite <- Nat.negb_even, Hev).
    apply Nat.odd_spec in Hodd as [q ->].
    by rewrite Nat.add_comm, Nat.mul_comm, Nat.Div0.mod_add.
Qed.

Lemma chess_sound_new (u : string) (now : Z) : chess_sound (Chess.newGame u now).
Proof.
  unfold chess_sound, eight_by_eight. simpl. split_and!; try done.
  - repeat constructor.
  - repeat constructor. by intros ?%elem_of_nil.
  - by left.
Qed.

Lemma chess_sound_join (g : Chess.Game) (u : string) (g' : Chess.Game) (ev : string) :
  chess_sound g -> Chess.join u g = Accepted g' ev -> chess_sound g'.
Proof.
  intros (Hshape & Hnd & Hst & Hwin & Hturn & Hlog). unfold Chess.join.
  destruct (Z.geb_spec (Js.len (Chess.players g)) 2) as [|Hlt]; [done|].
  destruct (Js.includes _ _) eqn:Hinc; [done|]. intros [= <- _].
  unfold chess_sound. simpl. split_and!; try done.
  - apply NoDup_app. split_and!; [done| |apply NoDup_singleton].
    intros x Hx ->%list_elem_of_singleton.
    assert (Js.includes (Chess.players g) (Some u) = true); [|congruence].
    unfold Js.includes. apply existsb_exists. exists u.
    split; [by apply list_elem_of_In|apply String.eqb_refl].
  - right. split; [done|]. rewrite length_app. simpl. unfold Js.len in Hlt.
    destruct Hst as [[_ ?]|[_ ?]]; lia.
  - intros k m Hk. apply lookup_app_l_Some. by apply Hlog.
Qed.

Lemma chess_sound_move (g : Chess.Game) (u from to : string) (now : Z) (g' : Chess.Game)
    (ev : string) :
  chess_sound g -> Chess.move u from to now g = Accepted g' ev -> chess_sound g'.
Proof.
  intros (Hshape & Hnd & Hst & Hwin & Hturn & Hlog) Hmove.
  destruct (chess_move_accepted u from to now g g' ev Hshape Hmove)
    as (fr & fc & tr & tc & piece & _ & _ & _ & _ & _ & _ & _ & _ & _ & _ & _ & _
        & Hshape' & Hin & Hcolor & Hps & Hmoves & Hturn' & Hst' & Hwin').
  unfold chess_sound. rewrite Hps, Hmoves, Hturn', Hst', Hwin', length_app. cbn [length].
  split_and!; try done.
  - rewrite Hturn. replace (length (Chess.moves g) + 1)%nat with (S (length (Chess.moves g)))
      by lia. rewrite Nat.even_succ, <- Nat.negb_even.
    by destruct (Nat.even (length (Chess.moves g))).
  - intros k m Hk. apply lookup_app_Some in Hk as [Hk|[Hge Hk]]; [by apply Hlog|].
    apply list_lookup_singleton_Some in Hk as [Hk <-]. cbn [Chess.player].
    assert (k = length (Chess.moves g)) as -> by lia.
    rewrite Hturn in Hcolor. rewrite even_mod2.
    destruct (Chess.players g) as [|a [|b [|c ps]]] eqn:Hplayers;
      try (destruct Hst as [[_ ?]|[_ ?]]; simpl in *; lia).
    + (* one player *)
      apply list_elem_of_In, list_elem_of_singleton in Hin as ->.
      revert Hcolor. unfold Js.nth. simpl. rewrite String.eqb_refl.
      by destruct (Nat.even (length (Chess.moves g))).
    + (* two players *)
      revert Hcolor. unfold Js.nth. simpl.
      destruct (String.eqb_spec a u) as [->|Hau];
        destruct (Nat.even (length (Chess.moves g))); try done.
      intros _. simpl. f_equal. destruct Hin as [?|[?|[]]]; done.
Qed.

Lemma reachable_chess_sound (w : World) (id : string) (g : Chess.Game) :
  reachable w -> chessGames w !! id = Some g -> chess_sound g.
Proof.
  intros Hr. revert id g. apply (chess_matches_ind chess_sound); [| | |done].
  - apply chess_sound_new.
  - intros g u g' ev HP _ Hj. by eapply chess_sound_join.
  - intros g u from to now g' ev HP _ Hm. by eapply chess_sound_move.
Qed.

(** X13 (isValidMove): a move is valid only if its origin is a square of
    the board, row digit 0 to 7 and column letter a to h, holding a piece of
    the player's color, upper case for white; and then every destination
    that passes the bounds test is valid as well: no rule of chess is
    checked. *)
Theorem valid_move_looks_at_the_origin_only (board : list (list (option string)))
    (from to color : string) :
  Chess.isValidMove board from to color = Some true ->
  (exists fr fc piece,
     Chess.parseInt_at1 from = Some fr /\ Chess.col_of from = Some fc
     /\ 0 <= fr <= 7 /\ 0 <= fc <= 7
     /\ square board (7 - fr) fc = Some piece /\ piece <> ""
     /\ (if String.eqb piece (Js.toUpperCase piece) then "white" else "black") = color)
  /\ forall to',
       Chess.off_board (Chess.parseInt_at1 to') = false ->
       Chess.off_board (Chess.col_of to') = false ->
       Chess.isValidMove board from to' color = Some true.
Proof.
  intros Hvalid. split; [by apply valid_move_from in Hvalid as (_ & _ & H)|].
  intros to' H1 H2. revert Hvalid. unfold Chess.isValidMove.
  destruct (Chess.off_board (Chess.parseInt_at1 from)); [done|].
  destruct (Chess.off_board (Chess.col_of from)); [done|].
  destruct (Chess.off_board (Chess.parseInt_at1 to)); [done|].
  destruct (Chess.off_board (Chess.col_of to)); [done|].
  by rewrite H1, H2.
Qed.

Lemma valid_move_looks_at_the_origin_only_witness :
  Chess.isValidMove Chess.initializeChessBoard "e1" "e1" "white" = Some true.
Proof.
  destruct (valid_move_looks_at_the_origin_only Chess.initializeChessBoard "e1" "e3" "white")
    as [_ Hany].
  - reflexivity.
  - apply (Hany "e1"); reflexivity.
Defined.

(** X14 (POST /api/chess/move, makeMove): on a board of eight by eight, an
    accepted move comes from a player of the match whose color has the turn,
    takes a piece of that color from a square of the board and puts it on
    the destination square, whatever stood there; the origin is left empty,
    also when origin and destination are the same square, so that the piece
    is lost; every other square is unchanged, the move is appended to the
    log, the turn passes to the other color, and players, status and winner
    are kept. *)
Theorem accepted_move_relocates_one_piece (u from to : string) (now : Z)
    (g g' : Chess.Game) (ev : string) :
  eight_by_eight (Chess.board g) ->
  Chess.move u from to now g = Accepted g' ev ->
  exists fr fc tr tc piece,
    Chess.parseInt_at1 from = Some fr /\ Chess.col_of from = Some fc
    /\ Chess.parseInt_at1 to = Some tr /\ Chess.col_of to = Some tc
    /\ 0 <= fr <= 7 /\ 0 <= fc <= 7 /\ 0 <= tr <= 7 /\ 0 <= tc <= 7
    /\ square (Chess.board g) (7 - fr) fc = Some piece /\ piece <> ""
    /\ (if String.eqb piece (Js.toUpperCase piece) then "white" else "black") = Chess.turn g
    /\ (forall r c,
          square (Chess.board g') r c
          = if bool_decide (r = 7 - fr /\ c = fc) then None
            else if bool_decide (r = 7 - tr /\ c = tc) then Some piece
                 else square (Chess.board g) r c)
    /\ eight_by_eight (Chess.board g')
    /\ In u (Chess.players g)
    /\ Chess.turn g = (if Js.eq_undef (Js.nth (Chess.players g) 0) u then "white" else "black")
    /\ Chess.players g' = Chess.players g
    /\ Chess.moves g' = Chess.moves g ++ [Chess.mkMove from to u now]
    /\ Chess.turn g' = (if String.eqb (Chess.turn g) "white" then "black" else "white")
    /\ Chess.status g' = Chess.status g /\ Chess.winner g' = Chess.winner g.
Proof. apply chess_move_accepted. Qed.

Lemma accepted_move_relocates_one_piece_witness :
  exists fr fc tr tc piece,
    Chess.parseInt_at1 "e1" = Some fr /\ Chess.col_of "e1" = Some fc
    /\ Chess.parseInt_at1 "e3" = Some tr /\ Chess.col_of "e3" = Some tc
    /\ square (Chess.board (Chess.newGame "alice" 1000)) (7 - fr) fc = Some piece
    /\ square (Chess.board (written (Chess.newGame "alice" 1000)
                              (Chess.move "alice" "e1" "e3" 2000 (Chess.newGame "alice" 1000))))
         (7 - tr) tc
       = Some piece.
Proof.
  destruct (accepted_move_relocates_one_piece "alice" "e1" "e3" 2000
              (Chess.newGame "alice" 1000)
              (written (Chess.newGame "alice" 1000)
                 (Chess.move "alice" "e1" "e3" 2000 (Chess.newGame "alice" 1000)))
              "move-made")
    as (fr & fc & tr & tc & piece & Hfr & Hfc & Htr & Htc & _ & _ & _ & _ & Hsq & _ & _
        & Hboard & _).
  - split; [reflexivity|]. repeat constructor.
  - reflexivity.
  - exists fr, fc, tr, tc, piece. split_and!; try assumption.
    rewrite Hboard. injection Hfr as <-. injection Htr as <-. injection Hfc as <-.
    injection Htc as <-. reflexivity.
Defined.

(** X15 (chess endpoints together): in every world the server can reach, a
    chess match has a board of eight by eight, one player while waiting and
    two different players while playing, and no other status; it never has
    a winner; white has the turn exactly when the log holds an even number
    of moves; and the moves of the log alternate between the two players,
    the creator first. *)
Theorem chess_match_never_ends (w : World) (id : string) (g : Chess.Game) :
  reachable w -> chessGames w !! id = Some g -> chess_sound g.
Proof. apply reachable_chess_sound. Qed.

Lemma chess_match_never_ends_witness : chess_sound (the_chess chess_opened "1000").
Proof.
  apply (chess_match_never_ends chess_opened "1000").
  - apply run_reachable. constructor.
  - vm_compute. reflexivity.
Defined.

(** ** Race match *)

Lemma next_index_range (g : Ludo.Game) :
  0 <= Ludo.currentPlayerIndex g < Js.len (Ludo.players g) ->
  0 <= Ludo.next_index g < Js.len (Ludo.players g).
Proof.
  intros Hi. unfold Ludo.next_index, Js.rem. rewrite Z.rem_mod_nonneg by lia.
  apply Z.mod_pos_bound. lia.
Qed.

Lemma Qle_bool_false (x y : Q) : Qle_bool x y = false -> (y <= x)%Q.
Proof.
  intros E. apply Qlt_le_weak, Qnot_le_lt. intros H.
  apply Qle_bool_iff in H. congruence.
Qed.

Lemma clamp_range (playerCount : Js.Number) (q : Q) :
  Js.math_min (Js.math_max playerCount (Js.num 2)) (Js.num 8) = Some q ->
  (inject_Z 2 <= q <= inject_Z 8)%Q.
Proof.
  destruct playerCount as [x|]; [|done]. unfold Js.math_min, Js.math_max, Js.num.
  destruct (Qle_bool x (inject_Z 2)) eqn:E1.
  - change (Qle_bool (inject_Z 2) (inject_Z 8)) with true. intros [= <-].
    split; [apply Qle_refl|done].
  - apply Qle_bool_false in E1.
    destruct (Qle_bool x (inject_Z 8)) eqn:E2; intros [= <-].
    + apply Qle_bool_iff in E2. done.
    + split; [done|apply Qle_refl].
Qed.

Lemma race_sound_new (u : string) (now : Z) : race_sound (Ludo.newGame u now).
Proof.
  unfold race_sound, Js.len. simpl. split_and!; try lia; try done.
  - by intros q [= <-].
  - repeat constructor; simpl; lia.
Qed.

Lemma home_player_sound (n : string) (c : bool) (d : option string) :
  map Ludo.id (Ludo.pieces (Ludo.mkPlayer n c d Ludo.homePieces 0 None)) = [0; 1; 2; 3]
  /\ Forall (fun piece => Ludo.position piece <= 56)
       (Ludo.pieces (Ludo.mkPlayer n c d Ludo.homePieces 0 None))
  /\ 0 <= Ludo.piecesInGoal (Ludo.mkPlayer n c d Ludo.homePieces 0 None).
Proof. simpl. split_and!; [done| |lia]. repeat constructor; simpl; lia. Qed.

Lemma race_sound_join (g : Ludo.Game) (u : string) (g' : Ludo.Game) (ev : string) :
  race_sound g -> Ludo.join u g = Accepted g' ev -> race_sound g'.
Proof.
  intros (Hn & Hi & Hmax & Hps & Hdice). unfold Ludo.join.
  destruct (Js.ge _ _); [done|].
  destruct (existsb _ _); [done|]. intros [= <- _].
  unfold race_sound. simpl. unfold Js.len in *. rewrite length_app. simpl.
  split_and!; try lia; try done.
  apply Forall_app. split; [done|]. constructor; [|done]. apply home_player_sound.
Qed.

Lemma race_sound_start (g : Ludo.Game) (pc : Js.Number) (ac : bool) (gm df : option string)
    (g' : Ludo.Game) (ev : string) :
  race_sound g -> Ludo.start pc ac gm df g = Accepted g' ev -> race_sound g'.
Proof.
  intros (Hn & Hi & Hmax & Hps & Hdice). unfold Ludo.start. intros [= <- _].
  unfold race_sound. cbn [Ludo.players Ludo.currentPlayerIndex Ludo.maxPlayers
                           Ludo.diceRolled Ludo.lastDiceRoll].
  destruct (ac && _).
  - unfold Js.len in *. rewrite length_app, length_map, length_seq.
    split_and!; try lia; try done; [apply clamp_range|].
    apply Forall_app. split; [done|]. apply Forall_map. apply Forall_forall.
    intros i _. apply home_player_sound.
  - split_and!; try lia; try done. apply clamp_range.
Qed.

Lemma race_sound_roll (g : Ludo.Game) (rs : list nat) (u : string) (g' : Ludo.Game)
    (ev : string) :
  race_sound g -> fst (Ludo.roll rs u g) = Accepted g' ev -> race_sound g'.
Proof.
  intros (Hn & Hi & Hmax & Hps & Hdice). unfold Ludo.roll.
  destruct (Js.nth _ _) as [p|]; [|done]. destruct (negb _); [done|].
  destruct (Ludo.diceRolled g); [done|]. simpl. intros [= <- _].
  unfold race_sound. simpl. split_and!; try lia; try done.
  eexists. split; [done|]. unfold Js.random_below.
  pose proof (Nat.mod_upper_bound (hd 0%nat rs) 6). lia.
Qed.

Lemma race_sound_advance (g : Ludo.Game) :
  race_sound g ->
  race_sound (Ludo.set_dice (Ludo.set_currentPlayerIndex g (Ludo.next_index g)) false None).
Proof.
  intros (Hn & Hi & Hmax & Hps & Hdice). unfold race_sound. simpl.
  pose proof (next_index_range g Hi). split_and!; try lia; done.
Qed.

Lemma race_sound_auto (g : Ludo.Game) (rolledIndex diceRoll : Z) :
  race_sound g -> race_sound (Ludo.auto_advance rolledIndex diceRoll g).
Proof.
  intros Hs. unfold Ludo.auto_advance.
  destruct (Js.nth _ _) as [p|]; [|done].
  destruct (Ludo.getValidMoves _ _ _) as [moves|].
  - destruct (_ || _); [by apply race_sound_advance|done].
  - destruct (Ludo.isComputer p); [by apply race_sound_advance|done].
Qed.

Lemma race_sound_move (g : Ludo.Game) (u : string) (pieceIndex diceRoll : Z)
    (g' : Ludo.Game) (ev : string) :
  race_sound g -> Ludo.socket_move u pieceIndex diceRoll g = Accepted g' ev -> race_sound g'.
Proof.
  intros (Hn & Hi & Hmax & Hps & Hdice). unfold Ludo.socket_move.
  destruct (negb (bool_decide _)); [done|].
  destruct (Js.nth (Ludo.players g) _) as [player|] eqn:Hp; [|done].
  destruct (negb _); [done|].
  destruct (Js.nth (Ludo.pieces player) _) as [piece|] eqn:Hpc; [|done].
  apply nth_Some in Hp as [_ Hp]. apply nth_Some in Hpc as [_ Hpc].
  pose proof (Forall_lookup_1 _ _ _ _ Hps Hp) as (Hids & Hpos & Hgoal).
  pose proof (Forall_lookup_1 _ _ _ _ Hpos Hpc) as Hpiece. simpl in Hpiece.
  set (res := if (Ludo.position piece =? -1) && (diceRoll =? 6)
              then (Ludo.mkPiece 0 (Ludo.id piece), Ludo.piecesInGoal player)
              else if Ludo.position piece >=? 0
                   then (Ludo.mkPiece (Z.min (Ludo.position piece + diceRoll) 56)
                           (Ludo.id piece),
                         if Z.min (Ludo.position piece + diceRoll) 56 =? 56
                         then Ludo.piecesInGoal player + 1 else Ludo.piecesInGoal player)
                   else (piece, Ludo.piecesInGoal player)).
  assert (Hres : Ludo.id res.1 = Ludo.id piece /\ Ludo.position res.1 <= 56
                 /\ 0 <= res.2).
  { subst res. destruct (_ && _); [simpl; lia|].
    destruct (_ >=? 0); simpl; [|lia].
    destruct (_ =? 56); split_and!; lia. }
  destruct res as [piece' goals]. simpl in Hres. destruct Hres as (Hid' & Hpos' & Hgoals').
  cbv zeta. intros [= <- _].
  assert (Hbase : race_sound
            (Ludo.set_players g
               (<[Z.to_nat (Ludo.currentPlayerIndex g) :=
                    Ludo.mkPlayer (Ludo.name player) (Ludo.isComputer player)
                      (Ludo.difficulty player)
                      (<[Z.to_nat pieceIndex := piece']> (Ludo.pieces player)) goals
                      (Ludo.socketId player)]> (Ludo.players g)))).
  { unfold race_sound. simpl. unfold Js.len in *. rewrite length_insert.
    split_and!; try lia; try done. apply Forall_insert; [done|]. simpl.
    split_and!; [|by apply Forall_insert|done].
    change (Ludo.id <$> <[Z.to_nat pieceIndex := piece']> (Ludo.pieces player) = [0; 1; 2; 3]).
    rewrite list_fmap_insert, Hid', list_insert_id; [done|].
    by rewrite list_lookup_fmap, Hpc. }
  match goal with |- race_sound (Ludo.set_dice ?g3 false None) =>
    assert (H3 : race_sound g3);
      [|destruct H3 as (? & ? & ? & ? & _); unfold race_sound; simpl; split_and!; try lia; done] end.
  assert (H2 : forall g1, race_sound g1 ->
            race_sound (if goals =? 4
                        then Ludo.set_winner (Ludo.set_status g1 finished) (Some (Ludo.name player))
                        else g1)).
  { intros g1 H1. by destruct (goals =? 4). }
  destruct (negb (diceRoll =? 6)); [|by apply H2].
  match goal with |- race_sound (Ludo.set_currentPlayerIndex ?g2 _) =>
    assert (Hg2 : race_sound g2) by (by apply H2) end.
  destruct Hg2 as (? & Hi2 & ? & ? & ?). pose proof (next_index_range _ Hi2).
  unfold race_sound. simpl. split_and!; try lia; done.
Qed.

Lemma reachable_race_sound (w : World) (id : string) (g : Ludo.Game) :
  reachable w -> ludoGames w !! id = Some g -> race_sound g.
Proof.
  intros Hr. revert id g. apply (ludo_matches_ind race_sound); [| | | | | |done].
  - apply race_sound_new.
  - intros g u g' ev HP _ H. by eapply race_sound_join.
  - intros g pc ac gm df g' ev HP _ H. by eapply race_sound_start.
  - intros g rs u g' ev HP _ H. by eapply race_sound_roll.
  - intros g u pi dr g' ev HP _ H. by eapply race_sound_move.
  - intros g ri dr HP _. by apply race_sound_auto.
Qed.

(** X16 (getValidMoves): the function throws exactly when there is no
    player at the index; otherwise a move (pieceIndex, from, to) is listed
    exactly when the player has a piece at pieceIndex standing on from and
    either the piece is at home (-1), the die is 6 and to is 0, or the piece
    stands on 0 to 50 and to = from + die does not pass 56. A piece on 51 to
    56 is never listed. *)
Theorem valid_moves_listed (g : Ludo.Game) (playerIndex diceRoll : Z) :
  (Ludo.getValidMoves g playerIndex diceRoll = None
   <-> Js.nth (Ludo.players g) playerIndex = None)
  /\ forall moves, Ludo.getValidMoves g playerIndex diceRoll = Some moves ->
       forall pieceIndex from to,
         In (pieceIndex, from, to) moves <->
         exists player piece,
           Js.nth (Ludo.players g) playerIndex = Some player
           /\ Js.nth (Ludo.pieces player) pieceIndex = Some piece
           /\ from = Ludo.position piece
           /\ (from = -1 /\ diceRoll = 6 /\ to = 0
               \/ 0 <= from < 51 /\ to = from + diceRoll /\ to <= 56).
Proof.
  unfold Ludo.getValidMoves. destruct (Js.nth (Ludo.players g) playerIndex) as [player|].
  2: { split; [done|]. intros moves Hm. done. }
  split; [done|]. intros moves [= <-] pieceIndex from to. rewrite in_flat_map. split.
  - intros ([i piece] & Hin & Hmove).
    apply list_elem_of_In in Hin. apply elem_of_lookup_imap in Hin as (i' & piece' & Heq & Hlk).
    injection Heq as -> ->.
    assert (Hnth : Js.nth (Ludo.pieces player) (Z.of_nat i') = Some piece').
    { unfold Js.nth. destruct (Z.ltb_spec (Z.of_nat i') 0); [lia|]. by rewrite Nat2Z.id. }
    destruct (Z.eqb_spec (Ludo.position piece') (-1)) as [Hhome|Hout];
      destruct (Z.eqb_spec diceRoll 6) as [Hsix|Hnot]; simpl in Hmove.
    + destruct Hmove as [[= <- <- <-]|[]]. exists player, piece'. split_and!; try done.
      left. by split_and!.
    + destruct (Z.geb_spec (Ludo.position piece') 0); simpl in Hmove; [lia|done].
    + destruct (Z.geb_spec (Ludo.position piece') 0); simpl in Hmove; [|done].
      destruct (Z.ltb_spec (Ludo.position piece') 51); simpl in Hmove; [|done].
      destruct (Z.leb_spec (Ludo.position piece' + diceRoll) 56); simpl in Hmove; [|done].
      destruct Hmove as [[= <- <- <-]|[]]. exists player, piece'. split_and!; try done.
      right. split_and!; lia.
    + destruct (Z.geb_spec (Ludo.position piece') 0); simpl in Hmove; [|done].
      destruct (Z.ltb_spec (Ludo.position piece') 51); simpl in Hmove; [|done].
      destruct (Z.leb_spec (Ludo.position piece' + diceRoll) 56); simpl in Hmove; [|done].
      destruct Hmove as [[= <- <- <-]|[]]. exists player, piece'. split_and!; try done.
      right. split_and!; lia.
  - intros (player' & piece & [= <-] & Hpiece & -> & Hcase).
    apply nth_Some in Hpiece as [Hr Hlk].
    exists (Z.to_nat pieceIndex, piece). split.
    + apply list_elem_of_In, elem_of_lookup_imap. by exists (Z.to_nat pieceIndex), piece.
    + rewrite Z2Nat.id by lia. destruct Hcase as [(Hh & -> & ->)|(Hf & -> & Hle)].
      * rewrite Hh. simpl. by left.
      * destruct (Z.eqb_spec (Ludo.position piece) (-1)); [lia|]. simpl.
        destruct (Z.geb_spec (Ludo.position piece) 0); [|lia].
        destruct (Z.ltb_spec (Ludo.position piece) 51); [|lia]. simpl.
        destruct (Z.leb_spec (Ludo.position piece + diceRoll) 56); [|lia]. by left.
Qed.

(** X17 (POST /api/ludo/roll): an accepted roll comes from the player whose
    turn it is on a die not yet rolled; the die is between 1 and 6, it is
    recorded as lastDiceRoll with diceRolled set, and nothing else of the
    match changes; on the match as it then is, every roll is refused with
    400, whoever asks. *)
Theorem roll_once (rs : list nat) (u : string) (g g' : Ludo.Game) (ev : string) :
  fst (Ludo.roll rs u g) = Accepted g' ev ->
  Ludo.diceRolled g = false
  /\ (exists player, Js.nth (Ludo.players g) (Ludo.currentPlayerIndex g) = Some player
                     /\ Ludo.name player = u)
  /\ 1 <= snd (Ludo.roll rs u g) <= 6
  /\ g' = Ludo.set_dice g true (Some (snd (Ludo.roll rs u g)))
  /\ forall rs' u', exists message, fst (Ludo.roll rs' u' g') = Rejected 400 message.
Proof.
  unfold Ludo.roll.
  destruct (Js.nth (Ludo.players g) _) as [player|] eqn:Hp; [|done].
  destruct (String.eqb_spec (Ludo.name player) u) as [Hname|]; [|done]. simpl.
  destruct (Ludo.diceRolled g) eqn:Hd; [done|]. simpl. intros [= <- _].
  split_and!; try done.
  - by exists player.
  - unfold Js.random_below. pose proof (Nat.mod_upper_bound (hd 0%nat rs) 6). lia.
  - unfold Js.random_below. pose proof (Nat.mod_upper_bound (hd 0%nat rs) 6). lia.
  - intros rs' u'. simpl. rewrite Hp. destruct (negb _); by eexists.
Qed.

Lemma roll_once_witness :
  1 <= snd (Ludo.roll [4%nat] "alice" (Ludo.newGame "alice" 1000)) <= 6.
Proof.
  destruct (roll_once [4%nat] "alice" (Ludo.newGame "alice" 1000)
              (written (Ludo.newGame "alice" 1000)
                 (fst (Ludo.roll [4%nat] "alice" (Ludo.newGame "alice" 1000))))
              "ludo-dice-rolled") as (_ & _ & Hdie & _).
  - reflexivity.
  - exact Hdie.
Defined.

(** X18 (ludo-move): the move neither needs a roll nor reads the die the
    server rolled: whether diceRolled is set and whatever lastDiceRoll
    holds, the handler does the same with the diceRoll the client sends;
    and whether a move is accepted does not depend on that diceRoll. *)
Theorem move_ignores_the_rolled_die (u : string) (pieceIndex diceRoll : Z) (g : Ludo.Game) :
  (forall rolled last,
     Ludo.socket_move u pieceIndex diceRoll (Ludo.set_dice g rolled last)
     = Ludo.socket_move u pieceIndex diceRoll g)
  /\ forall diceRoll',
       (exists g' ev, Ludo.socket_move u pieceIndex diceRoll g = Accepted g' ev)
       -> exists g' ev, Ludo.socket_move u pieceIndex diceRoll' g = Accepted g' ev.
Proof.
  split.
  - intros rolled last. unfold Ludo.socket_move. simpl.
    destruct (negb (bool_decide _)); [done|].
    destruct (Js.nth (Ludo.players g) _) as [player|]; [|done].
    destruct (negb _); [done|].
    destruct (Js.nth (Ludo.pieces player) _) as [piece|]; [|done].
    destruct (if (Ludo.position piece =? -1) && (diceRoll =? 6)
              then _ else _) as [piece' goals].
    cbv zeta. f_equal. destruct (goals =? 4); destruct (negb (diceRoll =? 6)); reflexivity.
  - intros diceRoll'. unfold Ludo.socket_move.
    destruct (negb (bool_decide _)); [by intros (? & ? & ?)|].
    destruct (Js.nth (Ludo.players g) _) as [player|]; [|by intros (? & ? & ?)].
    destruct (negb _); [by intros (? & ? & ?)|].
    destruct (Js.nth (Ludo.pieces player) _) as [piece|]; [|by intros (? & ? & ?)].
    intros _.
    destruct (if (Ludo.position piece =? -1) && (diceRoll' =? 6)
              then _ else _) as [piece' goals].
    by eexists _, _.
Qed.

(** X19 (ludo-move at the goal): piecesInGoal counts arrivals, not pieces:
    when the player whose turn it is moves a piece that already stands on 56
    with a diceRoll that is not negative, the piece stays on 56 and the
    player's piecesInGoal grows by one; if it was 3 the match is finished
    and that player is the winner. *)
Theorem goal_counts_arrivals (u : string) (pieceIndex diceRoll : Z) (g : Ludo.Game)
    (player : Ludo.Player) (piece : Ludo.Piece) :
  Ludo.status g = playing ->
  Js.nth (Ludo.players g) (Ludo.currentPlayerIndex g) = Some player ->
  Ludo.name player = u ->
  Js.nth (Ludo.pieces player) pieceIndex = Some piece ->
  Ludo.position piece = 56 ->
  0 <= diceRoll ->
  exists g' player',
    Ludo.socket_move u pieceIndex diceRoll g = Accepted g' "ludo-move-made"
    /\ Js.nth (Ludo.players g') (Ludo.currentPlayerIndex g) = Some player'
    /\ Ludo.pieces player' = Ludo.pieces player
    /\ Ludo.piecesInGoal player' = Ludo.piecesInGoal player + 1
    /\ (Ludo.piecesInGoal player = 3 ->
        Ludo.status g' = finished /\ Ludo.winner g' = Some u).
Proof.
  intros Hst Hp Hname Hpc Hpos Hdr. unfold Ludo.socket_move.
  rewrite Hst, Hp, Hname, String.eqb_refl, Hpc, Hpos. simpl.
  replace (Z.min (56 + diceRoll) 56) with 56 by lia. simpl.
  pose proof (nth_Some _ _ _ Hp) as [Hri Hlp]. pose proof (nth_Some _ _ _ Hpc) as [_ Hlpc].
  assert (Hsame : <[Z.to_nat pieceIndex := Ludo.mkPiece 56 (Ludo.id piece)]> (Ludo.pieces player)
                  = Ludo.pieces player).
  { apply list_insert_id. rewrite Hlpc. f_equal. destruct piece. simpl in Hpos. by subst. }
  rewrite Hsame. eexists _, _. split; [reflexivity|].
  assert (Hnth : forall g3, Ludo.players g3
                   = <[Z.to_nat (Ludo.currentPlayerIndex g) :=
                         Ludo.mkPlayer u (Ludo.isComputer player) (Ludo.difficulty player)
                           (Ludo.pieces player) (Ludo.piecesInGoal player + 1)
                           (Ludo.socketId player)]> (Ludo.players g) ->
                 Js.nth (Ludo.players g3) (Ludo.currentPlayerIndex g)
                 = Some (Ludo.mkPlayer u (Ludo.isComputer player) (Ludo.difficulty player)
                           (Ludo.pieces player) (Ludo.piecesInGoal player + 1)
                           (Ludo.socketId player))).
  { intros g3 ->. unfold Js.nth. destruct (Z.ltb_spec (Ludo.currentPlayerIndex g) 0); [lia|].
    apply list_lookup_insert_eq. by eapply lookup_lt_Some. }
  split_and!.
  - apply Hnth. simpl. destruct (_ =? 4); destruct (negb _); reflexivity.
  - done.
  - done.
  - intros H3. rewrite H3. simpl. destruct (negb _); done.
Qed.

Lemma goal_counts_arrivals_witness :
  exists g' player',
    Ludo.socket_move "alice" 0 2 one_piece_home = Accepted g' "ludo-move-made"
    /\ Js.nth (Ludo.players g') 0 = Some player'
    /\ Ludo.piecesInGoal player' = 2.
Proof.
  destruct (goal_counts_arrivals "alice" 0 2 one_piece_home
              (Ludo.mkPlayer "alice" false None
                 [Ludo.mkPiece 56 0; Ludo.mkPiece (-1) 1; Ludo.mkPiece (-1) 2;
                  Ludo.mkPiece (-1) 3] 1 None)
              (Ludo.mkPiece 56 0)) as (g' & player' & Hmove & Hp & _ & Hgoals & _).
  - reflexivity.
  - reflexivity.
  - reflexivity.
  - reflexivity.
  - reflexivity.
  - lia.
  - exists g', player'. split_and!; assumption.
Defined.

Lemma join_without_bound (u : string) (g : Ludo.Game) :
  Ludo.maxPlayers g = None -> Ludo.join u g <> Rejected 400 "Game is full".
Proof.
  intros Hnan. unfold Ludo.join. rewrite Hnan. simpl. by destruct (existsb _ _).
Qed.

(** X20 (race endpoints, ludo-move and the deferred task together): in
    every world the server can reach, a race match has at least one player
    and a turn index that names one of its players; its maxPlayers is
    either no number or lies between 2 and 8; every player has the four
    pieces 0 to 3, none beyond 56, and a piecesInGoal that is not negative;
    and lastDiceRoll holds a die between 1 and 6 exactly when diceRolled is
    set, null otherwise. The number of players has no upper bound: start
    does not validate playerCount, and once maxPlayers is no number join
    never answers that the game is full. *)
Theorem race_stays_well_formed (w : World) (id : string) (g : Ludo.Game) :
  reachable w -> ludoGames w !! id = Some g ->
  race_sound g
  /\ (Ludo.maxPlayers g = None ->
      forall u, Ludo.join u g <> Rejected 400 "Game is full").
Proof.
  intros Hr Hg. split; [by eapply reachable_race_sound|].
  intros Hnan u. by apply join_without_bound.
Qed.

Lemma race_stays_well_formed_witness :
  (race_sound (the_ludo race_without_bound "ludo_1000")
   /\ Ludo.maxPlayers (the_ludo race_without_bound "ludo_1000") = None
   /\ Js.len (Ludo.players (the_ludo race_without_bound "ludo_1000")) = 9
   /\ Ludo.join "judy" (the_ludo race_without_bound "ludo_1000")
      <> Rejected 400 "Game is full")
  /\ race_sound (the_ludo race_rolled "ludo_1000").
Proof.
  split.
  - destruct (race_stays_well_formed race_without_bound "ludo_1000"
                (the_ludo race_without_bound "ludo_1000")) as [Hs Hjoin].
    + apply run_reachable. constructor.
    + vm_compute. reflexivity.
    + split_and!; [exact Hs|by vm_compute|by vm_compute|].
      apply Hjoin. by vm_compute.
  - apply (race_stays_well_formed race_rolled "ludo_1000").
    + apply run_reachable. constructor.
    + vm_compute. reflexivity.
Defined.






(** ** The world as a whole *)

(** What the requests and the race channel message keep: anything kept by
    writing a match and by deferring the task of a roll. *)
Lemma request_step (P : World -> Prop) (e : Event) (w : World) :
  P w ->
  (forall w0 id g, P w0 -> P (put_chess id g w0)) ->
  (forall w0 id g, P w0 -> P (put_ludo id g w0)) ->
  (forall w0 id g, P w0 -> P (put_ttt id g w0)) ->
  (forall w0 id g, P w0 -> P (put_uno id g w0)) ->
  (forall id rolledIndex diceRoll,
     P (set_timers w (timers w ++ [(1000, LudoAuto id rolledIndex diceRoll)]))) ->
  (ends_process e w = true -> P empty_world) ->
  match e with
  | Connect _ _ _ _ | Disconnected _ _ _ _ | TimerFires _ | Sweep _ => True
  | _ => P (apply e w)
  end.
Proof.
  intros Hw Pc Pl Pt Pu Ptimer Pexit.
  assert (Hresp : forall G (wrap : G -> AnyGame) put id (o : Outcome G) w0,
            P w0 -> (forall g, P (put id g w0)) -> P (world (respond wrap put w0 id o))).
  { intros G wrap put id o w0 H0 Hput. apply respond_step; [done|]. by destruct o. }
  destruct e; try done; cbn [apply];
    unfold chess_create, chess_join, chess_move, ludo_create, ludo_join, ludo_start,
      ludo_roll, tictactoe_create, tictactoe_join, tictactoe_move, uno_create, uno_join,
      uno_play_card, uno_draw_card, ludo_move, not_found.
  - apply gated_step; [done|]. intros u. simpl. by apply Pc.
  - apply gated_step; [done|]. intros u. destruct (chessGames w !! _); [|done].
    apply Hresp; [done|]. intros g0. by apply Pc.
  - apply gated_step; [done|]. intros u. destruct (chessGames w !! _); [|done].
    apply Hresp; [done|]. intros g0. by apply Pc.
  - apply gated_step; [done|]. intros u. simpl. by apply Pl.
  - apply gated_step; [done|]. intros u. destruct (ludoGames w !! _); [|done].
    apply Hresp; [done|]. intros g0. by apply Pl.
  - apply gated_step; [done|]. intros u. destruct (ludoGames w !! _); [|done].
    apply Hresp; [done|]. intros g0. by apply Pl.
  - apply gated_step; [done|]. intros u. destruct (ludoGames w !! _); [|done].
    destruct (Ludo.roll _ _ _) as [o d].
    apply Hresp; [by destruct o|]. intros g0. apply Pl. by destruct o.
  - unfold ends_process, ludo_move in Pexit.
    destruct (ludoGames w !! _); [|done].
    destruct (Ludo.socket_move _ _ _ _) as [code msg| |gc|ga ev];
      [done|by apply Pexit|by apply Pexit|].
    simpl. by apply Pl.
  - apply gated_step; [done|]. intros u. simpl. by apply Pt.
  - apply gated_step; [done|]. intros u. destruct (ticTacToeGames w !! _); [|done].
    apply Hresp; [done|]. intros g0. by apply Pt.
  - apply gated_step; [done|]. intros u. destruct (ticTacToeGames w !! _); [|done].
    apply Hresp; [done|]. intros g0. by apply Pt.
  - apply gated_step; [done|]. intros u. simpl. by apply Pu.
  - apply gated_step; [done|]. intros u. destruct (unoGames w !! _); [|done].
    apply Hresp; [done|]. intros g0. by apply Pu.
  - apply gated_step; [done|]. intros u. destruct (unoGames w !! _); [|done].
    apply Hresp; [done|]. intros g0. by apply Pu.
  - apply gated_step; [done|]. intros u. destruct (unoGames w !! _); [|done].
    apply Hresp; [done|]. intros g0. by apply Pu.
Qed.

Lemma apply_counters (e : Event) (w : World) :
  counters_sound w -> counters_sound (apply e w).
Proof.
  intros Hw. pose proof Hw as [Hsum Hmax]. unfold maxConnections in Hmax.
  assert (Hexit : counters_sound empty_world).
  { unfold counters_sound, maxConnections. simpl. lia. }
  pose proof (fun Pc Pl Pt Pu Proll =>
                request_step counters_sound e w Hw Pc Pl Pt Pu Proll (fun _ => Hexit)) as Hreq.
  destruct e; try (by apply Hreq); clear Hreq; cbn [apply].
  - unfold on_connection, counters_sound, maxConnections.
    destruct (isHomepageUser _); simpl;
      match goal with |- context [?a >? ?b] => destruct (Z.gtb_spec a b) end; simpl; lia.
  - unfold on_disconnect, counters_sound, maxConnections.
    destruct (isHomepageUser _); cbn [negb]; [simpl; lia|].
    cbv beta iota zeta.
    repeat match goal with |- context [abandon_where ?h ?a ?t ?m] =>
      destruct (abandon_where h a t m) end.
    simpl. lia.
  - unfold fire. destruct (timers w !! k) as [[delay t]|]; [|done].
    destruct t; simpl; try done. by destruct (ludoGames w !! _).
  - done.
Qed.









(** X22 (connection handler and disconnect handler): in every world the
    server can reach, activeConnections is the sum of homepageConnections
    and authenticatedConnections, and it never exceeds 300. *)
Theorem connection_counters_add_up (w : World) : reachable w -> counters_sound w.
Proof.
  induction 1 as [|e w Hr IH]; [|by apply apply_counters].
  unfold counters_sound, maxConnections. simpl. lia.
Qed.

Lemma connection_counters_add_up_witness :
  counters_sound (run [Connect "s1" None "alice" "gamer";
                       Connect "s2" (Some "http://host/homepage.html") "bob" "gamer"]
                    empty_world).
Proof.
  apply connection_counters_add_up. apply run_reachable. constructor.
Defined.






(** X24 (requireAuth and the role test of the gaming endpoints): a caller
    without a session user gets 401 and a session user whose role is not
    gamer gets 403 from every one of the fourteen gaming endpoints, and the
    world is left as it was with nothing emitted. *)
Theorem gaming_endpoints_turn_away_non_gamers (su : option User) (r : Response) (w : World) :
  denial su = Some r ->
  (forall now, chess_create su now w = mkResult r w [])
  /\ (forall gameId, chess_join su gameId w = mkResult r w [])
  /\ (forall gameId from to now, chess_move su gameId from to now w = mkResult r w [])
  /\ (forall now, ludo_create su now w = mkResult r w [])
  /\ (forall gameId, ludo_join su gameId w = mkResult r w [])
  /\ (forall gameId playerCount addComputer gameMode difficulty,
        ludo_start su gameId playerCount addComputer gameMode difficulty w = mkResult r w [])
  /\ (forall gameId rs, ludo_roll su gameId rs w = mkResult r w [])
  /\ (forall now, tictactoe_create su now w = mkResult r w [])
  /\ (forall gameId, tictactoe_join su gameId w = mkResult r w [])
  /\ (forall gameId position, tictactoe_move su gameId position w = mkResult r w [])
  /\ (forall now, uno_create su now w = mkResult r w [])
  /\ (forall gameId rs, uno_join su gameId rs w = mkResult r w [])
  /\ (forall gameId cardIndex chosenColor,
        uno_play_card su gameId cardIndex chosenColor w = mkResult r w [])
  /\ (forall gameId rs, uno_draw_card su gameId rs w = mkResult r w []).
Proof.
  intros Hd.
  assert (Hg : forall k, gated su w k = mkResult r w []).
  { intros k. unfold gated. destruct su as [u|]; simpl in Hd.
    - destruct (String.eqb (role u) "gamer"); [done|]. simpl. by injection Hd as <-.
    - by injection Hd as <-. }
  split_and!; intros; apply Hg.
Qed.

Lemma gaming_endpoints_turn_away_non_gamers_witness :
  uno_play_card carol "uno_1000" 0 None (dealt still_draws)
  = mkResult (Failure 403 "Gaming access required") (dealt still_draws) [].
Proof.
  destruct (gaming_endpoints_turn_away_non_gamers carol
              (Failure 403 "Gaming access required") (dealt still_draws))
    as (_ & _ & _ & _ & _ & _ & _ & _ & _ & _ & _ & _ & Hplay & _).
  - reflexivity.
  - apply Hplay.
Defined.

(** ** Session bridge: cookies *)

Lemma str_app_assoc (a b c : string) : (a +:+ b) +:+ c = a +:+ (b +:+ c).
Proof.
  induction a as [|x a IH]; [done|].
  change (String x ((a +:+ b) +:+ c) = String x (a +:+ (b +:+ c))). by f_equal.
Qed.

Lemma split_free (sep : ascii) (s : string) :
  free_of sep s = true -> Js.split sep s = [s].
Proof.
  induction s as [|c s IH]; simpl; [done|].
  destruct (Ascii.eqb c sep); simpl; [done|]. intros H. by rewrite (IH H).
Qed.

Lemma split_at_first (sep : ascii) (a b : string) :
  free_of sep a = true -> Js.split sep (a +:+ String sep b) = a :: Js.split sep b.
Proof.
  induction a as [|c a IH].
  - intros _. simpl. by rewrite Ascii.eqb_refl.
  - change (free_of sep (String c a)) with (negb (Ascii.eqb c sep) && free_of sep a).
    change (Js.split sep (String c a +:+ String sep b))
      with (if Ascii.eqb c sep then EmptyString :: Js.split sep (a +:+ String sep b)
            else match Js.split sep (a +:+ String sep b) with
                 | [] => [String c EmptyString]
                 | w :: ws => String c w :: ws
                 end).
    destruct (Ascii.eqb c sep); simpl; [done|]. intros H. by rewrite (IH H).
Qed.

Lemma substring_all (s : string) : String.substring 0 (String.length s) s = s.
Proof. induction s as [|c s IH]; simpl; [done|]. by rewrite IH. Qed.

Lemma substring_after2 (a b : ascii) (x : string) :
  String.substring 2 (String.length (String a (String b x)) - 2) (String a (String b x)) = x.
Proof.
  change (String.length (String a (String b x))) with (S (S (String.length x))).
  replace (S (S (String.length x)) - 2)%nat with (String.length x) by lia.
  change (String.substring 0 (String.length x) x = x). apply substring_all.
Qed.

Lemma session_id_signed (sid rest : string) :
  free_of "." sid = true -> rest = "" \/ (exists sig, rest = String "." sig) ->
  Bridge.session_id ("s:" +:+ sid +:+ rest) = sid.
Proof.
  intros Hfree Hrest. unfold Bridge.session_id.
  change ("s:" +:+ sid +:+ rest) with (String "s" (String ":" (sid +:+ rest))).
  rewrite substring_after2.
  destruct Hrest as [->|[sig ->]].
  - assert (Hnil : sid +:+ "" = sid).
    { clear. induction sid as [|c s IH]; [done|].
      change (String c (s +:+ "") = String c s). by f_equal. }
    by rewrite Hnil, split_free.
  - by rewrite split_at_first.
Qed.

Lemma parse_fold (cs : list string) (m : gmap string string) (kvs : list (string * string)) :
  Forall2 (fun c kv => Js.split "=" c = [kv.1; kv.2]) cs kvs ->
  fold_left
    (fun cookies c =>
       match Js.split "=" c with
       | k :: v :: _ => Bridge.set_property cookies (Js.trim k) v
       | _ => cookies
       end) cs m
  = fold_left (fun cookies kv => Bridge.set_property cookies (Js.trim kv.1) kv.2) kvs m.
Proof.
  intros H. revert m. induction H as [|c kv cs kvs Hc _ IH]; intros m; simpl; [done|].
  by rewrite Hc, IH.
Qed.

Lemma split_pair (k v : string) :
  plain k = true -> plain v = true -> Js.split "=" (k +:+ "=" +:+ v) = [k; v].
Proof.
  unfold plain. intros [_ Hk]%andb_true_iff [_ Hv]%andb_true_iff.
  change (k +:+ "=" +:+ v) with (k +:+ String "=" v).
  rewrite split_at_first by done. by rewrite split_free.
Qed.

Lemma free_of_app (c : ascii) (a b : string) :
  free_of c (a +:+ b) = free_of c a && free_of c b.
Proof.
  induction a as [|x a IH]; [done|].
  change (negb (Ascii.eqb x c) && free_of c (a +:+ b)
          = negb (Ascii.eqb x c) && free_of c a && free_of c b).
  by rewrite IH, andb_assoc.
Qed.

Lemma split_cookies (kvs : list (string * string)) :
  kvs <> [] ->
  Forall (fun kv => plain kv.1 = true /\ plain kv.2 = true) kvs ->
  Js.split ";" (cookie_header kvs) = map (fun kv => kv.1 +:+ "=" +:+ kv.2) kvs.
Proof.
  intros Hne Hall. induction Hall as [|[k v] kvs [Hk Hv] Hall IH]; [done|].
  assert (Hfree : free_of ";" (k +:+ "=" +:+ v) = true).
  { unfold plain in *. simpl in Hk, Hv. apply andb_true_iff in Hk as [Hk _], Hv as [Hv _].
    rewrite !free_of_app, Hk, Hv. done. }
  destruct kvs as [|kv' kvs].
  - simpl. by rewrite split_free.
  - change (cookie_header ((k, v) :: kv' :: kvs))
      with (k +:+ "=" +:+ v +:+ ";" +:+ cookie_header (kv' :: kvs)).
    assert (E : k +:+ "=" +:+ v +:+ ";" +:+ cookie_header (kv' :: kvs)
                = (k +:+ "=" +:+ v) +:+ String ";" (cookie_header (kv' :: kvs)))
      by (by rewrite !str_app_assoc).
    rewrite E, split_at_first by done. rewrite IH by done. done.
Qed.

(** X25 (socket middleware, session id): the session id the bridge looks
    up is what stands between the prefix and the first dot of the decoded
    cookie, and what follows the dot, the signature, is never read: a cookie
    that decodes to the prefix, a non-empty id without a dot, and then
    nothing or a dot and any text at all, is admitted as the user the store
    holds under that id. *)
Theorem bridge_never_reads_the_signature
    (decodeURIComponent : string -> option string)
    (sessionStore_get : string -> Bridge.Lookup)
    (header raw sid rest : string) (usr : User) :
  Bridge.parse_cookies header !! "sid" = Some raw ->
  raw <> "" ->
  decodeURIComponent raw = Some ("s:" +:+ sid +:+ rest) ->
  sid <> "" -> free_of "." sid = true ->
  rest = "" \/ (exists sig, rest = String "." sig) ->
  sessionStore_get sid = Bridge.Session (Some usr) ->
  Bridge.session_id ("s:" +:+ sid +:+ rest) = sid
  /\ Bridge.middleware decodeURIComponent sessionStore_get (Some header)
     = Bridge.Granted (username usr) (role usr).
Proof.
  intros Hraw Hne Hdec Hsid Hfree Hrest Hstore.
  pose proof (session_id_signed sid rest Hfree Hrest) as Hid. split; [done|].
  apply middleware_admits. exists header, raw, ("s:" +:+ sid +:+ rest), usr.
  rewrite Hid. split_and!; try done. apply String.prefix_correct.
  change ("s:" +:+ sid +:+ rest) with (String "s" (String ":" (sid +:+ rest))).
  by destruct (sid +:+ rest).
Qed.

Lemma bridge_never_reads_the_signature_witness :
  Bridge.middleware Bridge.decode_ascii
    (fun sid => if String.eqb sid "abc" then Bridge.Session (Some (mkUser "alice" "gamer"))
                else Bridge.NoSession)
    (Some "sid=s%3Aabc.forged")
  = Bridge.Granted "alice" "gamer".
Proof.
  apply (bridge_never_reads_the_signature Bridge.decode_ascii
           (fun sid => if String.eqb sid "abc"
                       then Bridge.Session (Some (mkUser "alice" "gamer"))
                       else Bridge.NoSession)
           "sid=s%3Aabc.forged" "s%3Aabc.forged" "abc" ".forged"
           (mkUser "alice" "gamer")).
  - vm_compute. reflexivity.
  - discriminate.
  - vm_compute. reflexivity.
  - discriminate.
  - reflexivity.
  - right. by exists "forged".
  - reflexivity.
Defined.

(** X26 (socket middleware, cookie parser): a header made of name=value
    pairs separated by semicolons, names and values free of semicolons and
    equal signs, is parsed into the object whose own properties are obtained
    by assigning, pair after pair, each value to its trimmed name: a later
    pair replaces an earlier one of the same name, values are not trimmed,
    and a pair whose trimmed name is __proto__ stores nothing. *)
Theorem cookies_parse_back (kvs : list (string * string)) :
  kvs <> [] ->
  Forall (fun kv => plain kv.1 = true /\ plain kv.2 = true) kvs ->
  Bridge.parse_cookies (cookie_header kvs)
  = fold_left
      (fun cookies kv =>
         if String.eqb (Js.trim kv.1) "__proto__" then cookies
         else <[Js.trim kv.1 := kv.2]> cookies) kvs ∅.
Proof.
  intros Hne Hall. unfold Bridge.parse_cookies. rewrite split_cookies by done.
  apply parse_fold. clear Hne. induction Hall as [|[k v] kvs [Hk Hv] Hall IH]; simpl.
  - constructor.
  - constructor; [|done]. simpl. by apply split_pair.
Qed.

Lemma cookies_parse_back_witness :
  Bridge.parse_cookies
    (cookie_header [("theme", "dark"); ("__proto__", "x"); (" sid", "s%3Aabc.sig")])
  = {[ "theme" := "dark"; "sid" := "s%3Aabc.sig" ]}.
Proof.
  rewrite (cookies_parse_back [("theme", "dark"); ("__proto__", "x"); (" sid", "s%3Aabc.sig")]).
  - vm_compute. reflexivity.
  - discriminate.
  - repeat constructor.
Defined.

(** ** The two caches: eviction, invalidation, sweep *)

Section CacheOrder.

Context {V : Type}.
Implicit Types (m : Cache.JsMap V) (c : Cache.Caches V).

Lemma map_get_None m key : Cache.map_get m key = None <-> ~ In key (map fst m).
Proof.
  induction m as [|[k e] m IH]; simpl; [tauto|].
  destruct (String.eqb_spec k key) as [->|Hne]; [split; [done|tauto]|].
  rewrite IH. tauto.
Qed.

Lemma map_set_new_app m key e :
  Cache.map_get m key = None -> Cache.map_set m key e = m ++ [(key, e)].
Proof.
  induction m as [|[k e0] m IH]; simpl; [done|].
  destruct (String.eqb_spec k key); [done|]. intros H. by rewrite (IH H).
Qed.

Lemma map_set_keys m key e e0 :
  Cache.map_get m key = Some e0 -> map fst (Cache.map_set m key e) = map fst m.
Proof.
  induction m as [|[k e1] m IH]; simpl; [done|].
  destruct (String.eqb_spec k key); simpl; [done|]. intros H. by rewrite (IH H).
Qed.

Lemma map_delete_absent m k : ~ In k (map fst m) -> Cache.map_delete m k = m.
Proof.
  unfold Cache.map_delete. induction m as [|[k0 e0] m IH]; simpl; [done|].
  intros Hn. destruct (String.eqb_spec k0 k) as [->|_]; simpl; [tauto|].
  rewrite IH; [done|tauto].
Qed.

Lemma map_get_deleted m k : Cache.map_get (Cache.map_delete m k) k = None.
Proof.
  unfold Cache.map_delete. induction m as [|[k0 e0] m IH]; simpl; [done|].
  destruct (String.eqb_spec k0 k) as [->|Hne]; simpl; [done|].
  by destruct (String.eqb_spec k0 k).
Qed.

Lemma filter_keys_nodup (f : string * Cache.Entry V -> bool) m :
  NoDup (map fst m) -> NoDup (map fst (List.filter f m)).
Proof.
  induction m as [|[k e] m IH]; simpl; [done|].
  intros Hnd. apply NoDup_cons in Hnd as [Hnot Hnd].
  destruct (f (k, e)); simpl; [|by apply IH].
  apply NoDup_cons_2; [|by apply IH].
  intros Hin. apply Hnot. apply list_elem_of_In. apply list_elem_of_In in Hin.
  apply in_map_iff in Hin as ([k' e'] & <- & Hin').
  apply filter_In in Hin' as [Hin' _]. apply in_map_iff. by exists (k', e').
Qed.

Lemma map_set_nodup m key e :
  NoDup (map fst m) -> NoDup (map fst (Cache.map_set m key e)).
Proof.
  intros Hnd. destruct (Cache.map_get m key) as [e0|] eqn:Hg.
  - by rewrite (map_set_keys _ _ _ _ Hg).
  - rewrite (map_set_new_app _ _ _ Hg), map_app. simpl.
    apply NoDup_app. split_and!; [done| |apply NoDup_singleton].
    intros x Hx ->%list_elem_of_singleton. apply list_elem_of_In in Hx.
    by apply map_get_None in Hg.
Qed.

Lemma write_nodup bound now m key d :
  NoDup (map fst m) -> NoDup (map fst (Cache.write bound now m key d)).
Proof.
  intros Hnd. unfold Cache.write. pose proof (map_set_nodup m key (Cache.mkEntry d now) Hnd).
  destruct (_ >? _); [|done]. unfold Cache.delete_first.
  destruct (Cache.map_set m key (Cache.mkEntry d now)) as [|[k0 e0] m1]; [done|].
  by apply filter_keys_nodup.
Qed.

Lemma reachable_nodup c :
  Cache.reachable c ->
  NoDup (map fst (Cache.dataCache c)) /\ NoDup (map fst (Cache.homepageCache c)).
Proof.
  induction 1 as [|now key d c _ [IH1 IH2]|now key d c _ [IH1 IH2]
                 |type fy c _ [IH1 IH2]|now c _ [IH1 IH2]]; simpl.
  - split; constructor.
  - split; [by apply write_nodup|done].
  - split; [done|by apply write_nodup].
  - split; unfold Cache.map_delete; by repeat apply filter_keys_nodup.
  - split; by apply filter_keys_nodup.
Qed.

Lemma write_fifo bound now m key d :
  1 <= bound -> Js.len m <= bound -> NoDup (map fst m) ->
  (forall e0, Cache.map_get m key = Some e0 ->
     Cache.write bound now m key d = Cache.map_set m key (Cache.mkEntry d now)
     /\ map fst (Cache.write bound now m key d) = map fst m)
  /\ (Cache.map_get m key = None -> Js.len m < bound ->
      Cache.write bound now m key d = m ++ [(key, Cache.mkEntry d now)])
  /\ (Cache.map_get m key = None -> Js.len m = bound ->
      Cache.write bound now m key d = tl m ++ [(key, Cache.mkEntry d now)]).
Proof.
  intros Hb Hlen Hnd. unfold Cache.write. split_and!.
  - intros e0 Hg. rewrite (map_set_known _ _ (Cache.mkEntry d now) _ Hg).
    destruct (Z.gtb_spec (Js.len m) bound); [lia|]. split; [done|]. by eapply map_set_keys.
  - intros Hg Hlt. rewrite (map_set_new_app _ _ _ Hg). unfold Js.len in *.
    rewrite length_app. simpl.
    destruct (Z.gtb_spec (Z.of_nat (length m + 1)) bound); [lia|done].
  - intros Hg Heq. rewrite (map_set_new_app _ _ _ Hg). unfold Js.len in *.
    rewrite length_app. simpl.
    destruct (Z.gtb_spec (Z.of_nat (length m + 1)) bound); [|lia].
    destruct m as [|[k0 e0] m0]; [simpl in *; lia|].
    apply NoDup_cons in Hnd as [Hnot _]. rewrite list_elem_of_In in Hnot.
    assert (Hne : k0 <> key).
    { intros ->. apply map_get_None in Hg. apply Hg. by left. }
    assert (Hg0 : Cache.map_get m0 key = None).
    { revert Hg. simpl. by destruct (String.eqb_spec k0 key). }
    change (Cache.delete_first (((k0, e0) :: m0) ++ [(key, Cache.mkEntry d now)])
            = m0 ++ [(key, Cache.mkEntry d now)]).
    unfold Cache.delete_first. cbn [app]. unfold Cache.map_delete at 1.
    cbn [List.filter fst]. rewrite String.eqb_refl. cbn [negb].
    change (Cache.map_delete (m0 ++ [(key, Cache.mkEntry d now)]) k0
            = m0 ++ [(key, Cache.mkEntry d now)]).
    apply map_delete_absent. rewrite map_app, in_app_iff. simpl. intros [?|[?|[]]]; done.
Qed.

Lemma map_get_filter (f : string * Cache.Entry V -> bool) m key :
  NoDup (map fst m) ->
  Cache.map_get (List.filter f m) key
  = match Cache.map_get m key with
    | Some e => if f (key, e) then Some e else None
    | None => None
    end.
Proof.
  induction m as [|[k e] m IH]; simpl; [done|].
  intros Hnd. apply NoDup_cons in Hnd as [Hnot Hnd].
  destruct (String.eqb_spec k key) as [->|Hne].
  - destruct (f (key, e)); simpl; [by rewrite String.eqb_refl|].
    rewrite (IH Hnd). rewrite (proj2 (map_get_None m key)); [done|].
    by rewrite <- list_elem_of_In.
  - destruct (f (k, e)); simpl; [|by apply IH].
    destruct (String.eqb_spec k key); [done|]. by apply IH.
Qed.

Lemma sweep_read (ttl now now' : Z) m key :
  NoDup (map fst m) -> now <= now' ->
  Cache.read ttl now'
    (List.filter (fun kv => negb (Cache.timestamp (snd kv) <? now - ttl)) m) key
  = Cache.read ttl now' m key.
Proof.
  intros Hnd Hle. unfold Cache.read. rewrite map_get_filter by done.
  destruct (Cache.map_get m key) as [e|]; [|done]. simpl.
  destruct (Z.ltb_spec (Cache.timestamp e) (now - ttl)); simpl; [|done].
  destruct (Z.ltb_spec (now' - Cache.timestamp e) ttl); [lia|done].
Qed.

(** X27 (setCachedData, setHomepageCachedData): for the caches the server
    can hold, setting a key that is cached replaces its entry in place and
    evicts nothing; setting a new key appends it, and when the tier is full,
    50 entries and 20 entries, the entry inserted first, and only that one,
    is evicted. *)
Theorem set_evicts_the_oldest (c : Cache.Caches V) (now : Z) (key : string) (d : V) :
  Cache.reachable c ->
  ((forall e0, Cache.map_get (Cache.dataCache c) key = Some e0 ->
      map fst (Cache.dataCache (Cache.setCachedData now key d c))
      = map fst (Cache.dataCache c))
   /\ (Cache.map_get (Cache.dataCache c) key = None -> Js.len (Cache.dataCache c) < 50 ->
       Cache.dataCache (Cache.setCachedData now key d c)
       = Cache.dataCache c ++ [(key, Cache.mkEntry d now)])
   /\ (Cache.map_get (Cache.dataCache c) key = None -> Js.len (Cache.dataCache c) = 50 ->
       Cache.dataCache (Cache.setCachedData now key d c)
       = tl (Cache.dataCache c) ++ [(key, Cache.mkEntry d now)]))
  /\ ((forall e0, Cache.map_get (Cache.homepageCache c) key = Some e0 ->
         map fst (Cache.homepageCache (Cache.setHomepageCachedData now key d c))
         = map fst (Cache.homepageCache c))
      /\ (Cache.map_get (Cache.homepageCache c) key = None ->
          Js.len (Cache.homepageCache c) < 20 ->
          Cache.homepageCache (Cache.setHomepageCachedData now key d c)
          = Cache.homepageCache c ++ [(key, Cache.mkEntry d now)])
      /\ (Cache.map_get (Cache.homepageCache c) key = None ->
          Js.len (Cache.homepageCache c) = 20 ->
          Cache.homepageCache (Cache.setHomepageCachedData now key d c)
          = tl (Cache.homepageCache c) ++ [(key, Cache.mkEntry d now)])).
Proof.
  intros Hr. destruct (reachable_bounded c Hr) as [Hd Hh].
  destruct (reachable_nodup c Hr) as [Nd Nh]. simpl. split.
  - destruct (write_fifo 50 now (Cache.dataCache c) key d) as (H1 & H2 & H3); try done.
    split_and!; [|done|done]. intros e0 He. by destruct (H1 e0 He).
  - destruct (write_fifo 20 now (Cache.homepageCache c) key d) as (H1 & H2 & H3); try done.
    split_and!; [|done|done]. intros e0 He. by destruct (H1 e0 He).
Qed.

(** X28 (the cache functions together): the data cache never holds more
    than 50 entries and the homepage cache never more than 20, and no key
    occurs twice in either. *)
Theorem caches_stay_small (c : Cache.Caches V) :
  Cache.reachable c ->
  Js.len (Cache.dataCache c) <= 50 /\ Js.len (Cache.homepageCache c) <= 20
  /\ NoDup (map fst (Cache.dataCache c))
  /\ NoDup (map fst (Cache.homepageCache c)).
Proof.
  intros Hr. destruct (reachable_bounded c Hr) as [Hd Hh].
  destruct (reachable_nodup c Hr) as [Nd Nh]. done.
Qed.

(** X29 (broadcastDataChange): after a data change of a type in a
    financial year, a get of the keys type-year and dashboard-overview-year
    of the data cache and of the key public-type-year of the homepage cache
    returns null at any time, and a get of any other key returns what it
    returned before. *)
Theorem data_change_invalidates_three_keys (type financialYear : string)
    (c : Cache.Caches V) (now : Z) :
  let c' := Cache.broadcastDataChange type financialYear c in
  fst (Cache.getCachedData now (type +:+ "-" +:+ financialYear) c') = None
  /\ fst (Cache.getCachedData now ("dashboard-overview-" +:+ financialYear) c') = None
  /\ fst (Cache.getHomepageCachedData now ("public-" +:+ type +:+ "-" +:+ financialYear) c')
     = None
  /\ (forall key, key <> type +:+ "-" +:+ financialYear ->
        key <> "dashboard-overview-" +:+ financialYear ->
        fst (Cache.getCachedData now key c') = fst (Cache.getCachedData now key c))
  /\ (forall key, key <> "public-" +:+ type +:+ "-" +:+ financialYear ->
        fst (Cache.getHomepageCachedData now key c')
        = fst (Cache.getHomepageCachedData now key c)).
Proof.
  cbv zeta. unfold Cache.getCachedData, Cache.getHomepageCachedData, Cache.read. simpl.
  split_and!.
  - destruct (String.eqb_spec ("dashboard-overview-" +:+ financialYear)
                (type +:+ "-" +:+ financialYear)) as [E|Hne].
    + rewrite E. by rewrite map_get_deleted.
    + rewrite map_get_delete_ne by done. by rewrite map_get_deleted.
  - by rewrite map_get_deleted.
  - by rewrite map_get_deleted.
  - intros key H1 H2. rewrite !map_get_delete_ne by done. done.
  - intros key H3. rewrite map_get_delete_ne by done. done.
Qed.

(** X30 (the cache half of the cleanup interval): for the caches the
    server can hold, the sweep removes only entries that no get would
    return: at the time of the sweep and at any later time, a get of any
    key returns the same after the sweep as without it. *)
Theorem sweep_is_invisible_to_readers (c : Cache.Caches V) (now now' : Z) (key : string) :
  Cache.reachable c -> now <= now' ->
  fst (Cache.getCachedData now' key (Cache.sweep_caches now c))
  = fst (Cache.getCachedData now' key c)
  /\ fst (Cache.getHomepageCachedData now' key (Cache.sweep_caches now c))
     = fst (Cache.getHomepageCachedData now' key c).
Proof.
  intros Hr Hle. destruct (reachable_nodup c Hr) as [Nd Nh]. simpl.
  split; by apply sweep_read.
Qed.

End CacheOrder.

Lemma set_evicts_the_oldest_witness :
  Cache.dataCache (Cache.setCachedData 7000 "bill-2024" "rows"
                     (Cache.setCachedData 5000 "supply-2024" "rows" (Cache.mkCaches [] [])))
  = [("supply-2024", Cache.mkEntry "rows" 5000); ("bill-2024", Cache.mkEntry "rows" 7000)].
Proof.
  destruct (set_evicts_the_oldest (V := string)
              (Cache.setCachedData 5000 "supply-2024" "rows" (Cache.mkCaches [] []))
              7000 "bill-2024" "rows") as ((_ & Hnew & _) & _).
  - repeat constructor.
  - apply Hnew; [reflexivity|]. unfold Js.len. simpl. lia.
Defined.

Lemma caches_stay_small_witness :
  Js.len (Cache.dataCache
            (Cache.setCachedData 5000 "supply-2024" "rows" (Cache.mkCaches [] []))) <= 50.
Proof.
  destruct (caches_stay_small (V := string)
              (Cache.setCachedData 5000 "supply-2024" "rows" (Cache.mkCaches [] [])))
    as (H & _).
  - repeat constructor.
  - exact H.
Defined.

Lemma sweep_is_invisible_to_readers_witness :
  fst (Cache.getCachedData 70000 "supply-2024"
         (Cache.sweep_caches 66000
            (Cache.setCachedData 5000 "supply-2024" "rows" (Cache.mkCaches [] []))))
  = fst (Cache.getCachedData 70000 "supply-2024"
           (Cache.setCachedData 5000 "supply-2024" "rows" (Cache.mkCaches [] []))).
Proof.
  destruct (sweep_is_invisible_to_readers (V := string)
              (Cache.setCachedData 5000 "supply-2024" "rows" (Cache.mkCaches [] []))
              66000 70000 "supply-2024") as (H & _).
  - repeat constructor.
  - lia.
  - exact H.
Defined.

(** ** The properties without a precondition, at an input *)

Lemma winner_means_three_in_a_row_witness :
  exists a b c, In (a, b, c) Ttt.winPatterns
    /\ Js.nth ["O"; "O"; ""; "X"; "X"; "X"; ""; ""; ""] a = Some "X"
    /\ Js.nth ["O"; "O"; ""; "X"; "X"; "X"; ""; ""; ""] b = Some "X"
    /\ Js.nth ["O"; "O"; ""; "X"; "X"; "X"; ""; ""; ""] c = Some "X".
Proof.
  destruct (winner_means_three_in_a_row ["O"; "O"; ""; "X"; "X"; "X"; ""; ""; ""])
    as [Hwin _].
  destruct (Hwin "X") as [_ Hline]; [reflexivity|exact Hline].
Defined.

Lemma valid_moves_listed_witness :
  In (0, 50, 56) [(0, 50, 56); (2, -1, 0)]
  <-> exists player piece,
        Js.nth (Ludo.players
                  (Ludo.set_players one_piece_home
                     [Ludo.mkPlayer "alice" false None
                        [Ludo.mkPiece 50 0; Ludo.mkPiece 51 1; Ludo.mkPiece (-1) 2;
                         Ludo.mkPiece 56 3] 1 None])) 0 = Some player
        /\ Js.nth (Ludo.pieces player) 0 = Some piece
        /\ 50 = Ludo.position piece
        /\ (50 = -1 /\ 6 = 6 /\ 56 = 0 \/ 0 <= 50 < 51 /\ 56 = 50 + 6 /\ 56 <= 56).
Proof.
  destruct (valid_moves_listed
              (Ludo.set_players one_piece_home
                 [Ludo.mkPlayer "alice" false None
                    [Ludo.mkPiece 50 0; Ludo.mkPiece 51 1; Ludo.mkPiece (-1) 2;
                     Ludo.mkPiece 56 3] 1 None]) 0 6) as [_ Hlist].
  apply (Hlist [(0, 50, 56); (2, -1, 0)]). reflexivity.
Defined.

Lemma move_ignores_the_rolled_die_witness :
  Ludo.socket_move "alice" 0 2 (Ludo.set_dice one_piece_home true (Some 5))
  = Ludo.socket_move "alice" 0 2 one_piece_home.
Proof.
  destruct (move_ignores_the_rolled_die "alice" 0 2 one_piece_home) as [Hsame _].
  apply Hsame.
Defined.

Lemma data_change_invalidates_three_keys_witness :
  fst (Cache.getCachedData 6000 "supply-2024"
         (Cache.broadcastDataChange "supply" "2024"
            (Cache.setCachedData 5000 "supply-2024" "rows" (Cache.mkCaches [] []))))
  = None.
Proof.
  destruct (data_change_invalidates_three_keys (V := string) "supply" "2024"
              (Cache.setCachedData 5000 "supply-2024" "rows" (Cache.mkCaches [] [])) 6000)
    as (Hgone & _).
  exact Hgone.
Defined.

(** * The claims that rest on the invariants of the whole *)

(** ** Deferred tasks *)



(** ** Action endpoints *)

Lemma gated_gamer (u : User) (w : World) (k : User -> Result) :
  role u = "gamer" -> gated (Some u) w k = k u.
Proof. intros Hrole. unfold gated. by rewrite Hrole. Qed.

Lemma includes_elem_of (l : list string) (s : string) :
  Js.includes l (Some s) = true <-> s ∈ l.
Proof.
  unfold Js.includes. rewrite existsb_exists, list_elem_of_In. split.
  - intros (x & Hin & E). apply String.eqb_eq in E. by subst.
  - intros Hin. exists s. split; [done|apply String.eqb_refl].
Qed.

Lemma plays_as_written (g : Chess.Game) (u : string) :
  (if Js.eq_undef (Js.nth (Chess.players g) 0) u then "white" else "black") = plays g u.
Proof.
  unfold plays, Js.nth. simpl. destruct (Chess.players g) as [|first ps]; [done|]. simpl.
  destruct (String.eqb_spec first u); by destruct (decide (first = u)).
Qed.

Lemma find_stranger {P : Type} (name : P -> string) (ps : list P) (u : string) :
  u ∉ map name ps -> find (fun p => String.eqb (name p) u) ps = None.
Proof.
  induction ps as [|q ps IH]; [done|]. simpl. intros Hout.
  apply not_elem_of_cons in Hout as [Hq Hout].
  destruct (String.eqb_spec (name q) u); [congruence|by apply IH].
Qed.

Lemma find_named {P : Type} (name : P -> string) (ps : list P) (u : string) (p : P) :
  NoDup (map name ps) -> p ∈ ps -> name p = u ->
  find (fun q => String.eqb (name q) u) ps = Some p.
Proof.
  induction ps as [|q ps IH]; intros Hnd Hin Hname.
  - by apply elem_of_nil in Hin.
  - simpl in *. apply NoDup_cons in Hnd as [Hq Hnd].
    apply elem_of_cons in Hin as [->|Hin].
    + by rewrite Hname, String.eqb_refl.
    + destruct (String.eqb_spec (name q) u) as [E|E]; [|by apply IH].
      exfalso. apply Hq. rewrite E, <- Hname. apply list_elem_of_In, in_map.
      by apply list_elem_of_In.
Qed.

Lemma stranger_has_no_turn {P : Type} (name : P -> string) (ps : list P) (i : Z)
    (u : string) (p : P) :
  u ∉ map name ps -> Js.nth ps i = Some p -> name p <> u.
Proof.
  intros Hout Hp <-. apply Hout. apply nth_Some in Hp as [_ Hp].
  apply list_elem_of_In, in_map, list_elem_of_In. by eapply list_elem_of_lookup_2.
Qed.

(** C6: from a reachable world, each action endpoint (chess move, grid
    move, card play, card draw, race roll) either refuses, leaving the whole
    world as it was and emitting nothing, or succeeds, emitting exactly one
    event, to the gaming room, that carries the match as the container now
    holds it. And every validation failure is a refusal: for a gamer, an
    id under which no match is stored is answered 404; a user who is not a
    player of the match is answered 403 by chess move and grid move and 400
    by the three others, which only know the player to move; a player
    whose turn it is not is answered 400; and the player to move is
    answered 400 for a move chess finds invalid, a grid cell that is not
    empty or not on the board, a card index beyond the hand, a card that
    matches neither the color nor the number in force, and a die that is
    already rolled. *)
Theorem C6_action_endpoints_answer_cleanly (w : World) :
  reachable w ->
  (forall su gameId from to now,
     answered_cleanly w gameId (fun w' => GChess <$> chessGames w' !! gameId)
       (chess_move su gameId from to now w))
  /\ (forall su gameId position,
        answered_cleanly w gameId (fun w' => GTtt <$> ticTacToeGames w' !! gameId)
          (tictactoe_move su gameId position w))
  /\ (forall su gameId cardIndex chosenColor,
        answered_cleanly w gameId (fun w' => GUno <$> unoGames w' !! gameId)
          (uno_play_card su gameId cardIndex chosenColor w))
  /\ (forall su gameId rs,
        answered_cleanly w gameId (fun w' => GUno <$> unoGames w' !! gameId)
          (uno_draw_card su gameId rs w))
  /\ (forall su gameId rs,
        answered_cleanly w gameId (fun w' => GLudo <$> ludoGames w' !! gameId)
          (ludo_roll su gameId rs w))
  /\ (forall u, role u = "gamer" ->
      (forall gameId from to now,
         (chessGames w !! gameId = None ->
          turned_down w 404 "Game not found" (chess_move (Some u) gameId from to now w))
         /\ (forall g, chessGames w !! gameId = Some g ->
               (username u ∉ Chess.players g ->
                turned_down w 403 "Not a player in this game"
                  (chess_move (Some u) gameId from to now w))
               /\ (username u ∈ Chess.players g ->
                   Chess.turn g <> plays g (username u) ->
                   turned_down w 400 "Not your turn"
                     (chess_move (Some u) gameId from to now w))
               /\ (username u ∈ Chess.players g ->
                   Chess.turn g = plays g (username u) ->
                   Chess.isValidMove (Chess.board g) from to (Chess.turn g) = Some false ->
                   turned_down w 400 "Invalid move"
                     (chess_move (Some u) gameId from to now w))))
      /\ (forall gameId position,
           (ticTacToeGames w !! gameId = None ->
            turned_down w 404 "Game not found" (tictactoe_move (Some u) gameId position w))
           /\ (forall g, ticTacToeGames w !! gameId = Some g ->
                 (username u ∉ map Ttt.name (Ttt.players g) ->
                  turned_down w 403 "Not a player in this game"
                    (tictactoe_move (Some u) gameId position w))
                 /\ (forall player,
                       player ∈ Ttt.players g -> Ttt.name player = username u ->
                       (Ttt.currentPlayer g <> Ttt.symbol player ->
                        turned_down w 400 "Not your turn"
                          (tictactoe_move (Some u) gameId position w))
                       /\ (Ttt.currentPlayer g = Ttt.symbol player ->
                           Js.nth (Ttt.board g) position <> Some "" ->
                           turned_down w 400 "Position already taken"
                             (tictactoe_move (Some u) gameId position w)))))
      /\ (forall gameId cardIndex chosenColor,
           (unoGames w !! gameId = None ->
            turned_down w 404 "Game not found"
              (uno_play_card (Some u) gameId cardIndex chosenColor w))
           /\ (forall g, unoGames w !! gameId = Some g ->
                 exists mover,
                   Js.nth (Uno.players g) (Uno.currentPlayerIndex g) = Some mover
                   /\ (username u ∉ map Uno.name (Uno.players g) ->
                       turned_down w 400 "Not your turn"
                         (uno_play_card (Some u) gameId cardIndex chosenColor w))
                   /\ (Uno.name mover <> username u ->
                       turned_down w 400 "Not your turn"
                         (uno_play_card (Some u) gameId cardIndex chosenColor w))
                   /\ (Uno.name mover = username u ->
                       Js.len (Uno.hand mover) <= cardIndex ->
                       turned_down w 400 "Invalid card index"
                         (uno_play_card (Some u) gameId cardIndex chosenColor w))
                   /\ (forall card,
                         Uno.name mover = username u ->
                         Js.nth (Uno.hand mover) cardIndex = Some card ->
                         Uno.is_wild card = false ->
                         Uno.color card <> Uno.currentColor g ->
                         Uno.value card <> Uno.currentNumber g ->
                         turned_down w 400 "Cannot play this card"
                           (uno_play_card (Some u) gameId cardIndex chosenColor w))))
      /\ (forall gameId rs,
           (unoGames w !! gameId = None ->
            turned_down w 404 "Game not found" (uno_draw_card (Some u) gameId rs w))
           /\ (forall g, unoGames w !! gameId = Some g ->
                 exists mover,
                   Js.nth (Uno.players g) (Uno.currentPlayerIndex g) = Some mover
                   /\ (username u ∉ map Uno.name (Uno.players g) ->
                       turned_down w 400 "Not your turn"
                         (uno_draw_card (Some u) gameId rs w))
                   /\ (Uno.name mover <> username u ->
                       turned_down w 400 "Not your turn"
                         (uno_draw_card (Some u) gameId rs w))))
      /\ (forall gameId rs,
           (ludoGames w !! gameId = None ->
            turned_down w 404 "Game not found" (ludo_roll (Some u) gameId rs w))
           /\ (forall g, ludoGames w !! gameId = Some g ->
                 exists mover,
                   Js.nth (Ludo.players g) (Ludo.currentPlayerIndex g) = Some mover
                   /\ (username u ∉ map Ludo.name (Ludo.players g) ->
                       turned_down w 400 "Not your turn" (ludo_roll (Some u) gameId rs w))
                   /\ (Ludo.name mover <> username u ->
                       turned_down w 400 "Not your turn" (ludo_roll (Some u) gameId rs w))
                   /\ (Ludo.name mover = username u ->
                       Ludo.diceRolled g = true ->
                       turned_down w 400 "Dice already rolled"
                         (ludo_roll (Some u) gameId rs w))))).
Proof.
  intros Hr. destruct (reachable_ok w Hr) as (Hc & Hl & Ht & Hu). split_and!.
  - intros su gameId from to now. apply gated_cleanly. intros u.
    destruct (chessGames w !! gameId) as [g|] eqn:Hg; [|done].
    apply (respond_cleanly GChess put_chess chessGames).
    + intros. apply get_put_chess.
    + pose proof (chess_move_spec (username u) from to now g (Hc _ _ Hg)) as Hs.
      by destruct (Chess.move _ _ _ _ _).
  - intros su gameId position. apply gated_cleanly. intros u.
    destruct (ticTacToeGames w !! gameId) as [g|] eqn:Hg; [|done].
    apply (respond_cleanly GTtt put_ttt ticTacToeGames).
    + intros. apply get_put_ttt.
    + pose proof (ttt_move_spec (username u) position g (Ht _ _ Hg)) as Hs.
      by destruct (Ttt.move _ _ _).
  - intros su gameId cardIndex chosenColor. apply gated_cleanly. intros u.
    destruct (unoGames w !! gameId) as [g|] eqn:Hg; [|done].
    apply (respond_cleanly GUno put_uno unoGames).
    + intros. apply get_put_uno.
    + pose proof (play_card_spec (username u) cardIndex chosenColor g (Hu _ _ Hg)) as Hs.
      by destruct (Uno.play_card _ _ _ _).
  - intros su gameId rs. apply gated_cleanly. intros u.
    destruct (unoGames w !! gameId) as [g|] eqn:Hg; [|done].
    apply (respond_cleanly GUno put_uno unoGames).
    + intros. apply get_put_uno.
    + pose proof (draw_card_spec rs (username u) g (Hu _ _ Hg)) as Hs.
      by destruct (Uno.draw_card _ _ _).
  - intros su gameId rs. apply gated_cleanly. intros u.
    destruct (ludoGames w !! gameId) as [g|] eqn:Hg; [|done].
    pose proof (ludo_roll_spec rs (username u) g (Hl _ _ Hg)) as Hs.
    destruct (Ludo.roll rs (username u) g) as [o d]. simpl in Hs.
    destruct o as [c m| |g'|g' ev]; try done.
    unfold answered_cleanly. simpl. split; [by exists ev|]. by rewrite lookup_insert_eq.
  - intros u Hrole. unfold turned_down. split_and!.
    + (* chess move *)
      intros gameId from to now. unfold chess_move. rewrite gated_gamer by done.
      split; [by intros ->|]. intros g Hg. rewrite Hg. unfold Chess.move.
      rewrite plays_as_written. split_and!.
      * intros Hout. destruct (Js.includes _ _) eqn:E; [|done].
        by apply includes_elem_of in E.
      * intros Hin Hturn. apply includes_elem_of in Hin. rewrite Hin. cbn [negb].
        destruct (String.eqb_spec (Chess.turn g) (plays g (username u))); done.
      * intros Hin Hturn Hbad. apply includes_elem_of in Hin. rewrite Hin. cbn [negb].
        rewrite <- Hturn, String.eqb_refl. cbn [negb]. by rewrite Hbad.
    + (* grid move *)
      intros gameId position. unfold tictactoe_move. rewrite gated_gamer by done.
      split; [by intros ->|]. intros g Hg. rewrite Hg. unfold Ttt.move.
      destruct (reachable_grid_sound w gameId g Hr Hg) as (_ & Hnd & _). split.
      * intros Hout. by rewrite (find_stranger Ttt.name).
      * intros player Hin Hname. rewrite (find_named Ttt.name _ _ player) by done. split.
        -- intros Hturn. by destruct (String.eqb_spec (Ttt.currentPlayer g) (Ttt.symbol player)).
        -- intros Hturn Hcell. rewrite Hturn, String.eqb_refl. cbn [negb].
           destruct (Js.nth (Ttt.board g) position) as [cell|]; [|done]. simpl.
           destruct (String.eqb_spec cell ""); [congruence|done].
    + (* card play *)
      intros gameId cardIndex chosenColor. unfold uno_play_card. rewrite gated_gamer by done.
      split; [by intros ->|]. intros g Hg. rewrite Hg. unfold Uno.play_card.
      destruct (Hu _ _ Hg) as (Hi & _).
      destruct (Js.nth (Uno.players g) (Uno.currentPlayerIndex g)) as [mover|] eqn:Hm.
      2: { unfold Js.nth, Js.len in *. destruct (Z.ltb_spec (Uno.currentPlayerIndex g) 0); [lia|].
           apply lookup_ge_None in Hm. lia. }
      exists mover. split; [done|].
      split_and!.
      * intros Hout. pose proof (stranger_has_no_turn Uno.name _ _ _ _ Hout Hm) as Hne.
        by destruct (String.eqb_spec (Uno.name mover) (username u)).
      * intros Hne. by destruct (String.eqb_spec (Uno.name mover) (username u)).
      * intros Hname Hlen. rewrite Hname, String.eqb_refl. cbn [negb].
        by destruct (Z.geb_spec cardIndex (Js.len (Uno.hand mover))); [|lia].
      * intros card Hname Hcard Hw Hcol Hval. rewrite Hname, String.eqb_refl. cbn [negb].
        apply nth_Some in Hcard as Hrange. destruct Hrange as [Hrange _].
        destruct (Z.geb_spec cardIndex (Js.len (Uno.hand mover))); [lia|].
        rewrite Hcard. unfold Uno.canPlayUNOCard. rewrite Hw.
        destruct (String.eqb_spec (Uno.color card) (Uno.currentColor g)); [done|].
        destruct (String.eqb_spec (Uno.value card) (Uno.currentNumber g)); done.
    + (* card draw *)
      intros gameId rs. unfold uno_draw_card. rewrite gated_gamer by done.
      split; [by intros ->|]. intros g Hg. rewrite Hg. unfold Uno.draw_card.
      destruct (Hu _ _ Hg) as (Hi & _).
      destruct (Js.nth (Uno.players g) (Uno.currentPlayerIndex g)) as [mover|] eqn:Hm.
      2: { unfold Js.nth, Js.len in *. destruct (Z.ltb_spec (Uno.currentPlayerIndex g) 0); [lia|].
           apply lookup_ge_None in Hm. lia. }
      exists mover. split; [done|]. split.
      * intros Hout. pose proof (stranger_has_no_turn Uno.name _ _ _ _ Hout Hm) as Hne.
        by destruct (String.eqb_spec (Uno.name mover) (username u)).
      * intros Hne. by destruct (String.eqb_spec (Uno.name mover) (username u)).
    + (* race roll *)
      intros gameId rs. unfold ludo_roll. rewrite gated_gamer by done.
      split; [by intros ->|]. intros g Hg. rewrite Hg. unfold Ludo.roll.
      destruct (reachable_race_sound w gameId g Hr Hg) as (_ & Hi & _).
      destruct (Js.nth (Ludo.players g) (Ludo.currentPlayerIndex g)) as [mover|] eqn:Hm.
      2: { unfold Js.nth, Js.len in *. destruct (Z.ltb_spec (Ludo.currentPlayerIndex g) 0); [lia|].
           apply lookup_ge_None in Hm. lia. }
      exists mover. split; [done|]. split_and!.
      * intros Hout. pose proof (stranger_has_no_turn Ludo.name _ _ _ _ Hout Hm) as Hne.
        by destruct (String.eqb_spec (Ludo.name mover) (username u)).
      * intros Hne. by destruct (String.eqb_spec (Ludo.name mover) (username u)).
      * intros Hname Hrolled. rewrite Hname, String.eqb_refl, Hrolled. done.
Qed.

Lemma C6_witness :
  answered_cleanly deck_drawn_out "uno_1000" (fun w' => GUno <$> unoGames w' !! "uno_1000")
    (uno_play_card bob "uno_1000" 1 None deck_drawn_out)
  /\ turned_down deck_drawn_out 400 "Not your turn"
       (uno_play_card alice "uno_1000" 1 None deck_drawn_out)
  /\ turned_down deck_drawn_out 404 "Game not found"
       (chess_move alice "1000" "e2" "e4" 2000 deck_drawn_out).
Proof.
  destruct (C6_action_endpoints_answer_cleanly deck_drawn_out)
    as (_ & _ & Hplay & _ & _ & Hrefuse).
  - apply run_reachable. apply run_reachable. constructor.
  - destruct (Hrefuse (mkUser "alice" "gamer") eq_refl) as (Hchess & _ & Hcard & _).
    split_and!.
    + apply Hplay.
    + destruct (Hcard "uno_1000" 1 None) as [_ Hfound].
      destruct (Hfound (the_uno deck_drawn_out "uno_1000")) as (mover & Hm & _ & Hturn & _).
      * vm_compute. reflexivity.
      * apply Hturn. vm_compute in Hm. injection Hm as <-. discriminate.
    + destruct (Hchess "1000" "e2" "e4" 2000) as [Hnone _]. apply Hnone.
      vm_compute. reflexivity.
Defined.
